(** * svg2latex: transforms, lengths and extraction

    A shallow embedding of [svg2latex.py] and [svg2pdf.py].

    Modelling conventions.
    - A Python [float] is an exact rational ([Qc], canonical fractions with
      Leibniz equality); every arithmetic expression is kept in the order the
      source writes it.  What is stated of [float] is stated either of the
      expression that the source computes, or of sums with 0 and products
      with 0 and 1, which finite binary64 numbers compute exactly as well.
      Rounding is treated apart: [AffineOver] is the class over any carrier
      and any two operations, taken at the binary64 numbers of the machine
      ([PrimFloat]) and at rationals with a rounded sum and product.
      Infinities and NaN are outside the model.
    - A Python [str] is a [string]; the scanners work on its characters
      ([list ascii]).  Only ASCII text is modelled: a byte above 127 is neither
      a word character nor white space.
    - An exception is a value of [exn]; a function that may raise returns a
      [result].
    - A parsed document is an arena of elements in document order; an element
      reference is its index, the parent link is stored with the element and
      [remove] unlinks an element in place (its subtree stays intact). *)

From Stdlib Require Import ZArith QArith Qcanon Qabs Lqa String Ascii List Lia Bool.
From Stdlib Require PrimFloat.
From stdpp Require Import base option list gmap strings.

Local Open Scope string_scope.
Local Open Scope list_scope.

(** ** Numbers *)

Definition float : Type := Qc.
Bind Scope Qc_scope with float.

Definition of_Z (z : Z) : float := Q2Qc (inject_Z z).
Definition of_frac (n : Z) (d : positive) : float := Q2Qc (n # d).

(** ** Exceptions *)

Inductive exn : Type :=
| KeyError (key : string)
| ValueError (text : string)
| AttributeError (what : string)
| OSError (path : string)
| Exception (msg : string)
| Unbounded.  (* a loop outran its bound: only on a cyclic parent chain *)

Inductive result (A : Type) : Type :=
| Ok (a : A)
| Raise (e : exn).
Arguments Ok {A} a.
Arguments Raise {A} e.

Definition rbind {A B : Type} (r : result A) (k : A -> result B) : result B :=
  match r with
  | Ok a => k a
  | Raise e => Raise e
  end.

Notation "'let*' x ':=' c 'in' k" := (rbind c (fun x => k))
  (at level 10, x pattern, c at level 100, k at level 200).

Fixpoint rmap {A B : Type} (f : A -> result B) (l : list A) : result (list B) :=
  match l with
  | [] => Ok []
  | x :: l' =>
      let* y := f x in
      let* ys := rmap f l' in
      Ok (y :: ys)
  end.

(** [for x in l: body], the loop state threaded through the iterations. *)
Fixpoint for_each {A S : Type} (body : A -> S -> result S) (l : list A) (s : S)
  : result S :=
  match l with
  | [] => Ok s
  | x :: l' => let* s' := body x s in for_each body l' s'
  end.

(** ** class AffineTransform (the same in both files, [scale] apart)

    The methods that update [s] in place return the new [s] here.
    [rotate_degrees] and [get_rotation] go through [math.sin], [math.cos] and
    [math.atan2]; no parser calls them.  [get_rotation] is left out;
    [rotate_degrees] takes the sine and the cosine of an angle in degrees
    from outside. *)

Module Affine.

Record AffineTransform : Type := mk {
  t : float * float;
  m : float * float * float * float;
}.

(** [AffineTransform()] *)
Definition identity : AffineTransform := mk (0, 0)%Qc (1, 0, 0, 1)%Qc.

Definition clone (s : AffineTransform) : AffineTransform := mk (t s) (m s).

(** [s.matrix(a,b,c,d,e,f)] *)
Definition matrix (s : AffineTransform) (a b c d e f : float) : AffineTransform :=
  let '(sa, sb, sc, sd) := m s in
  let '(se, sf) := t s in
  let ma := (sa*a + sc*b)%Qc in
  let mb := (sb*a + sd*b)%Qc in
  let mc := (sa*c + sc*d)%Qc in
  let md := (sb*c + sd*d)%Qc in
  let me := (sa*e + sc*f + se)%Qc in
  let mf := (sb*e + sd*f + sf)%Qc in
  mk (me, mf) (ma, mb, mc, md).

Definition translate (s : AffineTransform) (tx ty : float) : AffineTransform :=
  matrix s 1 0 0 1 tx ty.

(** [scale] of svg2pdf.py: [s.matrix(sx,0.0, 0.0,sy)] *)
Definition scale_svg2pdf (s : AffineTransform) (sx : float) (sy : option float)
  : AffineTransform :=
  let sy := match sy with None => sx | Some sy => sy end in
  matrix s sx 0 0 sy 0 0.

(** [scale] of svg2latex.py: [s.matrix(sx,0.0, sy,0.0)] *)
Definition scale_svg2latex (s : AffineTransform) (sx : float) (sy : option float)
  : AffineTransform :=
  let sy := match sy with None => sx | Some sy => sy end in
  matrix s sx 0 sy 0 0 0.

(** [s.applyTo(x, y)] *)
Definition applyTo (s : AffineTransform) (x y : float) : float * float :=
  let '(m0, m1, m2, m3) := m s in
  let xx := (fst (t s) + m0*x + m2*y)%Qc in
  let yy := (snd (t s) + m1*x + m3*y)%Qc in
  (xx, yy).

(** [s.applyTo(p)] with [y] left out: [x] is the pair. *)
Definition applyTo_point (s : AffineTransform) (p : float * float) : float * float :=
  applyTo s (fst p) (snd p).

(** [a * b] *)
Definition __mul__ (a b : AffineTransform) : AffineTransform :=
  let '(a11, a21, a12, a22) := m a in
  let '(a13, a23) := t a in
  let '(b11, b21, b12, b22) := m b in
  let '(b13, b23) := t b in
  let c11 := (a11*b11 + a12*b21)%Qc in
  let c12 := (a11*b12 + a12*b22)%Qc in
  let c13 := (a11*b13 + a12*b23 + a13)%Qc in
  let c21 := (a21*b11 + a22*b21)%Qc in
  let c22 := (a21*b12 + a22*b22)%Qc in
  let c23 := (a21*b13 + a22*b23 + a23)%Qc in
  mk (c13, c23) (c11, c21, c12, c22).

(** [s.rotate_degrees(angle, cx, cy)]; [sin_degrees angle] stands for
    [math.sin(math.radians(angle))], [cos_degrees] likewise. *)
Definition rotate_degrees (sin_degrees cos_degrees : float -> float)
    (s : AffineTransform) (angle cx cy : float) : AffineTransform :=
  let sin := sin_degrees angle in
  let cos := cos_degrees angle in
  let centred :=
    let s1 := translate s cx cy in
    let s2 := matrix s1 cos sin (- sin)%Qc cos 0 0 in
    translate s2 (- cx)%Qc (- cy)%Qc in
  if Qc_eq_dec cx 0%Qc then
    if Qc_eq_dec cy 0%Qc then matrix s cos sin (- sin)%Qc cos 0 0 else centred
  else centred.

End Affine.

Abbreviation AffineTransform := Affine.AffineTransform.
Infix "@*" := Affine.__mul__ (at level 40, left associativity).

(** The same class over a carrier [F] with a sum and a product of its own:
    [applyTo] and [__mul__] as the source writes them, operation by
    operation. *)

Module AffineOver.

Section Arithmetic.

Variable F : Type.
Variables add mul : F -> F -> F.

Record AffineTransform : Type := mk {
  t : F * F;
  m : F * F * F * F;
}.

(** [s.applyTo(x, y)] *)
Definition applyTo (s : AffineTransform) (x y : F) : F * F :=
  let '(m0, m1, m2, m3) := m s in
  let xx := add (add (fst (t s)) (mul m0 x)) (mul m2 y) in
  let yy := add (add (snd (t s)) (mul m1 x)) (mul m3 y) in
  (xx, yy).

Definition applyTo_point (s : AffineTransform) (p : F * F) : F * F :=
  applyTo s (fst p) (snd p).

(** [a * b] *)
Definition __mul__ (a b : AffineTransform) : AffineTransform :=
  let '(a11, a21, a12, a22) := m a in
  let '(a13, a23) := t a in
  let '(b11, b21, b12, b22) := m b in
  let '(b13, b23) := t b in
  let c11 := add (mul a11 b11) (mul a12 b21) in
  let c12 := add (mul a11 b12) (mul a12 b22) in
  let c13 := add (add (mul a11 b13) (mul a12 b23)) a13 in
  let c21 := add (mul a21 b11) (mul a22 b21) in
  let c22 := add (mul a21 b12) (mul a22 b22) in
  let c23 := add (add (mul a21 b13) (mul a22 b23)) a23 in
  mk (c13, c23) (c11, c21, c12, c22).

End Arithmetic.

Arguments mk {F} _ _.
Arguments t {F} _.
Arguments m {F} _.
Arguments applyTo {F} _ _ _ _ _.
Arguments applyTo_point {F} _ _ _ _.
Arguments __mul__ {F} _ _ _ _.

End AffineOver.

(** ** Characters and Python's string methods *)

Definition in_range (lo hi : nat) (c : ascii) : bool :=
  let n := nat_of_ascii c in (lo <=? n)%nat && (n <=? hi)%nat.

(** [str.isspace] and the regular expressions' [\s], ASCII part:
    TAB..CR, FS..US and the space. *)
Definition is_space (c : ascii) : bool := in_range 9 13 c || in_range 28 32 c.

Definition is_digit (c : ascii) : bool := in_range 48 57 c.

(** [\w], ASCII part: letters, digits and the underscore. *)
Definition is_word (c : ascii) : bool :=
  in_range 97 122 c || in_range 65 90 c || is_digit c || Ascii.eqb c "_".

Definition digit_value (c : ascii) : Z := Z.of_nat (nat_of_ascii c - 48).

(** The longest prefix of [l] whose characters satisfy [p], and the rest:
    a greedy [[class]*]. *)
Fixpoint span (p : ascii -> bool) (l : list ascii) : list ascii * list ascii :=
  match l with
  | c :: l' =>
      if p c then let '(pre, post) := span p l' in (c :: pre, post) else ([], l)
  | [] => ([], [])
  end.

Definition lstrip (l : list ascii) : list ascii := snd (span is_space l).

(** [s.strip()] *)
Definition strip_chars (l : list ascii) : list ascii := rev (lstrip (rev (lstrip l))).
Definition strip (s : string) : string :=
  string_of_list_ascii (strip_chars (list_ascii_of_string s)).

(** [s.split()]: the maximal runs of characters that are not white space.
    [cur] is the run being read, last character first. *)
Fixpoint split_runs (cur : list ascii) (l : list ascii) : list (list ascii) :=
  match l with
  | c :: l' =>
      if is_space c
      then match cur with
           | [] => split_runs [] l'
           | _ => rev cur :: split_runs [] l'
           end
      else split_runs (c :: cur) l'
  | [] => match cur with [] => [] | _ => [rev cur] end
  end.
Definition split (s : string) : list string :=
  map string_of_list_ascii (split_runs [] (list_ascii_of_string s)).

(** [s.split(sep)] for a one-character [sep]: never empty, empty pieces kept. *)
Fixpoint split_at (sep : ascii) (cur : list ascii) (l : list ascii) : list (list ascii) :=
  match l with
  | c :: l' =>
      if Ascii.eqb c sep then rev cur :: split_at sep [] l' else split_at sep (c :: cur) l'
  | [] => [rev cur]
  end.
Definition split_on (sep : ascii) (s : string) : list string :=
  map string_of_list_ascii (split_at sep [] (list_ascii_of_string s)).

(** [s.replace(a, b)] for one-character [a] and [b]. *)
Definition replace_chars (a b : ascii) (l : list ascii) : list ascii :=
  map (fun c => if Ascii.eqb c a then b else c) l.
Definition replace (a b : ascii) (s : string) : string :=
  string_of_list_ascii (replace_chars a b (list_ascii_of_string s)).

(** [s.partition(sep)] for a one-character [sep]: the text before the first
    [sep], whether there is one, and the text after it. *)
Fixpoint partition_chars (sep : ascii) (l : list ascii) : list ascii * bool * list ascii :=
  match l with
  | c :: l' =>
      if Ascii.eqb c sep then ([], true, l')
      else let '(a, found, b) := partition_chars sep l' in (c :: a, found, b)
  | [] => ([], false, [])
  end.

(** ** The builtin [float(text)]

    Decimal literals: optional sign, digits with an optional point (or a
    point and digits), optional exponent, single underscores between digits.
    The words [inf], [infinity] and [nan] are not modelled (the model has no
    such numbers): where Python returns an infinity or a NaN the model
    raises [ValueError], and a literal beyond the range of binary64, which
    Python reads as an infinity, is its exact value here.  The words do not
    pass the character classes of the regular expressions below; they can
    reach [float] from the attributes that svg2latex.py converts directly.
    The white space ignored around the literal is that
    of [str.strip]; the builtin itself is stricter about FS..US at the ends
    of an ASCII text, which no text of a parsed document, no stripped
    token and no match of a pattern below has. *)

(** A run of digits read onto [acc], [n] counting them; an underscore is
    skipped between two digits. *)
Fixpoint scan_digits (acc : Z) (n : nat) (l : list ascii) : Z * nat * list ascii :=
  match l with
  | c :: l' =>
      if is_digit c then scan_digits (10 * acc + digit_value c) (S n) l'
      else if Ascii.eqb c "_" then
        match n, l' with
        | S _, d :: _ => if is_digit d then scan_digits acc n l' else (acc, n, l)
        | _, _ => (acc, n, l)
        end
      else (acc, n, l)
  | [] => (acc, n, [])
  end.

(** An optional sign: whether it is a minus, and the rest. *)
Definition scan_sign (l : list ascii) : bool * list ascii :=
  match l with
  | c :: l' =>
      if Ascii.eqb c "+" then (false, l')
      else if Ascii.eqb c "-" then (true, l')
      else (false, l)
  | [] => (false, [])
  end.

Definition is_e (c : ascii) : bool := Ascii.eqb c "e" || Ascii.eqb c "E".

(** An optional exponent part that must reach the end of the text. *)
Definition scan_exponent (l : list ascii) : option Z :=
  match l with
  | [] => Some 0%Z
  | c :: l' =>
      if is_e c then
        let '(neg, l1) := scan_sign l' in
        match scan_digits 0 0 l1 with
        | (_, O, _) => None
        | (e, S _, []) => Some (if neg then (- e)%Z else e)
        | (_, S _, _ :: _) => None
        end
      else None
  end.

Definition pow10 (e : Z) : float := Q2Qc (Qpower (10 # 1) e).

Definition float_literal (l : list ascii) : option float :=
  let '(neg, l0) := scan_sign l in
  let '(ip, ni, l1) := scan_digits 0 0 l0 in
  let '(mant, nf, l2) :=
    match l1 with
    | c :: l1' => if Ascii.eqb c "." then scan_digits ip 0 l1' else (ip, O, l1)
    | [] => (ip, O, l1)
    end in
  match (ni + nf)%nat with
  | O => None
  | S _ =>
      match scan_exponent l2 with
      | Some e =>
          let v := (of_Z mant * pow10 (e - Z.of_nat nf))%Qc in
          Some (if neg then (- v)%Qc else v)
      | None => None
      end
  end.

(** [float(text)]: white space around the literal is ignored. *)
Definition float_of_string (text : string) : result float :=
  match float_literal (strip_chars (list_ascii_of_string text)) with
  | Some v => Ok v
  | None => Raise (ValueError text)
  end.

(** ** The builtin [int(text, 16)]

    White space around the literal is ignored (for the builtin that is
    TAB..CR and the space); then an optional sign, an optional [0x] or [0X]
    and the hexadecimal digits, single underscores allowed between digits
    and after the prefix. *)

Definition is_cspace (c : ascii) : bool := in_range 9 13 c || Ascii.eqb c " ".

Definition skip_cspace (l : list ascii) : list ascii := snd (span is_cspace l).

Definition hex_value (c : ascii) : option Z :=
  if is_digit c then Some (digit_value c)
  else if in_range 97 102 c then Some (Z.of_nat (nat_of_ascii c - 87))
  else if in_range 65 70 c then Some (Z.of_nat (nat_of_ascii c - 55))
  else None.

(** The digits read onto [acc], [n] counting them; [after_underscore] tells
    that the character before was an underscore, which neither a second
    underscore nor the end of the digits may follow. *)
Fixpoint scan_hex (acc : Z) (n : nat) (after_underscore : bool) (l : list ascii)
  : option (Z * nat * list ascii) :=
  match l with
  | c :: l' =>
      match hex_value c with
      | Some v => scan_hex (16 * acc + v) (S n) false l'
      | None =>
          if Ascii.eqb c "_" then
            if after_underscore then None else scan_hex acc n true l'
          else if after_underscore then None else Some (acc, n, l)
      end
  | [] => if after_underscore then None else Some (acc, n, [])
  end.

Definition is_x (c : ascii) : bool := Ascii.eqb c "x" || Ascii.eqb c "X".

Definition int_literal16 (l : list ascii) : option Z :=
  let '(neg, l1) := scan_sign (skip_cspace l) in
  let l2 :=
    match l1 with
    | c :: x :: l' =>
        if Ascii.eqb c "0" && is_x x then
          match l' with
          | u :: l'' => if Ascii.eqb u "_" then l'' else l'
          | [] => l'
          end
        else l1
    | _ => l1
    end in
  match l2 with
  | u :: _ =>
      if Ascii.eqb u "_" then None
      else
        match scan_hex 0 0 false l2 with
        | Some (v, S _, rest) =>
            match skip_cspace rest with
            | [] => Some (if neg then (- v)%Z else v)
            | _ :: _ => None
            end
        | _ => None
        end
  | [] => None
  end.

Definition int_of_string16 (text : string) : result Z :=
  match int_literal16 (list_ascii_of_string text) with
  | Some v => Ok v
  | None => Raise (ValueError text)
  end.

(** ** Indexing a string

    [text[0]] raises [IndexError] on the empty string.  One function of the
    two files indexes a string; its outcome has the error beside the
    exceptions above. *)

Inductive raised : Type :=
| IndexError
| Other (e : exn).

Inductive outcome (A : Type) : Type :=
| Returns (a : A)
| Raises (e : raised).
Arguments Returns {A} a.
Arguments Raises {A} e.

Definition outcome_of {A : Type} (r : result A) : outcome A :=
  match r with
  | Ok a => Returns a
  | Raise e => Raises (Other e)
  end.

(** ** Transform attributes *)

(** The argument characters of svg2pdf.py's [RX_TRANSFORM]: [[0-9,\s\.Ee+-]]. *)
Definition is_arg_svg2pdf (c : ascii) : bool :=
  is_digit c || Ascii.eqb c "," || is_space c || Ascii.eqb c "." || is_e c
  || Ascii.eqb c "+" || Ascii.eqb c "-".

(** The argument characters of svg2latex.py's [RX_TRANSFORM]: [[0-9,\s\.-]]. *)
Definition is_arg_svg2latex (c : ascii) : bool :=
  is_digit c || Ascii.eqb c "," || is_space c || Ascii.eqb c "." || Ascii.eqb c "-".

(** [RX_TRANSFORM] matched against the whole text: white space, a word (group
    1), an opening parenthesis, argument characters (group 2), a closing
    parenthesis, white space, the end.  The classes that follow one another
    are disjoint, so the greedy scan is the only way to match. *)
Definition match_transform (is_arg : ascii -> bool) (l : list ascii)
  : option (list ascii * list ascii) :=
  let l0 := lstrip l in
  match span is_word l0 with
  | ([], _) => None
  | (func, c :: l1) =>
      if Ascii.eqb c "(" then
        match span is_arg l1 with
        | (args, c' :: l2) =>
            if Ascii.eqb c' ")" then
              match lstrip l2 with
              | [] => Some (func, args)
              | _ :: _ => None
              end
            else None
        | (_, []) => None
        end
      else None
  | (_, []) => None
  end.

Definition RX_TRANSFORM_match (is_arg : ascii -> bool) (attribute : string)
  : option (string * string) :=
  match match_transform is_arg (list_ascii_of_string attribute) with
  | Some (func, args) => Some (string_of_list_ascii func, string_of_list_ascii args)
  | None => None
  end.

(** The part of the two parsers after [args] is computed; [scale] is the
    method each file calls for the [scale] function. *)
Definition build_transform
    (scale : AffineTransform -> float -> float -> AffineTransform)
    (attribute func : string) (args : list float) : result AffineTransform :=
  let xform := Affine.identity in
  if String.eqb func "matrix" then
    match args with
    | [a; b; c; d; e; f] => Ok (Affine.matrix xform a b c d e f)
    | _ => Raise (Exception "bad matrix transform")
    end
  else if String.eqb func "translate" then
    match args with
    | [tx] => Ok (Affine.translate xform tx 0)
    | [tx; ty] => Ok (Affine.translate xform tx ty)
    | _ => Raise (Exception "bad translate transform")
    end
  else if String.eqb func "scale" then
    match args with
    | [sx] => Ok (scale xform sx sx)
    | [sx; sy] => Ok (scale xform sx sy)
    | _ => Raise (Exception "bad scale transform")
    end
  else Raise (Exception ("unsupported transform attribute (" ++ attribute ++ ")")).

(** ** The document tree (lxml.etree) *)

Module Etree.

(** An element: its tag and attribute names are in Clark notation,
    [{namespace}local]. *)
Record Element : Type := mkElement {
  tag : string;
  attrib : gmap string string;
  text : option string;
  parent : option nat;
}.

(** [el.getparent()] *)
Definition getparent (doc : list Element) (el : nat) : option nat :=
  match doc !! el with
  | Some e => parent e
  | None => None
  end.

(** [el.attrib] *)
Definition attrib_of (doc : list Element) (el : nat) : gmap string string :=
  match doc !! el with
  | Some e => attrib e
  | None => ∅
  end.

(** [el.text] *)
Definition text_of (doc : list Element) (el : nat) : option string :=
  match doc !! el with
  | Some e => text e
  | None => None
  end.

(** [d[key]] on a dict or on [el.attrib] *)
Definition getitem {V : Type} (d : gmap string V) (key : string) : result V :=
  match d !! key with
  | Some v => Ok v
  | None => Raise (KeyError key)
  end.

(** [d.get(key, default)] *)
Definition get {V : Type} (d : gmap string V) (key : string) (default : V) : V :=
  match d !! key with
  | Some v => v
  | None => default
  end.

Definition unlink (e : Element) : Element :=
  mkElement (tag e) (attrib e) (text e) None.

(** [el.getparent().remove(el)]: the element leaves its parent's children;
    on an element without a parent, [None] has no [remove]. *)
Definition remove (doc : list Element) (el : nat) : result (list Element) :=
  match getparent doc el with
  | Some _ => Ok (alter unlink el doc)
  | None => Raise (AttributeError "remove")
  end.

(** The topmost element above [el]: parent links followed [n] times at most. *)
Fixpoint top (n : nat) (doc : list Element) (el : nat) : nat :=
  match n with
  | O => el
  | S n' =>
      match getparent doc el with
      | Some p => top n' doc p
      | None => el
      end
  end.

(** [el] is in the tree that [root] is in. *)
Definition in_tree (doc : list Element) (root el : nat) : bool :=
  bool_decide (top (S el) doc el = top (S root) doc root).

(** [root.xpath('//...')] with a node test [p]: the elements of the tree of
    [root] that satisfy [p], in document order. *)
Definition xpath_all (p : Element -> bool) (doc : list Element) (root : nat) : list nat :=
  List.filter
    (fun el => in_tree doc root el && match doc !! el with Some e => p e | None => false end)
    (seq 0 (length doc)).

(** [el.xpath('name')]: the children of [el] that satisfy [p], in document order. *)
Definition xpath_children (p : Element -> bool) (doc : list Element) (el : nat) : list nat :=
  List.filter
    (fun c => match doc !! c with
              | Some e => bool_decide (parent e = Some el) && p e
              | None => false
              end)
    (seq 0 (length doc)).

(** Document order: every parent link points to an earlier element. *)
Definition wf_document (doc : list Element) : Prop :=
  forall el p, getparent doc el = Some p -> p < el.

End Etree.

Abbreviation Element := Etree.Element.

(** ** Namespaces *)

Definition NS_TEXTEXT : string := "http://www.iki.fi/pav/software/textext/".
Definition NS_SVG : string := "http://www.w3.org/2000/svg".

Definition SVG_NSS : gmap string string :=
  list_to_map
    [ ("dc", "http://purl.org/dc/elements/1.1/");
      ("cc", "http://creativecommons.org/ns#");
      ("rdf", "http://www.w3.org/1999/02/22-rdf-syntax-ns#");
      ("svg", NS_SVG);
      ("textext", NS_TEXTEXT);
      ("xlink", "http://www.w3.org/1999/xlink");
      ("sodipodi", "http://sodipodi.sourceforge.net/DTD/sodipodi-0.dtd");
      ("inkscape", "http://www.inkscape.org/namespaces/inkscape") ].

(** [ns_attrib(attrib)] *)
Definition ns_attrib (attrib : string) : result string :=
  let '(ns, _, local) := partition_chars ":" (list_ascii_of_string attrib) in
  let* uri := Etree.getitem SVG_NSS (string_of_list_ascii ns) in
  Ok ("{" ++ uri ++ "}" ++ string_of_list_ascii local)%string.

(** A qualified name in Clark notation, for the node tests. *)
Definition clark (uri local : string) : string := ("{" ++ uri ++ "}" ++ local)%string.

(** [svg:image], [svg:text], [svg:tspan] and [*[@textext:text]] *)
Definition is_image (e : Element) : bool := String.eqb (Etree.tag e) (clark NS_SVG "image").
Definition is_text (e : Element) : bool := String.eqb (Etree.tag e) (clark NS_SVG "text").
Definition is_tspan (e : Element) : bool := String.eqb (Etree.tag e) (clark NS_SVG "tspan").
Definition has_textext (e : Element) : bool :=
  bool_decide (is_Some (Etree.attrib e !! clark NS_TEXTEXT "text")).

(** ** The accumulated transform (both files, each with its parser) *)

Section Walker.

Variable parse_transform : string -> result AffineTransform.

(** The [while el is not None] loop; [n] bounds the iterations. *)
Fixpoint walk_up (n : nat) (doc : list Element) (el : option nat) (xform : AffineTransform)
  : result AffineTransform :=
  match el with
  | None => Ok xform
  | Some e =>
      match n with
      | O => Raise Unbounded
      | S n' =>
          let* xform' :=
            match Etree.attrib_of doc e !! "transform" with
            | Some a => let* t := parse_transform a in Ok (t @* xform)
            | None => Ok xform
            end in
          walk_up n' doc (Etree.getparent doc e) xform'
      end
  end.

(** In document order the chain above [el] has [el + 1] elements at most. *)
Definition accumulated_transform (doc : list Element) (el : nat) : result AffineTransform :=
  walk_up (S el) doc (Some el) Affine.identity.

End Walker.

(** ** svg2latex.py *)

Module Svg2latex.

Definition RX_TRANSFORM := RX_TRANSFORM_match is_arg_svg2latex.

(** [m.group(2).split(',')] *)
Definition argument_tokens (args : string) : list string := split_on "," args.

(** The [scale] branch calls [xform.translate(sx,sy)]. *)
Definition parse_svg_transform (attribute : string) : result AffineTransform :=
  match RX_TRANSFORM attribute with
  | None => Raise (Exception ("bad transform (" ++ attribute ++ ")"))
  | Some (func, group2) =>
      let* args := rmap (fun x => float_of_string (strip x)) (argument_tokens group2) in
      build_transform (fun s sx sy => Affine.translate s sx sy) attribute func args
  end.

Definition compute_svg_transform := accumulated_transform parse_svg_transform.

(** [split_svg_style(style)] *)
Definition split_svg_style (style : string) : gmap string string :=
  let parts := map strip (split_on ";" style) in
  let parts :=
    map (fun x => partition_chars ":" (list_ascii_of_string x))
        (List.filter (fun x => negb (String.eqb x "")) parts) in
  fold_left
    (fun st p =>
       let '(key, _, value) := p in
       <[ string_of_list_ascii (strip_chars key) := string_of_list_ascii (strip_chars value) ]> st)
    parts ∅.

(** [\setlength{\unitlength}{1bp}] in [PICTURE_PREAMBLE]: the picture's unit
    in big points. *)
Definition unitlength : float := 1%Qc.

Definition ALIGN_LEFT : nat := 0.
Definition ALIGN_CENTER : nat := 1.
Definition ALIGN_RIGHT : nat := 2.

Record TeXLabel : Type := mkLabel {
  texcode : option string;
  color : nat * nat * nat;
  pos : float * float;
  align : nat;
  fontsize : float;
  font : option string;
  scale : float;
}.

(** [TeXLabel(pos, texcode)] *)
Definition new_label (pos : float * float) (texcode : option string) : TeXLabel :=
  mkLabel texcode (0, 0, 0) pos ALIGN_LEFT (of_Z 10) None 1%Qc.

Record TeXPicture : Type := mkPicture {
  width : float;
  height : float;
  backgroundGraphic : option string;
  labels : list TeXLabel;
}.

(** [TeXPicture(width, height)] *)
Definition new_picture (width height : float) : TeXPicture :=
  mkPicture width height None [].

Definition add_label (s : TeXPicture) (label : TeXLabel) : TeXPicture :=
  mkPicture (width s) (height s) (backgroundGraphic s) (labels s ++ [label]).

(** The body of the loop over the [svg:tspan] children of a text element.
    The style dict is computed and not used. *)
Definition interpret_tspan (doc : list Element) (style : gmap string string)
    (tspan : nat) (texDoc : TeXPicture) : result TeXPicture :=
  let a := Etree.attrib_of doc tspan in
  let span_style :=
    match a !! "style" with
    | Some s => split_svg_style s ∪ style
    | None => style
    end in
  let* xform := compute_svg_transform doc tspan in
  let* sx := Etree.getitem a "x" in
  let* x := float_of_string sx in
  let* sy := Etree.getitem a "y" in
  let* y := float_of_string sy in
  let pos := Affine.applyTo xform x y in
  let pos := (fst pos, (height texDoc - snd pos)%Qc) in
  Ok (add_label texDoc (new_label pos (Etree.text_of doc tspan))).

Definition interpret_svg_text (doc : list Element) (textEl : nat) (texDoc : TeXPicture)
  : result TeXPicture :=
  let a := Etree.attrib_of doc textEl in
  let style :=
    match a !! "style" with
    | Some s => split_svg_style s
    | None => ∅
    end in
  for_each (interpret_tspan doc style) (Etree.xpath_children is_tspan doc textEl) texDoc.

(** [process_svg] after [etree.parse]; [root] is [doc.getroot()].  The loop
    over the [textext] elements only prints. *)
Definition process_svg (doc : list Element) (root : nat) : result TeXPicture :=
  let normalTextElements := Etree.xpath_all is_text doc root in
  let a := Etree.attrib_of doc root in
  let* w := Etree.getitem a "width" in
  let* fw := float_of_string w in
  let width_ := (fw * of_Z 72 / of_Z 90)%Qc in
  let* h := Etree.getitem a "height" in
  let* fh := float_of_string h in
  let height_ := (fh * of_Z 72 / of_Z 90)%Qc in
  let texDoc := new_picture width_ height_ in
  for_each (interpret_svg_text doc) normalTextElements texDoc.

End Svg2latex.

(** ** svg2pdf.py *)

Module Svg2pdf.

Definition RX_TRANSFORM := RX_TRANSFORM_match is_arg_svg2pdf.

(** [m.group(2).replace(',',' ').split()] *)
Definition argument_tokens (args : string) : list string := split (replace "," " " args).

Definition svg_parse_transform (attribute : string) : result AffineTransform :=
  match RX_TRANSFORM attribute with
  | None => Raise (Exception ("bad transform (" ++ attribute ++ ")"))
  | Some (func, group2) =>
      let* args := rmap (fun x => float_of_string (strip x)) (argument_tokens group2) in
      build_transform (fun s sx sy => Affine.scale_svg2pdf s sx (Some sy)) attribute func args
  end.

Definition svg_find_accumulated_transform := accumulated_transform svg_parse_transform.

(** [svg_split_style(style)] *)
Definition svg_split_style (style : string) : gmap string string :=
  let parts := map strip (split_on ";" style) in
  let parts :=
    map (fun x => partition_chars ":" (list_ascii_of_string x))
        (List.filter (fun x => negb (String.eqb x "")) parts) in
  fold_left
    (fun st p =>
       let '(key, _, value) := p in
       <[ string_of_list_ascii (strip_chars key) := string_of_list_ascii (strip_chars value) ]> st)
    parts ∅.

(** [svg_parse_color(col)]: [col[1:3]], [col[3:5]] and [col[5:7]] are the
    substrings of two characters at most from the positions 1, 3 and 5. *)
Definition svg_parse_color (col : string) : outcome (Z * Z * Z) :=
  match col with
  | EmptyString => Raises IndexError
  | String c _ =>
      if Ascii.eqb c "#" then
        outcome_of
          (let* r := int_of_string16 (substring 1 2 col) in
           let* g := int_of_string16 (substring 3 2 col) in
           let* b := int_of_string16 (substring 5 2 col) in
           Ok (r, g, b))
      else Raises (Other (Exception "only hash-code colors are supported!"))
  end.

(** *** Lengths *)

Definition INKSCAPE_DPI : float := of_Z 90.
Definition SVG_UNITS_TO_BIG_POINTS : float := (of_Z 72 / of_Z 90)%Qc.

Definition UNIT_SCALE_TO_USER_UNITS : gmap string float :=
  list_to_map
    [ ("", 1%Qc);
      ("px", 1%Qc);
      ("in", INKSCAPE_DPI);
      ("cm", (INKSCAPE_DPI / of_frac 254 100)%Qc);
      ("mm", (INKSCAPE_DPI / of_frac 254 10)%Qc);
      ("pt", (INKSCAPE_DPI / of_Z 72)%Qc);
      ("pc", (INKSCAPE_DPI * of_Z 12 / of_Z 72)%Qc) ].

Definition lower (c : ascii) : ascii :=
  if in_range 65 90 c then ascii_of_nat (nat_of_ascii c + 32) else c.

(** An optional [[+-]]: the characters taken, and the rest. *)
Definition take_sign (l : list ascii) : list ascii * list ascii :=
  match l with
  | c :: l' => if Ascii.eqb c "+" || Ascii.eqb c "-" then ([c], l') else ([], l)
  | [] => ([], [])
  end.

(** The mantissa: digits and an optional point, or a point and a digit; then
    more digits. *)
Definition take_mantissa (l : list ascii) : option (list ascii * list ascii) :=
  match span is_digit l with
  | (d :: ds, l1) =>
      let '(dot, l2) :=
        match l1 with
        | c :: l1' => if Ascii.eqb c "." then ([c], l1') else ([], l1)
        | [] => ([], [])
        end in
      let '(more, l3) := span is_digit l2 in
      Some ((d :: ds) ++ dot ++ more, l3)
  | ([], _) =>
      match l with
      | c :: d :: l1 =>
          if Ascii.eqb c "." && is_digit d then
            let '(more, l2) := span is_digit l1 in
            Some (c :: d :: more, l2)
          else None
      | _ => None
      end
  end.

(** The optional exponent: an [e] in either case, an optional sign, digits.
    Without the digits the group matches nothing. *)
Definition take_exponent (l : list ascii) : list ascii * list ascii :=
  match l with
  | c :: l1 =>
      if is_e c then
        let '(sg, l2) := take_sign l1 in
        match span is_digit l2 with
        | (d :: ds, l3) => (c :: sg ++ d :: ds, l3)
        | ([], _) => ([], l)
        end
      else ([], l)
  | [] => ([], [])
  end.

Definition unit_words : list string := ["em"; "ex"; "px"; "in"; "cm"; "mm"; "pt"; "pc"].

(** The optional unit: one of the two-letter words in either case, or [%]. *)
Definition take_unit (l : list ascii) : option (list ascii) :=
  match l with
  | a :: b :: _ =>
      if bool_decide (String (lower a) (String (lower b) "") ∈ unit_words) then Some [a; b]
      else if Ascii.eqb a "%" then Some [a] else None
  | [a] => if Ascii.eqb a "%" then Some [a] else None
  | [] => None
  end.

(** [RX_LENGTH.match(text)]: the groups [value] and [unit].  The pattern is
    not anchored at the end: what follows the unit is ignored. *)
Definition RX_LENGTH_match (text : string) : option (string * option string) :=
  let l0 := lstrip (list_ascii_of_string text) in
  let '(sg, l1) := take_sign l0 in
  match take_mantissa l1 with
  | Some (mant, l2) =>
      let '(ex, l3) := take_exponent l2 in
      Some (string_of_list_ascii (sg ++ mant ++ ex),
            string_of_list_ascii <$> take_unit l3)
  | None => None
  end.

Definition invalid_length (text : string) : exn :=
  Exception ("invalid length " ++ String (ascii_of_nat 34) text ++ String (ascii_of_nat 34) "").

(** [svg_parse_length(text, apply_unit=False)] *)
Definition svg_parse_length_raw (text : string) : result (float * option string) :=
  match RX_LENGTH_match text with
  | Some (value, unit) =>
      let* raw_value := float_of_string value in
      Ok (raw_value, unit)
  | None => Raise (invalid_length text)
  end.

(** [svg_parse_length(text)], that is [apply_unit=True]: with a unit the
    result is the table's entry for it. *)
Definition svg_parse_length (text : string) : result float :=
  match RX_LENGTH_match text with
  | Some (value, unit) =>
      let* raw_value := float_of_string value in
      match unit with
      | Some u =>
          match UNIT_SCALE_TO_USER_UNITS !! u with
          | Some scale => Ok scale
          | None => Raise (KeyError u)
          end
      | None => Ok raw_value
      end
  | None => Raise (invalid_length text)
  end.

(** *** The picture *)

Record TeXPictureElement : Type := mkNode {
  tex_pos : float * float;
  texcode : string;
  xform : AffineTransform;
  svg_pos : option (float * float);
}.

Record TeXPicture : Type := mkPicture {
  width : float;
  height : float;
  nodes : list TeXPictureElement;
  extra_preamble : string;
}.

(** [pic.nodes.append(node)] *)
Definition append_node (pic : TeXPicture) (node : TeXPictureElement) : TeXPicture :=
  mkPicture (width pic) (height pic) (nodes pic ++ [node]) (extra_preamble pic).

Definition set_extra_preamble (pic : TeXPicture) (text : string) : TeXPicture :=
  mkPicture (width pic) (height pic) (nodes pic) text.

Definition newline : string := String (ascii_of_nat 10) "".

(** [\setlength{\unitlength}{0.8bp}] in [TEX_WRAPPER_HEAD]: the picture's unit
    in big points. *)
Definition unitlength : float := of_frac 8 10.

(** *** Extraction *)

Section Extraction.

(** What the run takes from Python's library and from the file system. *)
Variable format_float : float -> string.              (* [{}] in [str.format] *)
Variable splitext : string -> string * string.        (* [os.path.splitext] *)
Variable path_join : string -> string -> string.      (* [os.path.join] *)
Variable shutil_copy : string -> string -> result unit.
Variable decode_escaped_string : string -> result string.
Variable read_lines : string -> result (list string). (* [open] and [readlines] *)
Variable iterate : gset string -> list string.        (* the order of [for path in set] *)

(** The body of the loop over [//svg:image].  [image_id] is 1 in every
    iteration. *)
Definition extract_image (svg_dir : string) (el : nat) (s : TeXPicture * list Element)
  : result (TeXPicture * list Element) :=
  let '(pic, doc) := s in
  let image_id := "1" in
  let a := Etree.attrib_of doc el in
  let* w := Etree.getitem a "width" in
  let* width_ := svg_parse_length w in
  let* h := Etree.getitem a "height" in
  let* height_ := svg_parse_length h in
  let* xf := svg_find_accumulated_transform doc el in
  let* x := svg_parse_length (Etree.get a "x" "0") in
  let* y := svg_parse_length (Etree.get a "y" "0") in
  let '(x', y') := Affine.applyTo xf x y in
  let* key := ns_attrib "xlink:href" in
  let* path := Etree.getitem a key in
  let '(_, image_ext) := splitext path in
  let fullpath := path_join svg_dir path in
  let localpath := ("image" ++ image_id ++ image_ext)%string in
  let* _ := shutil_copy fullpath localpath in
  let node :=
    mkNode (x', (height pic - y' - height_)%Qc)
           ("\includegraphics[width=" ++ format_float (width_ / of_Z 90)%Qc
            ++ "in,height=" ++ format_float (height_ / of_Z 90)%Qc
            ++ "in]{" ++ localpath ++ "}")%string
           xf (Some (x, y)) in
  let* doc' := Etree.remove doc el in
  Ok (append_node pic node, doc').

Definition extract_images_to_texpic (svgroot : nat) (svg_dir : string)
    (s : TeXPicture * list Element) : result (TeXPicture * list Element) :=
  for_each (extract_image svg_dir) (Etree.xpath_all is_image (snd s) svgroot) s.

(** The body of the loop over [//svg:text]: the node is built and dropped,
    the element is removed. *)
Definition drop_text (pic : TeXPicture) (el : nat) (doc : list Element)
  : result (list Element) :=
  let a := Etree.attrib_of doc el in
  let* xf := svg_find_accumulated_transform doc el in
  let* x := svg_parse_length (Etree.get a "x" "0") in
  let* y := svg_parse_length (Etree.get a "y" "0") in
  Etree.remove doc el.

(** The body of the loop over [//*[@textext:text]]. *)
Definition extract_textext (el : nat) (s : TeXPicture * list Element * gset string)
  : result (TeXPicture * list Element * gset string) :=
  let '(pic, doc, preamble_files) := s in
  let a := Etree.attrib_of doc el in
  let* key := ns_attrib "textext:text" in
  let* raw := Etree.getitem a key in
  let* textext := decode_escaped_string raw in
  let* key' := ns_attrib "textext:preamble" in
  let* raw' := Etree.getitem a key' in
  let* preamble_src := decode_escaped_string raw' in
  let code :=
    ("\makebox(0,0)[lt]{\begin{varwidth}{20in}%" ++ newline ++ textext
     ++ "%" ++ newline ++ "\relax\end{varwidth}}")%string in
  let* xf := svg_find_accumulated_transform doc el in
  let '(x, y) := Affine.t xf in
  let node := mkNode (x, (height pic - y)%Qc) code xf (Some (0, 0)%Qc) in
  let* doc' := Etree.remove doc el in
  Ok (append_node pic node, doc', {[ preamble_src ]} ∪ preamble_files).

Definition extract_text_to_texpic (svgroot : nat) (s : TeXPicture * list Element)
  : result (TeXPicture * list Element) :=
  let '(pic, doc) := s in
  let* doc1 := for_each (drop_text pic) (Etree.xpath_all is_text doc svgroot) doc in
  let* (pic2, doc2, preamble_files) :=
    for_each extract_textext (Etree.xpath_all has_textext doc1 svgroot) (pic, doc1, ∅) in
  let* preamble := rmap read_lines (iterate preamble_files) in
  Ok (set_extra_preamble pic2 (String.concat "" (List.concat preamble)), doc2).

Definition bgnode : TeXPictureElement :=
  mkNode (0, 0)%Qc "\put(0,0){\includegraphics{graphic_only.pdf}}" Affine.identity None.

Definition convert_svg_to_texpic (svgroot : nat) (svg_dir : string) (doc : list Element)
  : result (TeXPicture * list Element) :=
  let a := Etree.attrib_of doc svgroot in
  let* w := Etree.getitem a "width" in
  let* width_ := svg_parse_length w in
  let* h := Etree.getitem a "height" in
  let* height_ := svg_parse_length h in
  let texpic := mkPicture width_ height_ [] "" in
  let* (texpic1, doc1) := extract_images_to_texpic svgroot svg_dir (texpic, doc) in
  let texpic2 := append_node texpic1 bgnode in
  extract_text_to_texpic svgroot (texpic2, doc1).

End Extraction.

End Svg2pdf.

(** * Definitions for the statements *)

(** ** Deciding equalities between computed numbers *)

Definition feqb (a b : float) : bool := Qeq_bool (this a) (this b).

Definition pair_eqb (p q : float * float) : bool :=
  feqb (fst p) (fst q) && feqb (snd p) (snd q).

Definition affine_eqb (a b : AffineTransform) : bool :=
  let '(a0, a1, a2, a3) := Affine.m a in
  let '(b0, b1, b2, b3) := Affine.m b in
  pair_eqb (Affine.t a) (Affine.t b)
  && feqb a0 b0 && feqb a1 b1 && feqb a2 b2 && feqb a3 b3.

Definition is_ok_with {A : Type} (eqb : A -> A -> bool) (r : result A) (v : A) : bool :=
  match r with
  | Ok a => eqb a v
  | Raise _ => false
  end.

(** ** The accumulated transform, as the specification words it *)

Section WalkerSpec.

Variable parse_transform : string -> result AffineTransform.

(** The elements from [el] up to the root, [el] first: [n] parent links at most. *)
Fixpoint path_to_root (n : nat) (doc : list Element) (el : nat) : list nat :=
  el :: match n with
        | O => []
        | S n' =>
            match Etree.getparent doc el with
            | Some p => path_to_root n' doc p
            | None => []
            end
        end.

(** An element's own transform; without the attribute it contributes the
    identity. *)
Definition own_transform (doc : list Element) (el : nat) : result AffineTransform :=
  match Etree.attrib_of doc el !! "transform" with
  | Some a => parse_transform a
  | None => Ok Affine.identity
  end.

(** One step of the walk: the ancestor's transform composed on the left. *)
Definition left_compose (doc : list Element) (acc : result AffineTransform) (a : nat)
  : result AffineTransform :=
  let* xform := acc in
  let* t := own_transform doc a in
  Ok (t @* xform).

Definition accumulatedTransform (doc : list Element) (el : nat) : result AffineTransform :=
  fold_left (left_compose doc) (path_to_root el doc el) (Ok Affine.identity).

End WalkerSpec.

(** A decidable form of [wf_document]. *)
Definition wf_documentb (doc : list Element) : bool :=
  forallb (fun el => match Etree.getparent doc el with
                     | Some p => (p <? el)%nat
                     | None => true
                     end)
          (seq 0 (length doc)).

(** ** Pruned documents *)

(** The three classes of elements that svg2pdf.py removes. *)
Definition extracted (e : Element) : bool := is_image e || is_text e || has_textext e.

Definition image_or_text (e : Element) : bool := is_image e || is_text e.

Definition not_in (P : Element -> bool) (e : Element) : bool := negb (P e).

(** [el.getparent().remove(el)] for every [el] of [l], in turn. *)
Definition unlink_all (l : list nat) (doc : list Element) : list Element :=
  fold_left (fun d el => alter Etree.unlink el d) l doc.

(** [doc'] is [doc] with some elements of class [P] unlinked. *)
Definition pruned (P : Element -> bool) (doc doc' : list Element) : Prop :=
  length doc' = length doc
  /\ forall el,
       doc' !! el = doc !! el
       \/ exists e, doc !! el = Some e /\ P e = true /\ doc' !! el = Some (Etree.unlink e).

(** [p] holds of [el] and of all the elements above it ([n] links at most). *)
Fixpoint all_above (p : Element -> bool) (n : nat) (doc : list Element) (el : nat) : bool :=
  match doc !! el with Some e => p e | None => true end
  && match n with
     | O => true
     | S n' =>
         match Etree.getparent doc el with
         | Some q => all_above p n' doc q
         | None => true
         end
     end.

(** A class that looks at the tag and the attributes only. *)
Definition stable (P : Element -> bool) : Prop := forall e, P (Etree.unlink e) = P e.

(** ** Pages *)

(** The nodes of [pic'] are those of [pic] and then [new]; the size is kept. *)
Definition extends (pic pic' : Svg2pdf.TeXPicture) (new : list Svg2pdf.TeXPictureElement)
  : Prop :=
  Svg2pdf.width pic' = Svg2pdf.width pic
  /\ Svg2pdf.height pic' = Svg2pdf.height pic
  /\ Svg2pdf.nodes pic' = Svg2pdf.nodes pic ++ new.

(** The page position of a text node: the translation part of its
    transform, the second coordinate counted from the top of the page. *)
Definition at_translation (page_height : float) (node : Svg2pdf.TeXPictureElement) : Prop :=
  Svg2pdf.tex_pos node
  = (fst (Affine.t (Svg2pdf.xform node)),
     (page_height - snd (Affine.t (Svg2pdf.xform node)))%Qc).

(** ** Variants of a transform text *)

(** One character of a text and of a variant of it: the same, or a comma
    replaced by white space. *)
Definition separator_variant (c c' : ascii) : Prop :=
  c = c' \/ (c = ","%char /\ is_space c' = true).

(** [s'] is [s] with some of its commas replaced by white space. *)
Definition separators_varied (s s' : string) : Prop :=
  Forall2 separator_variant (list_ascii_of_string s) (list_ascii_of_string s').

(** Two texts that differ in their white space characters only. *)
Definition same_up_to_space (c c' : ascii) : Prop :=
  c = c' \/ (is_space c = true /\ is_space c' = true).

(** ** Statements to be refuted *)

(** Every element of the tree that is neither an image nor carries the
    [textext:text] attribute keeps its parent and stays in the tree. *)
Definition only_two_classes_leave : Prop :=
  forall format_float splitext path_join shutil_copy decode_escaped_string read_lines
         iterate svgroot svg_dir doc pic doc' el e,
    Svg2pdf.convert_svg_to_texpic format_float splitext path_join shutil_copy
      decode_escaped_string read_lines iterate svgroot svg_dir doc = Ok (pic, doc') ->
    doc !! el = Some e ->
    Etree.in_tree doc svgroot el = true ->
    is_image e = false ->
    has_textext e = false ->
    Etree.getparent doc' el = Etree.getparent doc el
    /\ Etree.in_tree doc' svgroot el = true.

(** After a successful conversion of a tree with one image element [i] and
    one annotated element [a], the nodes are the image's, the background and
    the annotation's, and neither element is in the tree. *)
Definition three_nodes_in_order : Prop :=
  forall format_float splitext path_join shutil_copy decode_escaped_string read_lines
         iterate svgroot svg_dir doc pic doc' i a,
    Etree.getparent doc svgroot = None ->
    Etree.xpath_all is_image doc svgroot = [i] ->
    Etree.xpath_all has_textext doc svgroot = [a] ->
    Svg2pdf.convert_svg_to_texpic format_float splitext path_join shutil_copy
      decode_escaped_string read_lines iterate svgroot svg_dir doc = Ok (pic, doc') ->
    exists image_node text_node,
      Svg2pdf.nodes pic = [image_node; Svg2pdf.bgnode; text_node]
      /\ Etree.in_tree doc' svgroot i = false
      /\ Etree.in_tree doc' svgroot a = false.

(** svg2pdf.py: the page's width is the declared width times 72/90. *)
Definition page_is_scaled : Prop :=
  forall format_float splitext path_join shutil_copy decode_escaped_string read_lines
         iterate svgroot svg_dir doc pic doc' w fw,
    Svg2pdf.convert_svg_to_texpic format_float splitext path_join shutil_copy
      decode_escaped_string read_lines iterate svgroot svg_dir doc = Ok (pic, doc') ->
    Etree.attrib_of doc svgroot !! "width" = Some w ->
    float_of_string w = Ok fw ->
    Svg2pdf.width pic = (fw * of_Z 72 / of_Z 90)%Qc.

(** ** Sample documents and a sample run *)

Definition svg_element (name : string) (attrs : list (string * string)) (up : option nat)
  : Element :=
  Etree.mkElement (clark NS_SVG name) (list_to_map attrs) None up.

Definition href_key : string := clark "http://www.w3.org/1999/xlink" "href".

(** The sample document:

    [<svg width=200 height=100>]
      [<g transform="translate(10,20)">]
        [<image width=30 height=40 x=5 y=6 xlink:href="pic.png"/>]
        [<g transform="matrix(0,1,-1,0,7,8)" textext:text="$x$" textext:preamble="pre.tex">]
          [<path/>]
      [<text x=1 y=2> <tspan x=1 y=2/>]
      [<rect/>] *)
Definition sample_doc : list Element :=
  [ svg_element "svg" [("width", "200"); ("height", "100")] None;
    svg_element "g" [("transform", "translate(10,20)")] (Some 0);
    svg_element "image"
      [("width", "30"); ("height", "40"); ("x", "5"); ("y", "6");
       (href_key, "pic.png")] (Some 1);
    svg_element "g"
      [("transform", "matrix(0,1,-1,0,7,8)");
       (clark NS_TEXTEXT "text", "$x$");
       (clark NS_TEXTEXT "preamble", "pre.tex")] (Some 1);
    svg_element "path" [] (Some 3);
    svg_element "text" [("x", "1"); ("y", "2")] (Some 0);
    svg_element "tspan" [("x", "1"); ("y", "2")] (Some 5);
    svg_element "rect" [] (Some 0) ].

Definition image_doc (attrs : list (string * string)) : list Element :=
  [ svg_element "svg" [("width", "200"); ("height", "100")] None;
    svg_element "image" attrs (Some 0) ].

Definition image_without_position : list Element :=
  image_doc [("width", "30"); ("height", "40"); (href_key, "pic.png")].

Definition image_without_width : list Element :=
  image_doc [("height", "40"); ("x", "5"); ("y", "6"); (href_key, "pic.png")].

Definition sample_format (x : float) : string := "?".
Definition sample_splitext (path : string) : string * string := (path, ".png").
Definition sample_join (a b : string) : string := (a ++ "/" ++ b)%string.
Definition sample_copy (src dst : string) : result unit := Ok tt.
Definition sample_decode (text : string) : result string := Ok text.
Definition sample_read (path : string) : result (list string) := Ok ["% preamble"].
Definition sample_iterate (files : gset string) : list string := elements files.

Definition sample_convert (doc : list Element) : result (Svg2pdf.TeXPicture * list Element) :=
  Svg2pdf.convert_svg_to_texpic sample_format sample_splitext sample_join sample_copy
    sample_decode sample_read sample_iterate 0 "dir" doc.

Definition sample_result : result (Svg2pdf.TeXPicture * list Element) :=
  Eval vm_compute in sample_convert sample_doc.

Definition sample_page : Svg2pdf.TeXPicture := Svg2pdf.mkPicture (of_Z 200) (of_Z 100) [] "".

Definition sample_text_result : result (Svg2pdf.TeXPicture * list Element) :=
  Eval vm_compute in
    Svg2pdf.extract_text_to_texpic sample_decode sample_read sample_iterate 0
      (sample_page, sample_doc).

(** ** The parts of a number *)

(** The parts of the text that [RX_LENGTH] takes for the number: a sign, the
    digits before the point, the point with the digits after it, the
    exponent. *)
Definition sign_shape (sg : list ascii) : Prop :=
  sg = [] \/ sg = ["+"%char] \/ sg = ["-"%char].

Definition digits (ds : list ascii) : Prop := Forall (fun c => is_digit c = true) ds.

Definition fraction_shape (frac : list ascii) : Prop :=
  frac = [] \/ exists more, frac = "."%char :: more /\ digits more.

Definition exponent_shape (ex : list ascii) : Prop :=
  ex = [] \/ exists c sg d ds,
               ex = c :: sg ++ d :: ds /\ is_e c = true /\ sign_shape sg /\ digits (d :: ds).

(** A rest at which a run of digits ends. *)
Definition stops (rest : list ascii) : Prop :=
  match rest with
  | [] => True
  | c :: _ => is_digit c = false /\ Ascii.eqb c "_" = false
  end.

(** The units that [UNIT_SCALE_TO_USER_UNITS] has a scale for. *)
Definition known_units : list string := ["px"; "in"; "cm"; "mm"; "pt"; "pc"].

(** ** Style declarations *)

(** One step of the loop that fills the style dict. *)
Definition declare (st : gmap string string) (p : list ascii * bool * list ascii)
  : gmap string string :=
  let '(key, _, value) := p in
  <[ string_of_list_ascii (strip_chars key) := string_of_list_ascii (strip_chars value) ]> st.

(** The list [parts] of the two functions that split a style. *)
Definition declarations (style : string) : list (list ascii * bool * list ascii) :=
  map (fun x => partition_chars ":" (list_ascii_of_string x))
      (List.filter (fun x => negb (String.eqb x "")) (map strip (split_on ";" style))).

(** A text that does not start with white space. *)
Definition starts_plain (l : list ascii) : Prop :=
  match l with [] => True | c :: _ => is_space c = false end.

(** ** Nodes and labels *)

(** The node of the image element [el]: its size in inches and its file. *)
Definition image_file (format_float : float -> string)
    (splitext : string -> string * string) (path_join : string -> string -> string)
    (shutil_copy : string -> string -> result unit) (svg_dir : string)
    (doc : list Element) (el : nat) (node : Svg2pdf.TeXPictureElement) : Prop :=
  exists w h wv hv path,
    Etree.attrib_of doc el !! "width" = Some w
    /\ Svg2pdf.svg_parse_length w = Ok wv
    /\ Etree.attrib_of doc el !! "height" = Some h
    /\ Svg2pdf.svg_parse_length h = Ok hv
    /\ Etree.attrib_of doc el !! href_key = Some path
    /\ shutil_copy (path_join svg_dir path) ("image1" ++ snd (splitext path))%string = Ok tt
    /\ Svg2pdf.texcode node
       = ("\includegraphics[width=" ++ format_float (wv / of_Z 90)%Qc
          ++ "in,height=" ++ format_float (hv / of_Z 90)%Qc
          ++ "in]{image1" ++ snd (splitext path) ++ "}")%string.

Definition preamble_key : string := clark NS_TEXTEXT "preamble".

(** [f] is the decoded [textext:preamble] attribute of an element of [l]. *)
Definition preamble_of (decode_escaped_string : string -> result string)
    (doc : list Element) (l : list nat) (f : string) : Prop :=
  exists el raw,
    In el l
    /\ Etree.attrib_of doc el !! preamble_key = Some raw
    /\ decode_escaped_string raw = Ok f.

(** The label of the [tspan] element on a page of the given height. *)
Definition label_of (doc : list Element) (page_height : float) (tspan : nat)
    (label : Svg2latex.TeXLabel) : Prop :=
  exists xf sx sy x y,
    Svg2latex.compute_svg_transform doc tspan = Ok xf
    /\ Etree.attrib_of doc tspan !! "x" = Some sx
    /\ float_of_string sx = Ok x
    /\ Etree.attrib_of doc tspan !! "y" = Some sy
    /\ float_of_string sy = Ok y
    /\ label
       = Svg2latex.new_label
           (fst (Affine.applyTo xf x y), (page_height - snd (Affine.applyTo xf x y))%Qc)
           (Etree.text_of doc tspan).

(** What a loop adds to the labels of a page, the rest of the page kept. *)
Definition labelled (texDoc texDoc' : Svg2latex.TeXPicture) (new : list Svg2latex.TeXLabel)
  : Prop :=
  Svg2latex.labels texDoc' = Svg2latex.labels texDoc ++ new
  /\ Svg2latex.height texDoc' = Svg2latex.height texDoc
  /\ Svg2latex.backgroundGraphic texDoc' = Svg2latex.backgroundGraphic texDoc.

(** ** More sample documents *)

(** A root element that carries an annotation. *)
Definition annotated_root : list Element :=
  [ svg_element "svg"
      [("width", "200"); ("height", "100"); (clark NS_TEXTEXT "text", "$x$");
       (clark NS_TEXTEXT "preamble", "pre.tex")] None ].

Definition two_images : list Element :=
  [ svg_element "svg" [("width", "200"); ("height", "100")] None;
    svg_element "image" [("width", "30"); ("height", "40"); (href_key, "a.png")] (Some 0);
    svg_element "image" [("width", "50"); ("height", "60"); (href_key, "b.png")] (Some 0) ].

(** A file name split at its first point. *)
Definition splitext_at_dot (path : string) : string * string :=
  match index 0 "." path with
  | Some n => (substring 0 n path, substring n (String.length path - n) path)
  | None => (path, "")
  end.

(** An annotated element inside the image element:

    [<svg width=200 height=100>]
      [<image width=30 height=40 x=5 y=6 xlink:href="pic.png">]
        [<g textext:text="$x$" textext:preamble="pre.tex"/>] *)
Definition annotation_in_image : list Element :=
  [ svg_element "svg" [("width", "200"); ("height", "100")] None;
    svg_element "image"
      [("width", "30"); ("height", "40"); ("x", "5"); ("y", "6");
       (href_key, "pic.png")] (Some 0);
    svg_element "g"
      [(clark NS_TEXTEXT "text", "$x$");
       (clark NS_TEXTEXT "preamble", "pre.tex")] (Some 1) ].

(** An annotated element inside a plain [text] element, next to an image. *)
Definition annotation_in_text : list Element :=
  [ svg_element "svg" [("width", "200"); ("height", "100")] None;
    svg_element "image"
      [("width", "30"); ("height", "40"); ("x", "5"); ("y", "6");
       (href_key, "pic.png")] (Some 0);
    svg_element "text" [("x", "1"); ("y", "2")] (Some 0);
    svg_element "tspan"
      [(clark NS_TEXTEXT "text", "$x$");
       (clark NS_TEXTEXT "preamble", "pre.tex")] (Some 2) ].

(** ** The class over the numbers of the machine *)

(** The class of [Affine] is [AffineOver] at the exact sum and product. *)
Definition over_Qc (s : AffineTransform) : AffineOver.AffineTransform float :=
  AffineOver.mk (Affine.t s) (Affine.m s).

Module Binary64.

Import PrimFloat.
#[local] Set Warnings "-inexact-float".

(** binary64, the arithmetic of Python's [float]: every sum and every
    product is rounded to the nearest number of 53 bits. *)
Definition binary64 : Type := PrimFloat.float.

Definition applyTo : AffineOver.AffineTransform binary64 -> binary64 -> binary64
                     -> binary64 * binary64 :=
  AffineOver.applyTo PrimFloat.add PrimFloat.mul.

Definition applyTo_point : AffineOver.AffineTransform binary64 -> binary64 * binary64
                           -> binary64 * binary64 :=
  AffineOver.applyTo_point PrimFloat.add PrimFloat.mul.

Definition __mul__ : AffineOver.AffineTransform binary64 -> AffineOver.AffineTransform binary64
                     -> AffineOver.AffineTransform binary64 :=
  AffineOver.__mul__ PrimFloat.add PrimFloat.mul.

(** [(A*B).apply(p) = A.apply(B.apply(p))], for the numbers of the program. *)
Definition composition_law : Prop :=
  forall (A B : AffineOver.AffineTransform binary64) (p : binary64 * binary64),
    applyTo_point (__mul__ A B) p = applyTo_point A (applyTo_point B p).

(** The translation by [(tx, 0)], as [AffineTransform().translate(tx, 0)]
    leaves it. *)
Definition shift (tx : binary64) : AffineOver.AffineTransform binary64 :=
  AffineOver.mk (tx, 0)%float (1, 0, 0, 1)%float.

Definition shift_by_a_tenth : AffineOver.AffineTransform binary64 := shift 0.1%float.
Definition shift_by_two_tenths : AffineOver.AffineTransform binary64 := shift 0.2%float.
Definition three_tenths : binary64 * binary64 := (0.3, 0)%float.

(** What Python prints for the two sides at these three. *)
Definition product_applied : binary64 * binary64 := (0.6000000000000001, 0)%float.
Definition applied_in_turn : binary64 * binary64 := (0.6, 0)%float.

End Binary64.

(** ** Rounded arithmetic on rationals

    The standard model of floating-point arithmetic: the sum and the product
    that the machine computes are the exact ones rounded, with a relative
    error of [u] at most ([u] is 2^-53 for binary64, as long as nothing
    overflows or underflows). *)

Definition rounded (rnd : Q -> Q) (op : Q -> Q -> Q) (a b : Q) : Q := rnd (op a b).

(** [(1 + u)^k], the factor by which [k] roundings in a row can change a
    number. *)
Fixpoint growth (u : Q) (k : nat) : Q :=
  match k with
  | O => 1
  | S k' => (1 + u) * growth u k'
  end.

(** [v] was computed for the exact value [e] through [k] roundings in a row
    at most, from numbers whose sizes add and multiply to [size]. *)
Definition approximates (u : Q) (k : nat) (e size v : Q) : Prop :=
  (Qabs (v - e) <= (growth u k - 1) * size /\ Qabs e <= size)%Q.

(** The sizes of the numbers that make up the two coordinates of
    [(A*B).apply(x, y)]: the coordinates themselves, with every number
    replaced by its absolute value. *)
Definition size_x (A B : AffineOver.AffineTransform Q) (x y : Q) : Q :=
  let '(a11, a21, a12, a22) := AffineOver.m A in
  let '(a13, a23) := AffineOver.t A in
  let '(b11, b21, b12, b22) := AffineOver.m B in
  let '(b13, b23) := AffineOver.t B in
  (Qabs a13
   + Qabs a11 * (Qabs b13 + Qabs b11 * Qabs x + Qabs b12 * Qabs y)
   + Qabs a12 * (Qabs b23 + Qabs b21 * Qabs x + Qabs b22 * Qabs y))%Q.

Definition size_y (A B : AffineOver.AffineTransform Q) (x y : Q) : Q :=
  let '(a11, a21, a12, a22) := AffineOver.m A in
  let '(a13, a23) := AffineOver.t A in
  let '(b11, b21, b12, b22) := AffineOver.m B in
  let '(b13, b23) := AffineOver.t B in
  (Qabs a23
   + Qabs a21 * (Qabs b13 + Qabs b11 * Qabs x + Qabs b12 * Qabs y)
   + Qabs a22 * (Qabs b23 + Qabs b21 * Qabs x + Qabs b22 * Qabs y))%Q.

(** The unit roundoff of binary64, and a rounding within it: every number a
    little further from zero. *)
Definition unit_roundoff : Q := 1 # 9007199254740992.

Definition always_up (x : Q) : Q := (x * (1 + unit_roundoff))%Q.

(** * Properties *)

(** ** The composition law *)

(** In exact arithmetic, for all transforms [A], [B] and every point [p],
    [(A*B).apply(p) = A.apply(B.apply(p))]: the product applies [B] first and
    [A] second, translation parts included. *)
Lemma mul_applyTo_compose :
  forall (A B : AffineTransform) (p : float * float),
    Affine.applyTo_point (A @* B) p = Affine.applyTo_point A (Affine.applyTo_point B p).
Proof.
  intros [[a13 a23] [[[a11 a21] a12] a22]] [[b13 b23] [[[b11 b21] b12] b22]] [x y].
  unfold Affine.applyTo_point, Affine.applyTo, Affine.__mul__; simpl.
  f_equal; ring.
Qed.

(** [AffineOver] at the exact sum and product is the class of [Affine]. *)
Lemma applyTo_over_Qc (s : AffineTransform) (x y : float) :
  AffineOver.applyTo Qcplus Qcmult (over_Qc s) x y = Affine.applyTo s x y.
Proof. destruct s as [[e f] [[[a b] c] d]]. reflexivity. Qed.

Lemma mul_over_Qc (a b : AffineTransform) :
  AffineOver.__mul__ Qcplus Qcmult (over_Qc a) (over_Qc b) = over_Qc (a @* b).
Proof.
  destruct a as [[a13 a23] [[[a11 a21] a12] a22]], b as [[b13 b23] [[[b11 b21] b12] b22]].
  reflexivity.
Qed.

(** With binary64 numbers, the translations by (0.1, 0) and (0.2, 0) and the
    point (0.3, 0): the product sends the point to 0.6000000000000001, the
    two maps in turn send it to 0.6. *)
Example two_sides_in_binary64 :
  Binary64.applyTo_point
    (Binary64.__mul__ Binary64.shift_by_a_tenth Binary64.shift_by_two_tenths)
    Binary64.three_tenths
  = Binary64.product_applied
  /\ Binary64.applyTo_point Binary64.shift_by_a_tenth
       (Binary64.applyTo_point Binary64.shift_by_two_tenths Binary64.three_tenths)
     = Binary64.applied_in_turn.
Proof. split; vm_compute; reflexivity. Qed.

(** C7 as it is worded fails for the numbers of the program. *)
Lemma composition_law_fails_in_binary64 : ~ Binary64.composition_law.
Proof.
  intros H.
  specialize (H Binary64.shift_by_a_tenth Binary64.shift_by_two_tenths
                Binary64.three_tenths).
  destruct two_sides_in_binary64 as [Hl Hr]. rewrite Hl, Hr in H.
  apply (f_equal (fun p => PrimFloat.eqb (fst p) (fst Binary64.applied_in_turn))) in H.
  vm_compute in H. discriminate H.
Qed.

(** *** Rounding *)

Section Rounding.

Local Open Scope Q_scope.

Variable u : Q.
Variable rnd : Q -> Q.
Hypothesis rnd_ok : forall x, Qabs (rnd x - x) <= u * Qabs x.

Let add := rounded rnd Qplus.
Let mul := rounded rnd Qmult.

Lemma unit_roundoff_nonneg : 0 <= u.
Proof.
  pose proof (rnd_ok 1) as H. pose proof (Qabs_nonneg (rnd 1 - 1)) as H0.
  change (Qabs 1) with 1 in H. lra.
Qed.

Lemma growth_ge_1 (k : nat) : 1 <= growth u k.
Proof.
  pose proof unit_roundoff_nonneg.
  induction k as [| k IH]; cbn [growth]; [lra | nra].
Qed.

Lemma growth_le (j k : nat) : (j <= k)%nat -> growth u j <= growth u k.
Proof.
  pose proof unit_roundoff_nonneg.
  induction 1 as [| k _ IH]; [lra |].
  pose proof (growth_ge_1 k). cbn [growth]. nra.
Qed.

Lemma growth_add (j k : nat) : growth u (j + k) == growth u j * growth u k.
Proof. induction j as [| j IH]; cbn [growth Nat.add]; [ring | rewrite IH; ring]. Qed.

Lemma approximates_exact (v : Q) : approximates u 0 v (Qabs v) v.
Proof.
  unfold approximates. cbn [growth]. split; [| lra].
  assert (E : v - v == 0) by ring. rewrite E. change (Qabs 0) with 0. lra.
Qed.

Lemma approximates_size (k : nat) (e size v : Q) : approximates u k e size v -> 0 <= size.
Proof. intros [_ H]. pose proof (Qabs_nonneg e). lra. Qed.

Lemma approximates_more (j k : nat) (e size v : Q) :
  (j <= k)%nat -> approximates u j e size v -> approximates u k e size v.
Proof.
  intros Hjk H. pose proof (approximates_size _ _ _ _ H) as Hs.
  destruct H as [H He]. split; [| exact He].
  pose proof (growth_le j k Hjk). nra.
Qed.

Lemma approximates_proper (k : nat) (e e' size size' v : Q) :
  e == e' -> size == size' -> approximates u k e size v -> approximates u k e' size' v.
Proof. unfold approximates. intros -> ->. exact id. Qed.

Lemma approximates_add (k : nat) (e1 s1 v1 e2 s2 v2 : Q) :
  approximates u k e1 s1 v1 -> approximates u k e2 s2 v2 ->
  approximates u (S k) (e1 + e2) (s1 + s2) (add v1 v2).
Proof.
  unfold approximates, add, rounded. intros [H1 M1] [H2 M2].
  pose proof (rnd_ok (v1 + v2)) as Hr. pose proof (growth_ge_1 k) as Hg.
  pose proof unit_roundoff_nonneg as Hu.
  revert Hr. generalize (rnd (v1 + v2)). intros r Hr.
  cbn [growth]. revert Hg H1 H2. generalize (growth u k). intros g Hg H1 H2.
  apply Qabs_Qle_condition in H1, M1, H2, M2.
  assert (Ha : Qabs (v1 + v2) <= g * (s1 + s2)).
  { apply Qabs_Qle_condition. split; nra. }
  assert (Hr' : Qabs (r - (v1 + v2)) <= u * (g * (s1 + s2))) by nra.
  apply Qabs_Qle_condition in Hr'.
  split; apply Qabs_Qle_condition; split; nra.
Qed.

Lemma approximates_mul (j k : nat) (e1 s1 v1 e2 s2 v2 : Q) :
  approximates u j e1 s1 v1 -> approximates u k e2 s2 v2 ->
  approximates u (S (j + k)) (e1 * e2) (s1 * s2) (mul v1 v2).
Proof.
  unfold approximates, mul, rounded. intros [H1 M1] [H2 M2].
  pose proof (rnd_ok (v1 * v2)) as Hr.
  pose proof (growth_ge_1 j) as Hg. pose proof (growth_ge_1 k) as Hh.
  pose proof unit_roundoff_nonneg as Hu.
  revert Hr. generalize (rnd (v1 * v2)). intros r Hr.
  cbn [growth]. rewrite growth_add.
  revert Hg H1. generalize (growth u j). intros g Hg H1.
  revert Hh H2. generalize (growth u k). intros h Hh H2.
  assert (S1 : 0 <= s1) by (pose proof (Qabs_nonneg e1); lra).
  assert (S2 : 0 <= s2) by (pose proof (Qabs_nonneg e2); lra).
  (* the sizes of the parts *)
  assert (V1 : Qabs v1 <= g * s1).
  { assert (E : v1 == (v1 - e1) + e1) by ring. rewrite E.
    eapply Qle_trans; [apply Qabs_triangle |]. nra. }
  assert (D : Qabs (v1 * v2 - e1 * e2) <= (g * h - 1) * (s1 * s2)).
  { assert (E : v1 * v2 - e1 * e2 == v1 * (v2 - e2) + (v1 - e1) * e2) by ring. rewrite E.
    eapply Qle_trans; [apply Qabs_triangle |]. rewrite !Qabs_Qmult.
    pose proof (Qabs_nonneg v1). pose proof (Qabs_nonneg (v2 - e2)).
    pose proof (Qabs_nonneg (v1 - e1)). pose proof (Qabs_nonneg e2).
    assert (Qabs v1 * Qabs (v2 - e2) <= (g * s1) * ((h - 1) * s2)) by nra.
    assert (Qabs (v1 - e1) * Qabs e2 <= ((g - 1) * s1) * s2) by nra.
    nra. }
  assert (P : Qabs (e1 * e2) <= s1 * s2).
  { rewrite Qabs_Qmult. pose proof (Qabs_nonneg e1). pose proof (Qabs_nonneg e2). nra. }
  assert (V : Qabs (v1 * v2) <= (g * h) * (s1 * s2)).
  { assert (E : v1 * v2 == (v1 * v2 - e1 * e2) + e1 * e2) by ring. rewrite E.
    eapply Qle_trans; [apply Qabs_triangle |]. nra. }
  split; [| exact P].
  assert (E : r - e1 * e2 == (r - v1 * v2) + (v1 * v2 - e1 * e2)) by ring. rewrite E.
  eapply Qle_trans; [apply Qabs_triangle |].
  assert (0 <= s1 * s2) by nra. assert (1 <= g * h) by nra.
  nra.
Qed.

(** A product of two given numbers, and a sum of three terms of the shape
    that [applyTo] and [__mul__] compute. *)
Lemma approximates_product (a b : Q) :
  approximates u 1 (a * b) (Qabs a * Qabs b) (mul a b).
Proof. apply (approximates_mul 0 0); apply approximates_exact. Qed.

Lemma two_ways_apart (j k : nat) (e e' size size' v v' : Q) :
  (j <= k)%nat ->
  approximates u j e size v -> approximates u k e' size' v' ->
  e == e' -> size == size' ->
  Qabs (v - v') <= 2 * (growth u k - 1) * size'.
Proof.
  intros Hjk H H' Ee Es.
  apply (approximates_more j k) in H; [| exact Hjk].
  apply (approximates_proper _ _ _ _ _ _ Ee Es) in H.
  destruct H as [H _], H' as [H' _].
  assert (E : v - v' == (v - e') - (v' - e')) by ring. rewrite E.
  apply Qabs_Qle_condition in H, H'. apply Qabs_Qle_condition. split; lra.
Qed.

(** The two computations of C7, both within a few roundings of the exact
    value. *)
Lemma product_then_apply (A B : AffineOver.AffineTransform Q) (x y : Q) :
  let '(a11, a21, a12, a22) := AffineOver.m A in
  let '(a13, a23) := AffineOver.t A in
  let '(b11, b21, b12, b22) := AffineOver.m B in
  let '(b13, b23) := AffineOver.t B in
  let p := AffineOver.applyTo add mul (AffineOver.__mul__ add mul A B) x y in
  approximates u 5
    (a11 * b13 + a12 * b23 + a13 + (a11 * b11 + a12 * b21) * x + (a11 * b12 + a12 * b22) * y)
    (Qabs a11 * Qabs b13 + Qabs a12 * Qabs b23 + Qabs a13
     + (Qabs a11 * Qabs b11 + Qabs a12 * Qabs b21) * Qabs x
     + (Qabs a11 * Qabs b12 + Qabs a12 * Qabs b22) * Qabs y)
    (fst p)
  /\ approximates u 5
       (a21 * b13 + a22 * b23 + a23 + (a21 * b11 + a22 * b21) * x + (a21 * b12 + a22 * b22) * y)
       (Qabs a21 * Qabs b13 + Qabs a22 * Qabs b23 + Qabs a23
        + (Qabs a21 * Qabs b11 + Qabs a22 * Qabs b21) * Qabs x
        + (Qabs a21 * Qabs b12 + Qabs a22 * Qabs b22) * Qabs y)
       (snd p).
Proof.
  destruct A as [[a13 a23] [[[a11 a21] a12] a22]], B as [[b13 b23] [[[b11 b21] b12] b22]].
  cbn [AffineOver.m AffineOver.t AffineOver.applyTo AffineOver.__mul__ fst snd].
  assert (term : forall p q v w z,
             approximates u 3 ((p * v + q * w) * z)
               ((Qabs p * Qabs v + Qabs q * Qabs w) * Qabs z)
               (mul (add (mul p v) (mul q w)) z)).
  { intros p q v w z. apply (approximates_mul 2 0); [| apply approximates_exact].
    apply approximates_add; apply approximates_product. }
  assert (shift : forall p q r s t,
             approximates u 3 (p * s + q * t + r)
               (Qabs p * Qabs s + Qabs q * Qabs t + Qabs r)
               (add (add (mul p s) (mul q t)) r)).
  { intros p q r s t. apply approximates_add.
    - apply approximates_add; apply approximates_product.
    - apply (approximates_more 0); [lia | apply approximates_exact]. }
  split.
  - apply approximates_add.
    + apply approximates_add; [apply shift | apply term].
    + apply (approximates_more 3); [lia | apply term].
  - apply approximates_add.
    + apply approximates_add; [apply shift | apply term].
    + apply (approximates_more 3); [lia | apply term].
Qed.

Lemma apply_then_apply (A B : AffineOver.AffineTransform Q) (x y : Q) :
  let '(a11, a21, a12, a22) := AffineOver.m A in
  let '(a13, a23) := AffineOver.t A in
  let '(b11, b21, b12, b22) := AffineOver.m B in
  let '(b13, b23) := AffineOver.t B in
  let p := AffineOver.applyTo_point add mul A (AffineOver.applyTo add mul B x y) in
  approximates u 6
    (a13 + a11 * (b13 + b11 * x + b12 * y) + a12 * (b23 + b21 * x + b22 * y))
    (Qabs a13 + Qabs a11 * (Qabs b13 + Qabs b11 * Qabs x + Qabs b12 * Qabs y)
     + Qabs a12 * (Qabs b23 + Qabs b21 * Qabs x + Qabs b22 * Qabs y))
    (fst p)
  /\ approximates u 6
       (a23 + a21 * (b13 + b11 * x + b12 * y) + a22 * (b23 + b21 * x + b22 * y))
       (Qabs a23 + Qabs a21 * (Qabs b13 + Qabs b11 * Qabs x + Qabs b12 * Qabs y)
        + Qabs a22 * (Qabs b23 + Qabs b21 * Qabs x + Qabs b22 * Qabs y))
       (snd p).
Proof.
  destruct A as [[a13 a23] [[[a11 a21] a12] a22]], B as [[b13 b23] [[[b11 b21] b12] b22]].
  cbn [AffineOver.m AffineOver.t AffineOver.applyTo AffineOver.applyTo_point fst snd].
  assert (inner : forall r v w,
             approximates u 3 (r + v * x + w * y)
               (Qabs r + Qabs v * Qabs x + Qabs w * Qabs y)
               (add (add r (mul v x)) (mul w y))).
  { intros r v w. apply approximates_add.
    - apply approximates_add.
      + apply (approximates_more 0); [lia | apply approximates_exact].
      + apply approximates_product.
    - apply (approximates_more 1); [lia | apply approximates_product]. }
  assert (outer : forall r p q,
             approximates u 6
               (r + p * (b13 + b11 * x + b12 * y) + q * (b23 + b21 * x + b22 * y))
               (Qabs r + Qabs p * (Qabs b13 + Qabs b11 * Qabs x + Qabs b12 * Qabs y)
                + Qabs q * (Qabs b23 + Qabs b21 * Qabs x + Qabs b22 * Qabs y))
               (add (add r (mul p (add (add b13 (mul b11 x)) (mul b12 y))))
                  (mul q (add (add b23 (mul b21 x)) (mul b22 y))))).
  { intros r p q. apply approximates_add.
    - apply approximates_add.
      + apply (approximates_more 0); [lia | apply approximates_exact].
      + apply (approximates_more 4); [lia |].
        apply (approximates_mul 0 3); [apply approximates_exact | apply inner].
    - apply (approximates_more 4); [lia |].
      apply (approximates_mul 0 3); [apply approximates_exact | apply inner]. }
  split; apply outer.
Qed.

(** The two computations are within two times six roundings of each other. *)
Lemma product_rounds (A B : AffineOver.AffineTransform Q) (x y : Q) :
  let lhs := AffineOver.applyTo add mul (AffineOver.__mul__ add mul A B) x y in
  let rhs := AffineOver.applyTo_point add mul A (AffineOver.applyTo add mul B x y) in
  Qabs (fst lhs - fst rhs) <= 2 * ((1 + u) ^ 6 - 1) * size_x A B x y
  /\ Qabs (snd lhs - snd rhs) <= 2 * ((1 + u) ^ 6 - 1) * size_y A B x y.
Proof.
  pose proof (product_then_apply A B x y) as Hl.
  pose proof (apply_then_apply A B x y) as Hr.
  assert (Eg : (1 + u) ^ 6 == growth u 6) by (cbn [growth]; ring).
  unfold size_x, size_y.
  destruct A as [[a13 a23] [[[a11 a21] a12] a22]], B as [[b13 b23] [[[b11 b21] b12] b22]].
  cbn [AffineOver.m AffineOver.t] in Hl, Hr |- *.
  destruct Hl as [Hl1 Hl2], Hr as [Hr1 Hr2]. cbv zeta.
  rewrite Eg. split.
  - apply (two_ways_apart 5 6 _ _ _ _ _ _ ltac:(lia) Hl1 Hr1); ring.
  - apply (two_ways_apart 5 6 _ _ _ _ _ _ ltac:(lia) Hl2 Hr2); ring.
Qed.

End Rounding.

(** C7.  In exact arithmetic [(A*B).apply(p) = A.apply(B.apply(p))] for all
    transforms [A], [B] and every point [p].  In an arithmetic that rounds
    every sum and every product with a relative error of [u] at most
    (binary64 with [u] = 2^-53, as long as no operation overflows or
    underflows) each coordinate of the two sides differs by at most
    [2 ((1+u)^6 - 1)] times the size of the exact coordinate's terms. *)
Theorem mul_applyTo_compose_up_to_rounding :
  (forall (A B : AffineTransform) (p : float * float),
      Affine.applyTo_point (A @* B) p
      = Affine.applyTo_point A (Affine.applyTo_point B p))
  /\ (forall (u : Q) (rnd : Q -> Q),
         (forall x, Qabs (rnd x - x) <= u * Qabs x)%Q ->
         forall (A B : AffineOver.AffineTransform Q) (x y : Q),
           let add := rounded rnd Qplus in
           let mul := rounded rnd Qmult in
           let lhs := AffineOver.applyTo add mul (AffineOver.__mul__ add mul A B) x y in
           let rhs :=
             AffineOver.applyTo_point add mul A (AffineOver.applyTo add mul B x y) in
           (Qabs (fst lhs - fst rhs) <= 2 * ((1 + u) ^ 6 - 1) * size_x A B x y
            /\ Qabs (snd lhs - snd rhs) <= 2 * ((1 + u) ^ 6 - 1) * size_y A B x y)%Q).
Proof.
  split; [exact mul_applyTo_compose |].
  intros u rnd Hrnd A B x y. exact (product_rounds u rnd Hrnd A B x y).
Qed.

Lemma always_up_rounds (x : Q) :
  (Qabs (always_up x - x) <= unit_roundoff * Qabs x)%Q.
Proof.
  unfold always_up.
  assert (E : (x * (1 + unit_roundoff) - x == unit_roundoff * x)%Q) by ring.
  rewrite E, Qabs_Qmult. apply Qle_refl.
Qed.

Lemma mul_applyTo_compose_up_to_rounding_witness :
  let A := AffineOver.mk (1 # 10, 0)%Q (1, 0, 0, 1)%Q in
  let B := AffineOver.mk (2 # 10, 0)%Q (1, 0, 0, 1)%Q in
  let add := rounded always_up Qplus in
  let mul := rounded always_up Qmult in
  let lhs := AffineOver.applyTo add mul (AffineOver.__mul__ add mul A B) (3 # 10)%Q 0%Q in
  let rhs :=
    AffineOver.applyTo_point add mul A (AffineOver.applyTo add mul B (3 # 10)%Q 0%Q) in
  (Qabs (fst lhs - fst rhs) <= 2 * ((1 + unit_roundoff) ^ 6 - 1) * size_x A B (3 # 10) 0
   /\ Qabs (snd lhs - snd rhs) <= 2 * ((1 + unit_roundoff) ^ 6 - 1) * size_y A B (3 # 10) 0)%Q.
Proof.
  pose proof mul_applyTo_compose_up_to_rounding as [_ H].
  intros A B add mul lhs rhs.
  exact (H unit_roundoff always_up always_up_rounds A B (3 # 10)%Q 0%Q).
Defined.

(** ** Deciding equalities *)

Lemma feqb_eq (a b : float) : feqb a b = true -> a = b.
Proof.
  unfold feqb. intros H. apply Qc_is_canon. now apply Qeq_bool_iff.
Qed.

Lemma feqb_neq (a b : float) : feqb a b = false -> a <> b.
Proof.
  unfold feqb. intros H E. subst b.
  assert (Qeq_bool (this a) (this a) = true) by (apply Qeq_bool_iff; reflexivity).
  congruence.
Qed.

Lemma pair_eqb_eq (p q : float * float) : pair_eqb p q = true -> p = q.
Proof.
  destruct p, q. unfold pair_eqb. simpl. intros H.
  apply andb_prop in H as [H1 H2]. f_equal; now apply feqb_eq.
Qed.

Lemma pair_eqb_neq (p q : float * float) : pair_eqb p q = false -> p <> q.
Proof.
  destruct p as [a b], q as [c d]. unfold pair_eqb. simpl. intros H E.
  injection E as -> ->.
  apply andb_false_iff in H as [H | H]; now apply feqb_neq in H.
Qed.

Lemma affine_eqb_eq (a b : AffineTransform) : affine_eqb a b = true -> a = b.
Proof.
  destruct a as [[ta ta'] [[[a0 a1] a2] a3]], b as [[tb tb'] [[[b0 b1] b2] b3]].
  unfold affine_eqb, pair_eqb. simpl. intros H.
  repeat (apply andb_prop in H as [H ?]).
  apply feqb_eq in H.
  repeat match goal with E : feqb _ _ = true |- _ => apply feqb_eq in E end.
  now subst.
Qed.

Lemma Ok_inj {A : Type} (a b : A) : Ok a = Ok b -> a = b.
Proof. intros E. now inversion E. Qed.

Lemma is_ok_float (r : result float) (v : float) : is_ok_with feqb r v = true -> r = Ok v.
Proof. destruct r; simpl; [intros H; f_equal; now apply feqb_eq | discriminate]. Qed.

Lemma is_ok_affine (r : result AffineTransform) (v : AffineTransform) :
  is_ok_with affine_eqb r v = true -> r = Ok v.
Proof. destruct r; simpl; [intros H; f_equal; now apply affine_eqb_eq | discriminate]. Qed.

Ltac eval_float := apply is_ok_float; vm_compute; reflexivity.
Ltac eval_affine := apply is_ok_affine; vm_compute; reflexivity.
Ltac eval_pair := apply pair_eqb_eq; vm_compute; reflexivity.

(** ** Lengths *)

(** With a unit the result is the table's entry, whatever the number is. *)
Lemma svg_parse_length_with_unit (text value u : string) (raw scale : float) :
  Svg2pdf.RX_LENGTH_match text = Some (value, Some u) ->
  float_of_string value = Ok raw ->
  Svg2pdf.UNIT_SCALE_TO_USER_UNITS !! u = Some scale ->
  Svg2pdf.svg_parse_length text = Ok scale.
Proof.
  intros Hm Hf Hu. unfold Svg2pdf.svg_parse_length.
  rewrite Hm, Hf. simpl. now rewrite Hu.
Qed.

(** Without a unit the result is the number. *)
Lemma svg_parse_length_without_unit (text value : string) (raw : float) :
  Svg2pdf.RX_LENGTH_match text = Some (value, None) ->
  float_of_string value = Ok raw ->
  Svg2pdf.svg_parse_length text = Ok raw.
Proof.
  intros Hm Hf. unfold Svg2pdf.svg_parse_length. now rewrite Hm, Hf.
Qed.

(** C1. [svg_parse_length] (with [apply_unit=True]) at lengths with a unit:
    ["1in"] resolves to 90, but ["2.54cm"] resolves to 90/2.54 = 4500/127, not
    to 90, and ["2in"] resolves to 90, not to 180: the number is not
    multiplied by the unit's scale, the scale alone is returned. *)
Theorem svg_parse_length_returns_scale_alone :
  Svg2pdf.svg_parse_length "1in" = Ok (of_Z 90)
  /\ Svg2pdf.svg_parse_length "2.54cm" = Ok (of_frac 4500 127)
  /\ Svg2pdf.svg_parse_length "2.54cm" <> Ok (of_frac 254 100 * (of_Z 90 / of_frac 254 100))%Qc
  /\ Svg2pdf.svg_parse_length "2in" = Ok (of_Z 90)
  /\ Svg2pdf.svg_parse_length "2in" <> Ok (of_Z 2 * of_Z 90)%Qc.
Proof.
  assert (H1 : Svg2pdf.svg_parse_length "2.54cm" = Ok (of_frac 4500 127)) by eval_float.
  assert (H2 : Svg2pdf.svg_parse_length "2in" = Ok (of_Z 90)) by eval_float.
  split; [eval_float | split; [exact H1 | split; [| split; [exact H2 |]]]].
  - rewrite H1. intros E. apply Ok_inj in E. revert E. apply feqb_neq. vm_compute. reflexivity.
  - rewrite H2. intros E. apply Ok_inj in E. revert E. apply feqb_neq. vm_compute. reflexivity.
Qed.

(** ** The [scale] transform function *)

Lemma matrix_identity (a b c d e f : float) :
  Affine.matrix Affine.identity a b c d e f = Affine.mk (e, f) (a, b, c, d).
Proof.
  unfold Affine.matrix, Affine.identity; simpl. f_equal; repeat f_equal; ring.
Qed.

(** svg2pdf.py: a [scale] call with the arguments [sx] and [sy] parses to the
    map [(x, y) -> (sx*x, sy*y)], and with [sx] alone to [(sx*x, sx*y)]. *)
Lemma svg2pdf_scale (attribute group2 : string) (args : list float) (sx sy : float) :
  Svg2pdf.RX_TRANSFORM attribute = Some ("scale", group2) ->
  rmap (fun x => float_of_string (strip x)) (Svg2pdf.argument_tokens group2) = Ok args ->
  args = [sx; sy] \/ (args = [sx] /\ sy = sx) ->
  exists xf, Svg2pdf.svg_parse_transform attribute = Ok xf
             /\ forall x y, Affine.applyTo xf x y = (sx * x, sy * y)%Qc.
Proof.
  intros Hm Ha Hargs. unfold Svg2pdf.svg_parse_transform. rewrite Hm, Ha. simpl.
  exists (Affine.mk (0, 0)%Qc (sx, 0, 0, sy)%Qc). split.
  - destruct Hargs as [-> | [-> ->]]; unfold build_transform; simpl;
      unfold Affine.scale_svg2pdf; now rewrite matrix_identity.
  - intros x y. unfold Affine.applyTo; simpl. f_equal; ring.
Qed.

(** svg2latex.py: the same call parses to the translation by [(sx, sy)]. *)
Lemma svg2latex_scale (attribute group2 : string) (args : list float) (sx sy : float) :
  Svg2latex.RX_TRANSFORM attribute = Some ("scale", group2) ->
  rmap (fun x => float_of_string (strip x)) (Svg2latex.argument_tokens group2) = Ok args ->
  args = [sx; sy] \/ (args = [sx] /\ sy = sx) ->
  exists xf, Svg2latex.parse_svg_transform attribute = Ok xf
             /\ forall x y, Affine.applyTo xf x y = (sx + x, sy + y)%Qc.
Proof.
  intros Hm Ha Hargs. unfold Svg2latex.parse_svg_transform. rewrite Hm, Ha. simpl.
  exists (Affine.mk (sx, sy) (1, 0, 0, 1)%Qc). split.
  - destruct Hargs as [-> | [-> ->]]; unfold build_transform; simpl;
      unfold Affine.translate; now rewrite matrix_identity.
  - intros x y. unfold Affine.applyTo; simpl. f_equal; ring.
Qed.

Example svg2pdf_scale_2_3 :
  exists xf, Svg2pdf.svg_parse_transform "scale(2,3)" = Ok xf
             /\ Affine.applyTo xf 1 1 = (of_Z 2, of_Z 3).
Proof.
  destruct (svg2pdf_scale "scale(2,3)" "2,3" [of_Z 2; of_Z 3] (of_Z 2) (of_Z 3))
    as (xf & Hp & Hx); [reflexivity | | now left |].
  - vm_compute. reflexivity.
  - exists xf. split; [exact Hp |]. rewrite Hx. eval_pair.
Defined.

(** C2. svg2latex.py's [parse_svg_transform] at ["scale(2,3)"]: the parsed
    transform sends (1,1) to (3,4), the translation by (2,3), and not to
    (2,3); at ["scale(2)"] it sends (1,1) to (3,3), not to (2,2). *)
Theorem svg2latex_scale_is_a_translation :
  (exists xf, Svg2latex.parse_svg_transform "scale(2,3)" = Ok xf
              /\ Affine.applyTo xf 1 1 = (of_Z 3, of_Z 4)
              /\ Affine.applyTo xf 1 1 <> (of_Z 2, of_Z 3))
  /\ (exists xf, Svg2latex.parse_svg_transform "scale(2)" = Ok xf
                 /\ Affine.applyTo xf 1 1 = (of_Z 3, of_Z 3)
                 /\ Affine.applyTo xf 1 1 <> (of_Z 2, of_Z 2)).
Proof.
  split.
  - exists (Affine.mk (of_Z 2, of_Z 3) (1, 0, 0, 1)%Qc).
    split; [eval_affine | split; [eval_pair | apply pair_eqb_neq; vm_compute; reflexivity]].
  - exists (Affine.mk (of_Z 2, of_Z 2) (1, 0, 0, 1)%Qc).
    split; [eval_affine | split; [eval_pair | apply pair_eqb_neq; vm_compute; reflexivity]].
Qed.

Lemma wf_documentb_sound (doc : list Element) :
  wf_documentb doc = true -> Etree.wf_document doc.
Proof.
  unfold wf_documentb, Etree.wf_document. intros H el p Hp.
  rewrite forallb_forall in H.
  assert (Hlt : el < length doc).
  { unfold Etree.getparent in Hp. destruct (doc !! el) eqn:E; [| discriminate].
    now apply lookup_lt_Some in E. }
  specialize (H el). rewrite Hp in H.
  apply Nat.ltb_lt, H, in_seq. lia.
Qed.

Lemma identity_mul (X : AffineTransform) : Affine.identity @* X = X.
Proof.
  destruct X as [[e f] [[[a b] c] d]].
  unfold Affine.__mul__, Affine.identity; simpl. f_equal; repeat f_equal; ring.
Qed.

Lemma last_cons_default {A : Type} (l : list A) :
  forall x d d', List.last (x :: l) d = List.last (x :: l) d'.
Proof.
  induction l as [| y l IH]; intros x d d'; [reflexivity |].
  change (List.last (y :: l) d = List.last (y :: l) d'). apply IH.
Qed.

Lemma path_to_root_cons (n : nat) (doc : list Element) (el : nat) :
  exists l, path_to_root n doc el = el :: l.
Proof. destruct n; simpl; eauto. Qed.

Section WalkerProperties.

Variable parse : string -> result AffineTransform.
Variable doc : list Element.
Hypothesis Hwf : Etree.wf_document doc.

Lemma left_compose_raise (l : list nat) (e : exn) :
  fold_left (left_compose parse doc) l (Raise e) = Raise e.
Proof. induction l as [| a l IH]; simpl; auto. Qed.

Lemma walk_up_fold (n : nat) :
  forall (el : nat) (X : AffineTransform),
    el <= n ->
    walk_up parse (S n) doc (Some el) X
    = fold_left (left_compose parse doc) (path_to_root n doc el) (Ok X).
Proof.
  induction n as [| n IH]; intros el X Hle.
  - assert (Hroot : Etree.getparent doc el = None).
    { destruct (Etree.getparent doc el) as [p |] eqn:E; [| reflexivity].
      apply Hwf in E. lia. }
    simpl. rewrite Hroot. unfold left_compose, own_transform. simpl.
    destruct (Etree.attrib_of doc el !! "transform") as [a |]; simpl.
    + now destruct (parse a).
    + now rewrite identity_mul.
  - cbn [walk_up path_to_root fold_left].
    assert (Hstep :
      match Etree.attrib_of doc el !! "transform" with
      | Some a => let* t := parse a in Ok (t @* X)
      | None => Ok X
      end = left_compose parse doc (Ok X) el).
    { unfold left_compose, own_transform. simpl.
      destruct (Etree.attrib_of doc el !! "transform"); simpl; [reflexivity |].
      now rewrite identity_mul. }
    rewrite Hstep.
    destruct (left_compose parse doc (Ok X) el) as [X' | e]; simpl.
    + destruct (Etree.getparent doc el) as [p |] eqn:E; [| reflexivity].
      apply IH. apply Hwf in E. lia.
    + destruct (Etree.getparent doc el);
        [now rewrite left_compose_raise | reflexivity].
  Qed.

Lemma accumulated_transform_spec (el : nat) :
  accumulated_transform parse doc el = accumulatedTransform parse doc el.
Proof. unfold accumulated_transform, accumulatedTransform. now apply walk_up_fold. Qed.

Lemma path_to_root_reaches_root (n : nat) :
  forall el, el <= n -> Etree.getparent doc (List.last (path_to_root n doc el) el) = None.
Proof.
  induction n as [| n IH]; intros el Hle; simpl.
  - destruct (Etree.getparent doc el) as [p |] eqn:E; [| reflexivity].
    apply Hwf in E. lia.
  - destruct (Etree.getparent doc el) as [p |] eqn:E; [| exact E].
    assert (Hp : p <= n) by (apply Hwf in E; lia).
    specialize (IH p Hp).
    destruct (path_to_root_cons n doc p) as [l Hl]. rewrite Hl in *.
    now rewrite (last_cons_default l p el p).
Qed.

End WalkerProperties.

(** ** The sample document *)

Lemma sample_doc_wf : Etree.wf_document sample_doc.
Proof. apply wf_documentb_sound. reflexivity. Qed.

Lemma applyTo_identity (p : float * float) : Affine.applyTo_point Affine.identity p = p.
Proof.
  destruct p as [x y]. unfold Affine.applyTo_point, Affine.applyTo, Affine.identity; simpl.
  f_equal; ring.
Qed.

(** The parsers raise [ValueError] or [Exception] and nothing else. *)
Lemma rmap_raises {A B : Type} (f : A -> result B) (Q : exn -> Prop) (l : list A) (e : exn) :
  (forall x e', f x = Raise e' -> Q e') -> rmap f l = Raise e -> Q e.
Proof.
  intros Hf. induction l as [| x l IH]; simpl; [discriminate |].
  destruct (f x) as [y | e'] eqn:E; simpl.
  - destruct (rmap f l) as [ys | e'']; simpl; [discriminate |].
    intros H. injection H as <-. now apply IH.
  - intros H. injection H as <-. now apply (Hf x).
Qed.

Lemma build_transform_bounded
    (scale : AffineTransform -> float -> float -> AffineTransform)
    (attribute func : string) (args : list float) :
  build_transform scale attribute func args <> Raise Unbounded.
Proof.
  unfold build_transform.
  destruct (String.eqb func "matrix").
  { destruct args as [| ? [| ? [| ? [| ? [| ? [| ? [| ? ?]]]]]]]; discriminate. }
  destruct (String.eqb func "translate").
  { destruct args as [| ? [| ? [| ? ?]]]; discriminate. }
  destruct (String.eqb func "scale"); [| discriminate].
  destruct args as [| ? [| ? [| ? ?]]]; discriminate.
Qed.

Lemma float_tokens_bounded (tokens : list string) :
  rmap (fun x => float_of_string (strip x)) tokens <> Raise Unbounded.
Proof.
  intros H. apply (rmap_raises _ (fun e => e <> Unbounded)) in H; [congruence |].
  intros x e'. unfold float_of_string.
  destruct (float_literal _); [discriminate |]. intros E. injection E as <-. discriminate.
Qed.

Lemma svg_parse_transform_bounded (attribute : string) :
  Svg2pdf.svg_parse_transform attribute <> Raise Unbounded.
Proof.
  unfold Svg2pdf.svg_parse_transform.
  destruct (Svg2pdf.RX_TRANSFORM attribute) as [[func group2] |]; [| discriminate].
  destruct (rmap _ (Svg2pdf.argument_tokens group2)) as [args | e] eqn:E; simpl.
  - apply build_transform_bounded.
  - intros H. injection H as ->. now apply float_tokens_bounded in E.
Qed.

Lemma parse_svg_transform_bounded (attribute : string) :
  Svg2latex.parse_svg_transform attribute <> Raise Unbounded.
Proof.
  unfold Svg2latex.parse_svg_transform.
  destruct (Svg2latex.RX_TRANSFORM attribute) as [[func group2] |]; [| discriminate].
  destruct (rmap _ (Svg2latex.argument_tokens group2)) as [args | e] eqn:E; simpl.
  - apply build_transform_bounded.
  - intros H. injection H as ->. now apply float_tokens_bounded in E.
Qed.

Lemma fold_left_compose_bounded (parse : string -> result AffineTransform)
    (doc : list Element) (l : list nat) :
  (forall a, parse a <> Raise Unbounded) ->
  forall acc, acc <> Raise Unbounded ->
              fold_left (left_compose parse doc) l acc <> Raise Unbounded.
Proof.
  intros Hparse. induction l as [| x l IH]; intros acc Hacc; simpl; [exact Hacc |].
  apply IH. unfold left_compose, own_transform.
  destruct acc as [X | e]; simpl; [| exact Hacc].
  destruct (Etree.attrib_of doc x !! "transform") as [a |]; simpl; [| discriminate].
  destruct (parse a) as [T | e] eqn:E; simpl; [discriminate |].
  rewrite <- E. apply Hparse.
Qed.

(** C8. In a document in document order, the accumulated transform of an
    element (both files) is the fold that starts from the identity, walks the
    parent links from the element up to the root and composes each element's
    own transform on the left of the accumulator, the identity where the
    attribute is absent; the walk ends at an element without a parent, and
    it never runs out of iterations. *)
Theorem accumulated_transform_left_composes (doc : list Element) (el : nat) :
  Etree.wf_document doc ->
  Svg2pdf.svg_find_accumulated_transform doc el
  = accumulatedTransform Svg2pdf.svg_parse_transform doc el
  /\ Svg2latex.compute_svg_transform doc el
     = accumulatedTransform Svg2latex.parse_svg_transform doc el
  /\ Etree.getparent doc (List.last (path_to_root el doc el) el) = None
  /\ Svg2pdf.svg_find_accumulated_transform doc el <> Raise Unbounded
  /\ Svg2latex.compute_svg_transform doc el <> Raise Unbounded.
Proof.
  intros Hwf.
  split; [now apply accumulated_transform_spec |].
  split; [now apply accumulated_transform_spec |].
  split; [now apply path_to_root_reaches_root |].
  split.
  - unfold Svg2pdf.svg_find_accumulated_transform.
    rewrite accumulated_transform_spec by assumption.
    apply fold_left_compose_bounded; [apply svg_parse_transform_bounded | discriminate].
  - unfold Svg2latex.compute_svg_transform.
    rewrite accumulated_transform_spec by assumption.
    apply fold_left_compose_bounded; [apply parse_svg_transform_bounded | discriminate].
Qed.

Lemma accumulated_transform_left_composes_witness :
  Etree.wf_document sample_doc
  /\ Svg2pdf.svg_find_accumulated_transform sample_doc 3
     = accumulatedTransform Svg2pdf.svg_parse_transform sample_doc 3
  /\ path_to_root 3 sample_doc 3 = [3; 1; 0].
Proof.
  assert (Hwf : Etree.wf_document sample_doc)
    by (apply wf_documentb_sound; vm_compute; reflexivity).
  split; [exact Hwf | split; [| reflexivity]].
  exact (proj1 (accumulated_transform_left_composes sample_doc 3 Hwf)).
Defined.

Example sample_accumulated_transform :
  Svg2pdf.svg_find_accumulated_transform sample_doc 3
  = Ok (Affine.mk (of_Z 17, of_Z 28) (0, 1, - (1), 0)%Qc).
Proof. eval_affine. Qed.

(** ** Extraction: what one iteration does *)

(** Splits a successful run of binds into its successful steps. *)
Ltac bind_inv H :=
  repeat match type of H with
         | rbind ?c _ = Ok _ =>
             let E := fresh "E" in
             destruct c eqn:E; simpl in H; [| discriminate H]
         | (let '(_, _) := ?p in _) = Ok _ =>
             let E := fresh "E" in destruct p eqn:E
         end.

Lemma getitem_ok {V : Type} (d : gmap string V) (key : string) (v : V) :
  Etree.getitem d key = Ok v -> d !! key = Some v.
Proof. unfold Etree.getitem. destruct (d !! key); [congruence | discriminate]. Qed.

Lemma getitem_missing {V : Type} (d : gmap string V) (key : string) :
  d !! key = None -> Etree.getitem d key = Raise (KeyError key).
Proof. unfold Etree.getitem. now intros ->. Qed.

Section ExtractionSteps.

Variable format_float : float -> string.
Variable splitext : string -> string * string.
Variable path_join : string -> string -> string.
Variable shutil_copy : string -> string -> result unit.
Variable decode_escaped_string : string -> result string.
Variable read_lines : string -> result (list string).
Variable iterate : gset string -> list string.

Let extract_image := Svg2pdf.extract_image format_float splitext path_join shutil_copy.
Let extract_textext := Svg2pdf.extract_textext decode_escaped_string.

Lemma extract_image_ok (svg_dir : string) (el : nat) (pic pic' : Svg2pdf.TeXPicture)
    (doc doc' : list Element) :
  extract_image svg_dir el (pic, doc) = Ok (pic', doc') ->
  exists w h wv hv xf x y node,
    Etree.attrib_of doc el !! "width" = Some w
    /\ Svg2pdf.svg_parse_length w = Ok wv
    /\ Etree.attrib_of doc el !! "height" = Some h
    /\ Svg2pdf.svg_parse_length h = Ok hv
    /\ Svg2pdf.svg_find_accumulated_transform doc el = Ok xf
    /\ Svg2pdf.svg_parse_length (Etree.get (Etree.attrib_of doc el) "x" "0") = Ok x
    /\ Svg2pdf.svg_parse_length (Etree.get (Etree.attrib_of doc el) "y" "0") = Ok y
    /\ Svg2pdf.tex_pos node
       = (fst (Affine.applyTo xf x y),
          (Svg2pdf.height pic - snd (Affine.applyTo xf x y) - hv)%Qc)
    /\ Svg2pdf.xform node = xf
    /\ Svg2pdf.svg_pos node = Some (x, y)
    /\ pic' = Svg2pdf.append_node pic node
    /\ Etree.remove doc el = Ok doc'.
Proof.
  unfold extract_image, Svg2pdf.extract_image. intros H.
  bind_inv H.
  injection H as <- <-.
  repeat match goal with
         | E : Etree.getitem _ _ = Ok _ |- _ => apply getitem_ok in E
         end.
  do 7 eexists. eexists (Svg2pdf.mkNode _ _ _ _).
  repeat split; try eassumption; simpl.
  match goal with E : Affine.applyTo _ _ _ = _ |- _ => now rewrite E end.
Qed.

Lemma drop_text_ok (pic : Svg2pdf.TeXPicture) (el : nat) (doc doc' : list Element) :
  Svg2pdf.drop_text pic el doc = Ok doc' -> Etree.remove doc el = Ok doc'.
Proof. unfold Svg2pdf.drop_text. intros H. now bind_inv H. Qed.

Lemma extract_textext_ok (el : nat) (pic pic' : Svg2pdf.TeXPicture)
    (doc doc' : list Element) (files files' : gset string) :
  extract_textext el (pic, doc, files) = Ok (pic', doc', files') ->
  exists xf node,
    Svg2pdf.svg_find_accumulated_transform doc el = Ok xf
    /\ Svg2pdf.xform node = xf
    /\ Svg2pdf.tex_pos node
       = (fst (Affine.t xf), (Svg2pdf.height pic - snd (Affine.t xf))%Qc)
    /\ pic' = Svg2pdf.append_node pic node
    /\ Etree.remove doc el = Ok doc'.
Proof.
  unfold extract_textext, Svg2pdf.extract_textext. intros H.
  bind_inv H.
  injection H as <- <- <-.
  eexists. eexists (Svg2pdf.mkNode _ _ _ _).
  repeat split; try eassumption; simpl.
  match goal with E : Affine.t _ = _ |- _ => now rewrite E end.
Qed.

End ExtractionSteps.

(** ** Pruning: documents that differ by unlinked elements *)

Lemma stable_is_image : stable is_image.
Proof. now intros e. Qed.
Lemma stable_is_text : stable is_text.
Proof. now intros e. Qed.
Lemma stable_has_textext : stable has_textext.
Proof. now intros e. Qed.
Lemma stable_extracted : stable extracted.
Proof. now intros e. Qed.

Lemma pruned_refl (P : Element -> bool) (doc : list Element) : pruned P doc doc.
Proof. split; [reflexivity | now left]. Qed.

Lemma pruned_trans (P : Element -> bool) (d1 d2 d3 : list Element) :
  stable P -> pruned P d1 d2 -> pruned P d2 d3 -> pruned P d1 d3.
Proof.
  intros HP [L12 H12] [L23 H23]. split; [congruence |].
  intros el. destruct (H12 el) as [E12 | (e & E1 & Pe & E2)].
  - destruct (H23 el) as [E23 | (e & E2 & Pe & E3)].
    + left. congruence.
    + right. exists e. rewrite <- E12. auto.
  - right. exists e. split; [exact E1 | split; [exact Pe |]].
    destruct (H23 el) as [E23 | (e' & E2' & Pe' & E3)]; [congruence |].
    rewrite E3. rewrite E2 in E2'. injection E2' as <-. reflexivity.
Qed.

Lemma pruned_weaken (P Q : Element -> bool) (doc doc' : list Element) :
  (forall e, P e = true -> Q e = true) -> pruned P doc doc' -> pruned Q doc doc'.
Proof.
  intros HPQ [L H]. split; [exact L |].
  intros el. destruct (H el) as [E | (e & E1 & Pe & E2)]; [now left |].
  right. exists e. auto.
Qed.

Lemma pruned_alter (P : Element -> bool) (doc : list Element) (el : nat) (e : Element) :
  doc !! el = Some e -> P e = true -> pruned P doc (alter Etree.unlink el doc).
Proof.
  intros E Pe. split; [apply length_alter |].
  intros x. destruct (decide (x = el)) as [-> | Hne].
  - right. exists e. split; [exact E | split; [exact Pe |]].
    rewrite list_lookup_alter_eq, E. reflexivity.
  - left. now rewrite list_lookup_alter_ne.
Qed.

Lemma remove_ok (doc doc' : list Element) (el : nat) :
  Etree.remove doc el = Ok doc' ->
  doc' = alter Etree.unlink el doc /\ exists p, Etree.getparent doc el = Some p.
Proof.
  unfold Etree.remove. destruct (Etree.getparent doc el) as [p |]; [| discriminate].
  intros H. injection H as <-. eauto.
Qed.

Lemma pruned_length (P : Element -> bool) (doc doc' : list Element) :
  pruned P doc doc' -> length doc' = length doc.
Proof. now intros [L _]. Qed.

Lemma pruned_attrib (P : Element -> bool) (doc doc' : list Element) (el : nat) :
  pruned P doc doc' -> Etree.attrib_of doc' el = Etree.attrib_of doc el.
Proof.
  intros [_ H]. unfold Etree.attrib_of.
  destruct (H el) as [-> | (e & -> & _ & ->)]; reflexivity.
Qed.

Lemma pruned_class (P Q : Element -> bool) (doc doc' : list Element) (el : nat) :
  stable Q -> pruned P doc doc' ->
  match doc' !! el with Some e => Q e | None => false end
  = match doc !! el with Some e => Q e | None => false end.
Proof.
  intros HQ [_ H]. destruct (H el) as [-> | (e & -> & _ & ->)]; [reflexivity | apply HQ].
Qed.

Lemma pruned_kept (P : Element -> bool) (doc doc' : list Element) (el : nat) (e : Element) :
  pruned P doc doc' -> doc !! el = Some e -> P e = false -> doc' !! el = Some e.
Proof.
  intros [_ H] E Pe. destruct (H el) as [-> | (e' & E' & Pe' & _)]; [exact E |].
  congruence.
Qed.

Lemma pruned_getparent (P : Element -> bool) (doc doc' : list Element) (el p : nat) :
  pruned P doc doc' -> Etree.getparent doc' el = Some p -> Etree.getparent doc el = Some p.
Proof.
  intros [_ H]. unfold Etree.getparent.
  destruct (H el) as [-> | (e & -> & _ & ->)]; [auto | discriminate].
Qed.

Lemma pruned_root (P : Element -> bool) (doc doc' : list Element) (root : nat) :
  pruned P doc doc' -> Etree.getparent doc root = None -> Etree.getparent doc' root = None.
Proof.
  intros Hp Hr. destruct (Etree.getparent doc' root) as [p |] eqn:E; [| reflexivity].
  apply (pruned_getparent _ _ _ _ _ Hp) in E. congruence.
Qed.

Lemma xpath_all_In (p : Element -> bool) (doc : list Element) (root el : nat) :
  In el (Etree.xpath_all p doc root) <->
  exists e, doc !! el = Some e /\ p e = true /\ Etree.in_tree doc root el = true.
Proof.
  unfold Etree.xpath_all. rewrite filter_In, in_seq. split.
  - intros [_ H]. apply andb_prop in H as [Ht Hp].
    destruct (doc !! el) as [e |]; [eauto | discriminate].
  - intros (e & E & Hp & Ht). split.
    + apply lookup_lt_Some in E. lia.
    + now rewrite Ht, E.
Qed.

Lemma pruned_unlink_all (P : Element -> bool) (l : list nat) :
  stable P ->
  forall doc,
    (forall el, In el l -> exists e, doc !! el = Some e /\ P e = true) ->
    pruned P doc (unlink_all l doc).
Proof.
  intros HP. induction l as [| x l IH]; intros doc Hl; simpl.
  - apply pruned_refl.
  - destruct (Hl x (or_introl eq_refl)) as (e & E & Pe).
    assert (Hstep : pruned P doc (alter Etree.unlink x doc)) by now apply (pruned_alter P doc x e).
    apply (pruned_trans P _ _ _ HP Hstep). apply IH.
    intros el Hin. destruct (Hl el (or_intror Hin)) as (e' & E' & Pe').
    destruct Hstep as [_ Hs]. destruct (Hs el) as [-> | (e'' & E'' & _ & ->)].
    + eauto.
    + exists (Etree.unlink e''). split; [reflexivity |].
      rewrite HP. congruence.
Qed.

(** ** Extraction: the loops *)

Section ExtractionLoops.

Variable format_float : float -> string.
Variable splitext : string -> string * string.
Variable path_join : string -> string -> string.
Variable shutil_copy : string -> string -> result unit.
Variable decode_escaped_string : string -> result string.
Variable read_lines : string -> result (list string).
Variable iterate : gset string -> list string.

Let extract_image := Svg2pdf.extract_image format_float splitext path_join shutil_copy.
Let extract_textext := Svg2pdf.extract_textext decode_escaped_string.
Let convert_svg_to_texpic :=
  Svg2pdf.convert_svg_to_texpic format_float splitext path_join shutil_copy
    decode_escaped_string read_lines iterate.

Lemma extends_refl (pic : Svg2pdf.TeXPicture) : extends pic pic [].
Proof. unfold extends. now rewrite app_nil_r. Qed.

Lemma extends_append (pic : Svg2pdf.TeXPicture) (node : Svg2pdf.TeXPictureElement) :
  extends pic (Svg2pdf.append_node pic node) [node].
Proof. now unfold extends. Qed.

Lemma extends_trans (p1 p2 p3 : Svg2pdf.TeXPicture) (l1 l2 : list Svg2pdf.TeXPictureElement) :
  extends p1 p2 l1 -> extends p2 p3 l2 -> extends p1 p3 (l1 ++ l2).
Proof.
  unfold extends. intros (W1 & H1 & N1) (W2 & H2 & N2).
  rewrite W2, H2, N2, N1, app_assoc. auto.
Qed.

Lemma images_loop (svg_dir : string) (l : list nat) :
  forall pic doc pic' doc',
    for_each (extract_image svg_dir) l (pic, doc) = Ok (pic', doc') ->
    doc' = unlink_all l doc
    /\ exists new, extends pic pic' new /\ length new = length l.
Proof.
  induction l as [| el l IH]; intros pic doc pic' doc' H; cbn [for_each] in H.
  - injection H as <- <-. split; [reflexivity |]. exists []. split; [apply extends_refl | easy].
  - destruct (extract_image svg_dir el (pic, doc)) as [[pic1 doc1] | e] eqn:E;
      cbn [rbind] in H; [| discriminate].
    apply extract_image_ok in E
      as (w & h & wv & hv & xf & x & y & node & _ & _ & _ & _ & _ & _ & _ & _ & _ & _ & -> & Hr).
    apply remove_ok in Hr as [-> _].
    apply IH in H as [-> (new & Hext & Hlen)].
    split; [reflexivity |]. exists ([node] ++ new). split.
    + eapply extends_trans; [apply extends_append | exact Hext].
    + simpl. now rewrite Hlen.
Qed.

Lemma text_loop (pic : Svg2pdf.TeXPicture) (l : list nat) :
  forall doc doc',
    for_each (Svg2pdf.drop_text pic) l doc = Ok doc' -> doc' = unlink_all l doc.
Proof.
  induction l as [| el l IH]; intros doc doc' H; cbn [for_each] in H.
  - now injection H as <-.
  - destruct (Svg2pdf.drop_text pic el doc) as [doc1 | e] eqn:E; cbn [rbind] in H; [| discriminate].
    apply drop_text_ok, remove_ok in E as [-> _]. now apply IH in H.
Qed.

Lemma textext_loop (l : list nat) :
  forall pic doc files pic' doc' files',
    for_each extract_textext l (pic, doc, files) = Ok (pic', doc', files') ->
    doc' = unlink_all l doc
    /\ exists new, extends pic pic' new
                   /\ length new = length l
                   /\ Forall (at_translation (Svg2pdf.height pic)) new.
Proof.
  induction l as [| el l IH]; intros pic doc files pic' doc' files' H; cbn [for_each] in H.
  - injection H as <- <- <-. split; [reflexivity |].
    exists []. split; [apply extends_refl | split; [easy | constructor]].
  - destruct (extract_textext el (pic, doc, files)) as [[[pic1 doc1] files1] | e] eqn:E;
      cbn [rbind] in H; [| discriminate].
    apply extract_textext_ok in E as (xf & node & _ & Hxf & Hpos & -> & Hr).
    apply remove_ok in Hr as [-> _].
    apply IH in H as [-> (new & Hext & Hlen & Hall)].
    split; [reflexivity |]. exists ([node] ++ new). split; [| split].
    + eapply extends_trans; [apply extends_append | exact Hext].
    + simpl. now rewrite Hlen.
    + constructor; [| exact Hall].
      unfold at_translation. now rewrite Hpos, Hxf.
Qed.

(** The stages of a successful conversion. *)
Lemma convert_ok (svgroot : nat) (svg_dir : string) (doc doc' : list Element)
    (pic : Svg2pdf.TeXPicture) :
  convert_svg_to_texpic svgroot svg_dir doc = Ok (pic, doc') ->
  exists w h wv hv pic1 doc1 doc2 pic3 files text,
    Etree.attrib_of doc svgroot !! "width" = Some w
    /\ Svg2pdf.svg_parse_length w = Ok wv
    /\ Etree.attrib_of doc svgroot !! "height" = Some h
    /\ Svg2pdf.svg_parse_length h = Ok hv
    /\ for_each (extract_image svg_dir) (Etree.xpath_all is_image doc svgroot)
         (Svg2pdf.mkPicture wv hv [] "", doc) = Ok (pic1, doc1)
    /\ for_each (Svg2pdf.drop_text (Svg2pdf.append_node pic1 Svg2pdf.bgnode))
         (Etree.xpath_all is_text doc1 svgroot) doc1 = Ok doc2
    /\ for_each extract_textext (Etree.xpath_all has_textext doc2 svgroot)
         (Svg2pdf.append_node pic1 Svg2pdf.bgnode, doc2, ∅) = Ok (pic3, doc', files)
    /\ pic = Svg2pdf.set_extra_preamble pic3 text.
Proof.
  unfold convert_svg_to_texpic, Svg2pdf.convert_svg_to_texpic. intros H.
  bind_inv H.
  injection H as <- <-.
  repeat match goal with
         | E : Etree.getitem _ _ = Ok _ |- _ => apply getitem_ok in E
         | E : Svg2pdf.extract_images_to_texpic _ _ _ _ _ _ _ = Ok _ |- _ =>
             unfold Svg2pdf.extract_images_to_texpic in E; simpl in E
         end.
  do 9 eexists. eexists.
  repeat split; eassumption.
Qed.

End ExtractionLoops.

(** ** The tree after pruning *)

Section PrunedTree.

Variable P : Element -> bool.
Variables doc doc' : list Element.
Hypothesis Hpruned : pruned P doc doc'.

Let keep (e : Element) : bool := negb (P e).

Lemma kept_getparent (el : nat) :
  match doc !! el with Some e => keep e | None => true end = true ->
  Etree.getparent doc' el = Etree.getparent doc el.
Proof.
  intros Hk. unfold Etree.getparent. destruct Hpruned as [_ H].
  destruct (H el) as [-> | (e & E & Pe & _)]; [reflexivity |].
  rewrite E in Hk. unfold keep in Hk. rewrite Pe in Hk. discriminate.
Qed.

Lemma all_above_fewer (q : Element -> bool) (n : nat) :
  forall el, all_above q (S n) doc el = true -> all_above q n doc el = true.
Proof.
  induction n as [| n IH]; intros el H.
  - simpl in *. apply andb_prop in H as [H _]. now rewrite H.
  - cbn [all_above] in H. apply andb_prop in H as [H1 H2].
    cbn [all_above]. rewrite H1. simpl.
    destruct (Etree.getparent doc el) as [p |]; [| reflexivity].
    now apply IH.
Qed.

Lemma top_kept (n : nat) :
  forall el, all_above keep n doc el = true -> Etree.top n doc' el = Etree.top n doc el.
Proof.
  induction n as [| n IH]; intros el H; [reflexivity |].
  cbn [all_above] in H. apply andb_prop in H as [H1 H2].
  simpl. rewrite (kept_getparent el H1).
  destruct (Etree.getparent doc el) as [p |]; [| reflexivity].
  now apply IH.
Qed.

Lemma walk_up_kept (parse : string -> result AffineTransform) (n : nat) :
  forall el X,
    all_above keep n doc el = true ->
    walk_up parse (S n) doc' (Some el) X = walk_up parse (S n) doc (Some el) X.
Proof.
  induction n as [| n IH]; intros el X H.
  - simpl in H. rewrite andb_true_r in H.
    simpl. rewrite (pruned_attrib P doc doc' el Hpruned), (kept_getparent el H).
    reflexivity.
  - cbn [all_above] in H. apply andb_prop in H as [H1 H2].
    cbn [walk_up]. rewrite (pruned_attrib P doc doc' el Hpruned), (kept_getparent el H1).
    destruct (match Etree.attrib_of doc el !! "transform" with
              | Some a => let* t := parse a in Ok (t @* X)
              | None => Ok X
              end) as [X' | e]; [| reflexivity].
    cbn [rbind].
    destruct (Etree.getparent doc el) as [p |]; [| reflexivity].
    now apply IH.
Qed.

Variable root : nat.
Hypothesis Hroot : Etree.getparent doc root = None.

Lemma top_root (d : list Element) (n : nat) :
  Etree.getparent d root = None -> Etree.top n d root = root.
Proof. intros H. destruct n; simpl; [reflexivity | now rewrite H]. Qed.

Lemma top_reaches_root (n : nat) :
  forall el, Etree.top n doc' el = root -> Etree.top n doc el = root.
Proof.
  induction n as [| n IH]; intros el H; [exact H |].
  simpl in H. destruct (Etree.getparent doc' el) as [p |] eqn:E.
  - apply (pruned_getparent P doc doc' el p Hpruned) in E. simpl. rewrite E. now apply IH.
  - subst el. now apply top_root.
Qed.

Lemma in_tree_after (el : nat) :
  Etree.in_tree doc' root el = true -> Etree.in_tree doc root el = true.
Proof.
  unfold Etree.in_tree. rewrite !bool_decide_eq_true.
  rewrite (top_root doc' (S root) (pruned_root P doc doc' root Hpruned Hroot)).
  rewrite (top_root doc (S root) Hroot). apply top_reaches_root.
Qed.

Lemma in_tree_kept (el : nat) :
  all_above keep (S el) doc el = true ->
  Etree.in_tree doc' root el = Etree.in_tree doc root el.
Proof.
  intros H. unfold Etree.in_tree.
  rewrite (top_root doc' (S root) (pruned_root P doc doc' root Hpruned Hroot)).
  rewrite (top_root doc (S root) Hroot).
  now rewrite (top_kept (S el) el H).
Qed.

Lemma in_tree_unlinked (el : nat) :
  Etree.getparent doc' el = None -> el <> root -> Etree.in_tree doc' root el = false.
Proof.
  intros H Hne. unfold Etree.in_tree. apply bool_decide_eq_false.
  rewrite (top_root doc' (S root) (pruned_root P doc doc' root Hpruned Hroot)).
  simpl. now rewrite H.
Qed.

End PrunedTree.

(** ** The whole conversion prunes the three classes *)

Lemma xpath_all_class (p : Element -> bool) (doc : list Element) (root el : nat) :
  In el (Etree.xpath_all p doc root) -> exists e, doc !! el = Some e /\ p e = true.
Proof. rewrite xpath_all_In. intros (e & E & Hp & _). eauto. Qed.

Lemma pruned_xpath (p : Element -> bool) (doc : list Element) (root : nat) :
  stable p -> pruned p doc (unlink_all (Etree.xpath_all p doc root) doc).
Proof.
  intros Hp. apply pruned_unlink_all; [exact Hp |].
  intros el. apply xpath_all_class.
Qed.

Section Conversion.

Variable format_float : float -> string.
Variable splitext : string -> string * string.
Variable path_join : string -> string -> string.
Variable shutil_copy : string -> string -> result unit.
Variable decode_escaped_string : string -> result string.
Variable read_lines : string -> result (list string).
Variable iterate : gset string -> list string.

Let convert_svg_to_texpic :=
  Svg2pdf.convert_svg_to_texpic format_float splitext path_join shutil_copy
    decode_escaped_string read_lines iterate.

Lemma convert_pruned (svgroot : nat) (svg_dir : string) (doc doc' : list Element)
    (pic : Svg2pdf.TeXPicture) :
  convert_svg_to_texpic svgroot svg_dir doc = Ok (pic, doc') -> pruned extracted doc doc'.
Proof.
  intros H. apply convert_ok in H
    as (w & h & wv & hv & pic1 & doc1 & doc2 & pic3 & files & text
        & _ & _ & _ & _ & H1 & H2 & H3 & _).
  apply images_loop in H1 as [-> _].
  apply text_loop in H2 as ->.
  apply textext_loop in H3 as [-> _].
  apply (pruned_trans extracted _
           (unlink_all (Etree.xpath_all is_image doc svgroot) doc) _ stable_extracted).
  { apply (pruned_weaken is_image); [| apply pruned_xpath, stable_is_image].
    intros e He. unfold extracted. now rewrite He. }
  eapply (pruned_trans extracted _ _ _ stable_extracted).
  { apply (pruned_weaken is_text); [| apply pruned_xpath, stable_is_text].
    intros e He. unfold extracted. rewrite He. now rewrite orb_true_r. }
  apply (pruned_weaken has_textext); [| apply pruned_xpath, stable_has_textext].
  intros e He. unfold extracted. rewrite He. now rewrite orb_true_r.
Qed.

End Conversion.

(** ** What leaves the tree *)

Lemma getparent_unlinked (doc : list Element) (el : nat) :
  Etree.getparent (alter Etree.unlink el doc) el = None.
Proof.
  unfold Etree.getparent. rewrite list_lookup_alter_eq.
  now destruct (doc !! el).
Qed.

Lemma getparent_lookup (doc : list Element) (el p : nat) :
  Etree.getparent doc el = Some p -> exists e, doc !! el = Some e.
Proof. unfold Etree.getparent. destruct (doc !! el); [eauto | discriminate]. Qed.

Lemma getparent_before_unlink (doc : list Element) (y x p : nat) :
  Etree.getparent (alter Etree.unlink y doc) x = Some p -> Etree.getparent doc x = Some p.
Proof.
  unfold Etree.getparent. destruct (decide (x = y)) as [-> | Hne].
  - rewrite list_lookup_alter_eq. destruct (doc !! y); discriminate.
  - now rewrite list_lookup_alter_ne.
Qed.

Lemma getparent_none_unlink (doc : list Element) (y x : nat) :
  Etree.getparent doc x = None -> Etree.getparent (alter Etree.unlink y doc) x = None.
Proof.
  intros H. destruct (Etree.getparent (alter Etree.unlink y doc) x) as [p |] eqn:E;
    [| reflexivity].
  apply getparent_before_unlink in E. congruence.
Qed.

Lemma getparent_none_unlink_all (l : list nat) :
  forall doc x, Etree.getparent doc x = None -> Etree.getparent (unlink_all l doc) x = None.
Proof.
  induction l as [| y l IH]; intros doc x H; simpl; [exact H |].
  apply IH. now apply getparent_none_unlink.
Qed.

Lemma unlink_all_unlinks (l : list nat) :
  forall doc x, In x l -> Etree.getparent (unlink_all l doc) x = None.
Proof.
  induction l as [| y l IH]; intros doc x Hin; [destruct Hin |].
  simpl. destruct Hin as [-> | Hin]; [| now apply IH].
  apply getparent_none_unlink_all, getparent_unlinked.
Qed.

(** A loop whose iterations remove their element succeeds only on elements
    that have a parent. *)
Lemma for_each_removes {S : Type} (proj : S -> list Element)
    (body : nat -> S -> result S) :
  (forall x s s', body x s = Ok s' -> Etree.remove (proj s) x = Ok (proj s')) ->
  forall l s s',
    for_each body l s = Ok s' ->
    forall x, In x l -> exists p, Etree.getparent (proj s) x = Some p.
Proof.
  intros Hbody. induction l as [| y l IH]; intros s s' H x Hin; [destruct Hin |].
  cbn [for_each] in H.
  destruct (body y s) as [s1 | e] eqn:E; cbn [rbind] in H; [| discriminate].
  apply Hbody, remove_ok in E as [E1 [p Hp]].
  destruct Hin as [<- | Hin]; [eauto |].
  destruct (IH s1 s' H x Hin) as [q Hq]. exists q.
  rewrite E1 in Hq. now apply getparent_before_unlink in Hq.
Qed.

(** One loop of the conversion: an element of the loop's class that is in
    the tree when the loop starts has no parent when it ends, and is not the
    root. *)
Lemma loop_unlinks (p : Element -> bool) (doc : list Element) (root x : nat) :
  Etree.getparent doc root = None ->
  (forall y, In y (Etree.xpath_all p doc root) -> exists q, Etree.getparent doc y = Some q) ->
  match doc !! x with Some e => p e | None => false end = true ->
  Etree.in_tree doc root x = true ->
  Etree.getparent (unlink_all (Etree.xpath_all p doc root) doc) x = None /\ x <> root.
Proof.
  intros Hroot Hparents Hclass Htree.
  assert (Hin : In x (Etree.xpath_all p doc root)).
  { apply xpath_all_In. destruct (doc !! x) as [e |]; [eauto | discriminate]. }
  split; [now apply unlink_all_unlinks |].
  destruct (Hparents x Hin) as [q Hq]. congruence.
Qed.

Section Leaving.

Variable format_float : float -> string.
Variable splitext : string -> string * string.
Variable path_join : string -> string -> string.
Variable shutil_copy : string -> string -> result unit.
Variable decode_escaped_string : string -> result string.
Variable read_lines : string -> result (list string).
Variable iterate : gset string -> list string.

Lemma extract_image_removes (svg_dir : string) (x : nat)
    (s s' : Svg2pdf.TeXPicture * list Element) :
  Svg2pdf.extract_image format_float splitext path_join shutil_copy svg_dir x s = Ok s' ->
  Etree.remove (snd s) x = Ok (snd s').
Proof.
  destruct s as [pic d], s' as [pic' d']. intros H.
  apply extract_image_ok in H
    as (? & ? & ? & ? & ? & ? & ? & ? & _ & _ & _ & _ & _ & _ & _ & _ & _ & _ & _ & Hr).
  exact Hr.
Qed.

Lemma extract_textext_removes (x : nat)
    (s s' : Svg2pdf.TeXPicture * list Element * gset string) :
  Svg2pdf.extract_textext decode_escaped_string x s = Ok s' ->
  Etree.remove (snd (fst s)) x = Ok (snd (fst s')).
Proof.
  destruct s as [[pic d] f], s' as [[pic' d'] f']. intros H.
  apply extract_textext_ok in H as (? & ? & _ & _ & _ & _ & Hr).
  exact Hr.
Qed.

(** After a successful conversion no element of the three classes is in the
    tree of the root. *)
Lemma extracted_leave (svgroot : nat) (svg_dir : string) (doc doc' : list Element)
    (pic : Svg2pdf.TeXPicture) (x : nat) (e : Element) :
  Svg2pdf.convert_svg_to_texpic format_float splitext path_join shutil_copy
    decode_escaped_string read_lines iterate svgroot svg_dir doc = Ok (pic, doc') ->
  Etree.getparent doc svgroot = None ->
  doc !! x = Some e ->
  extracted e = true ->
  Etree.in_tree doc' svgroot x = false.
Proof.
  intros Hrun Hroot Ex He.
  apply convert_ok in Hrun
    as (w & h & wv & hv & pic1 & doc1 & doc2 & pic3 & files & text
        & _ & _ & _ & _ & H1 & H2 & H3 & _).
  pose proof (for_each_removes snd _ (extract_image_removes svg_dir) _ _ _ H1) as P1.
  pose proof (for_each_removes (fun d => d) _ (drop_text_ok _) _ _ _ H2) as P2.
  pose proof (for_each_removes (fun s => snd (fst s)) _ extract_textext_removes _ _ _ H3)
    as P3.
  simpl in P1, P2, P3.
  apply images_loop in H1 as [-> _].
  apply text_loop in H2 as ->.
  apply textext_loop in H3 as [-> _].
  set (doc1 := unlink_all (Etree.xpath_all is_image doc svgroot) doc) in *.
  set (doc2 := unlink_all (Etree.xpath_all is_text doc1 svgroot) doc1) in *.
  set (doc3 := unlink_all (Etree.xpath_all has_textext doc2 svgroot) doc2) in *.
  assert (Hp1 : pruned is_image doc doc1) by apply pruned_xpath, stable_is_image.
  assert (Hp2 : pruned is_text doc1 doc2) by apply pruned_xpath, stable_is_text.
  assert (Hp3 : pruned has_textext doc2 doc3) by apply pruned_xpath, stable_has_textext.
  assert (Hr1 : Etree.getparent doc1 svgroot = None) by exact (pruned_root _ _ _ _ Hp1 Hroot).
  assert (Hr2 : Etree.getparent doc2 svgroot = None) by exact (pruned_root _ _ _ _ Hp2 Hr1).
  destruct (Etree.in_tree doc3 svgroot x) eqn:T3; [exfalso | reflexivity].
  pose proof (in_tree_after _ _ _ Hp3 _ Hr2 _ T3) as T2.
  pose proof (in_tree_after _ _ _ Hp2 _ Hr1 _ T2) as T1.
  pose proof (in_tree_after _ _ _ Hp1 _ Hroot _ T1) as T0.
  assert (Hgone : Etree.getparent doc3 x = None /\ x <> svgroot).
  { unfold extracted in He.
    destruct (is_image e) eqn:Ei; [| destruct (is_text e) eqn:Et].
    - destruct (loop_unlinks is_image doc svgroot x Hroot P1) as [Hn Hne];
        [now rewrite Ex | exact T0 |].
      split; [| exact Hne].
      exact (pruned_root _ _ _ _ Hp3 (pruned_root _ _ _ _ Hp2 Hn)).
    - destruct (loop_unlinks is_text doc1 svgroot x Hr1 P2) as [Hn Hne];
        [| exact T1 |].
      + rewrite (pruned_class is_image is_text doc doc1 x stable_is_text Hp1).
        now rewrite Ex.
      + split; [| exact Hne]. exact (pruned_root _ _ _ _ Hp3 Hn).
    - simpl in He.
      destruct (loop_unlinks has_textext doc2 svgroot x Hr2 P3) as [Hn Hne];
        [| exact T2 | now split].
      rewrite (pruned_class is_text has_textext doc1 doc2 x stable_has_textext Hp2).
      rewrite (pruned_class is_image has_textext doc doc1 x stable_has_textext Hp1).
      now rewrite Ex. }
  destruct Hgone as [Hn Hne].
  rewrite (in_tree_unlinked has_textext doc2 doc3 Hp3 svgroot Hr2 x Hn Hne) in T3.
  discriminate T3.
Qed.

End Leaving.

(** ** Elements below an extracted element *)

Lemma wf_pruned (P : Element -> bool) (doc doc' : list Element) :
  pruned P doc doc' -> Etree.wf_document doc -> Etree.wf_document doc'.
Proof.
  intros Hp Hwf el p H. apply (pruned_getparent P doc doc' el p Hp) in H. now apply Hwf.
Qed.

Lemma top_parentless (doc : list Element) (n : nat) :
  Etree.wf_document doc ->
  forall el, el <= n -> Etree.getparent doc (Etree.top n doc el) = None.
Proof.
  intros Hwf. induction n as [| n IH]; intros el Hle; simpl.
  - destruct (Etree.getparent doc el) as [p |] eqn:E; [| reflexivity].
    apply Hwf in E. lia.
  - destruct (Etree.getparent doc el) as [p |] eqn:E; [| exact E].
    apply IH. apply Hwf in E. lia.
Qed.

Lemma top_at_root (doc : list Element) (n el : nat) :
  Etree.getparent doc el = None -> Etree.top n doc el = el.
Proof. intros H. destruct n; simpl; [reflexivity | now rewrite H]. Qed.

Lemma top_stable (doc : list Element) (n : nat) :
  forall el k,
    Etree.getparent doc (Etree.top n doc el) = None ->
    Etree.top (n + k) doc el = Etree.top n doc el.
Proof.
  induction n as [| n IH]; intros el k H; simpl in *.
  - now apply top_at_root.
  - destruct (Etree.getparent doc el) as [p |] eqn:E; [now apply IH | reflexivity].
Qed.

Lemma all_above_false (q : Element -> bool) (doc : list Element) (n : nat) :
  forall el,
    all_above q n doc el = false ->
    exists x e, In x (path_to_root n doc el) /\ doc !! x = Some e /\ q e = false.
Proof.
  induction n as [| n IH]; intros el H; cbn [all_above] in H;
    apply andb_false_iff in H as [H | H]; try discriminate H.
  - exists el. destruct (doc !! el) as [e |]; [| discriminate H].
    exists e. simpl. auto.
  - exists el. destruct (doc !! el) as [e |]; [| discriminate H].
    exists e. simpl. auto.
  - simpl. destruct (Etree.getparent doc el) as [p |]; [| discriminate H].
    destruct (IH p H) as (x & e & Hin & Hx & Hq). exists x, e. auto.
Qed.

(** If [el] is still below [root] after pruning, so is every element that
    was on its way to the root. *)
Lemma way_to_root (P : Element -> bool) (doc doc' : list Element) (root : nat) :
  pruned P doc doc' ->
  Etree.getparent doc root = None ->
  forall n el,
    Etree.top n doc' el = root ->
    forall x, In x (path_to_root n doc el) -> exists k, Etree.top k doc' x = root.
Proof.
  intros Hp Hroot. induction n as [| n IH]; intros el H x Hin.
  - simpl in H, Hin. destruct Hin as [<- | []]. now exists 0.
  - simpl in H. destruct (Etree.getparent doc' el) as [p |] eqn:E.
    + pose proof (pruned_getparent P doc doc' el p Hp E) as E0.
      simpl in Hin. rewrite E0 in Hin. destruct Hin as [<- | Hin].
      * exists (S n). simpl. now rewrite E.
      * now apply (IH p).
    + subst el. simpl in Hin. rewrite Hroot in Hin.
      destruct Hin as [<- | []]. now exists 0.
Qed.

Lemma in_tree_from (doc : list Element) (root x k : nat) :
  Etree.wf_document doc ->
  Etree.getparent doc root = None ->
  Etree.top k doc x = root ->
  Etree.in_tree doc root x = true.
Proof.
  intros Hwf Hroot Hk. unfold Etree.in_tree. apply bool_decide_eq_true.
  rewrite (top_at_root doc (S root) root Hroot).
  assert (H1 : Etree.top (S x + k) doc x = Etree.top (S x) doc x)
    by (apply top_stable, top_parentless; [exact Hwf | lia]).
  assert (H2 : Etree.top (k + S x) doc x = Etree.top k doc x)
    by (apply top_stable; now rewrite Hk).
  rewrite Nat.add_comm in H2. congruence.
Qed.

Section LeavingBelow.

Variable format_float : float -> string.
Variable splitext : string -> string * string.
Variable path_join : string -> string -> string.
Variable shutil_copy : string -> string -> result unit.
Variable decode_escaped_string : string -> result string.
Variable read_lines : string -> result (list string).
Variable iterate : gset string -> list string.

(** Nor is any element below one. *)
Lemma below_extracted_leave (svgroot : nat) (svg_dir : string) (doc doc' : list Element)
    (pic : Svg2pdf.TeXPicture) (el : nat) :
  Svg2pdf.convert_svg_to_texpic format_float splitext path_join shutil_copy
    decode_escaped_string read_lines iterate svgroot svg_dir doc = Ok (pic, doc') ->
  Etree.wf_document doc ->
  Etree.getparent doc svgroot = None ->
  all_above (not_in extracted) (S el) doc el = false ->
  Etree.in_tree doc' svgroot el = false.
Proof.
  intros Hrun Hwf Hroot Habove.
  pose proof (convert_pruned _ _ _ _ _ _ _ _ _ _ _ _ Hrun) as Hp.
  destruct (Etree.in_tree doc' svgroot el) eqn:T; [exfalso | reflexivity].
  unfold Etree.in_tree in T. apply bool_decide_eq_true in T.
  rewrite (top_at_root doc' (S svgroot) svgroot (pruned_root _ _ _ _ Hp Hroot)) in T.
  destruct (all_above_false _ _ _ _ Habove) as (x & e & Hin & Ex & Hq).
  destruct (way_to_root extracted doc doc' svgroot Hp Hroot _ _ T x Hin) as [k Hk].
  assert (Tx : Etree.in_tree doc' svgroot x = true).
  { apply (in_tree_from doc' svgroot x k); [| | exact Hk].
    - now apply (wf_pruned extracted doc).
    - exact (pruned_root _ _ _ _ Hp Hroot). }
  rewrite (extracted_leave _ _ _ _ _ _ _ svgroot svg_dir doc doc' pic x e Hrun Hroot Ex) in Tx;
    [discriminate Tx |].
  unfold not_in in Hq. now apply negb_false_iff in Hq.
Qed.

End LeavingBelow.

(** After the first two loops of a conversion, an element that is or lies
    below an image or a plain [text] element is out of the tree. *)
Lemma below_image_or_text_leave (svgroot : nat) (doc : list Element) (el : nat) :
  let doc1 := unlink_all (Etree.xpath_all is_image doc svgroot) doc in
  let doc2 := unlink_all (Etree.xpath_all is_text doc1 svgroot) doc1 in
  Etree.wf_document doc ->
  Etree.getparent doc svgroot = None ->
  (forall y, In y (Etree.xpath_all is_image doc svgroot) ->
             exists q, Etree.getparent doc y = Some q) ->
  (forall y, In y (Etree.xpath_all is_text doc1 svgroot) ->
             exists q, Etree.getparent doc1 y = Some q) ->
  all_above (not_in image_or_text) (S el) doc el = false ->
  Etree.in_tree doc2 svgroot el = false.
Proof.
  intros doc1 doc2 Hwf Hroot P1 P2 Habove.
  assert (Hp1 : pruned is_image doc doc1) by apply pruned_xpath, stable_is_image.
  assert (Hp2 : pruned is_text doc1 doc2) by apply pruned_xpath, stable_is_text.
  assert (Hr1 : Etree.getparent doc1 svgroot = None) by exact (pruned_root _ _ _ _ Hp1 Hroot).
  assert (Hr2 : Etree.getparent doc2 svgroot = None) by exact (pruned_root _ _ _ _ Hp2 Hr1).
  assert (Hp : pruned image_or_text doc doc2).
  { apply (pruned_trans image_or_text doc doc1 doc2).
    - now intros e.
    - apply (pruned_weaken is_image); [| exact Hp1].
      intros e He. unfold image_or_text. now rewrite He.
    - apply (pruned_weaken is_text); [| exact Hp2].
      intros e He. unfold image_or_text. rewrite He. apply orb_true_r. }
  destruct (Etree.in_tree doc2 svgroot el) eqn:T; [exfalso | reflexivity].
  unfold Etree.in_tree in T. apply bool_decide_eq_true in T.
  rewrite (top_at_root doc2 (S svgroot) svgroot Hr2) in T.
  destruct (all_above_false _ _ _ _ Habove) as (x & e & Hin & Ex & Hq).
  destruct (way_to_root image_or_text doc doc2 svgroot Hp Hroot _ _ T x Hin) as [k Hk].
  assert (T2 : Etree.in_tree doc2 svgroot x = true).
  { apply (in_tree_from doc2 svgroot x k); [| exact Hr2 | exact Hk].
    now apply (wf_pruned image_or_text doc). }
  pose proof (in_tree_after _ _ _ Hp2 _ Hr1 _ T2) as T1.
  pose proof (in_tree_after _ _ _ Hp1 _ Hroot _ T1) as T0.
  assert (Hgone : Etree.getparent doc2 x = None /\ x <> svgroot).
  { unfold not_in in Hq. apply negb_false_iff in Hq. unfold image_or_text in Hq.
    destruct (is_image e) eqn:Ei.
    - destruct (loop_unlinks is_image doc svgroot x Hroot P1) as [Hn Hne];
        [now rewrite Ex | exact T0 |].
      split; [| exact Hne]. exact (pruned_root _ _ _ _ Hp2 Hn).
    - simpl in Hq.
      apply (loop_unlinks is_text doc1 svgroot x Hr1 P2); [| exact T1].
      rewrite (pruned_class is_image is_text doc doc1 x stable_is_text Hp1).
      now rewrite Ex. }
  destruct Hgone as [Hn Hne].
  rewrite (in_tree_unlinked is_text doc1 doc2 Hp2 svgroot Hr1 x Hn Hne) in T2.
  discriminate T2.
Qed.

(** ** A sample run *)

Lemma sample_convert_eq : sample_convert sample_doc = sample_result.
Proof. vm_compute. reflexivity. Qed.

Ltac sample_run pic doc' E :=
  pose proof sample_convert_eq as E; unfold sample_result in E;
  match type of E with
  | _ = Ok (?p, ?d) => set (pic := p) in *; set (doc' := d) in *
  end.

(** C4 as it is stated fails: in the sample document the plain [text]
    element (5) is neither an image nor an annotation, and the conversion
    unlinks it. *)
Lemma plain_text_is_unlinked : ~ only_two_classes_leave.
Proof.
  intros H. sample_run pic doc' E.
  destruct (sample_doc !! 5) as [e |] eqn:E5; [| discriminate E5].
  specialize (H _ _ _ _ _ _ _ _ _ _ _ _ 5 e E E5).
  assert (Hp : Etree.getparent doc' 5 = None) by reflexivity.
  injection E5 as <-.
  destruct H as [H _]; [reflexivity .. |].
  rewrite Hp in H. discriminate H.
Qed.

(** C4, amended.  After a successful conversion an element that is not an
    image, not a plain [text] element and carries no [textext:text] attribute
    is unchanged, so it keeps its parent.  When the root has no parent: an
    element that has no element of these three classes above it, and is none
    itself, is in the tree of the root exactly if it was before; and, in
    document order, an element that is of one of the three classes or has
    such an element above it is not in the tree of the root any more. *)
Theorem unextracted_elements_stay
    (format_float : float -> string) (splitext : string -> string * string)
    (path_join : string -> string -> string) (shutil_copy : string -> string -> result unit)
    (decode_escaped_string : string -> result string)
    (read_lines : string -> result (list string)) (iterate : gset string -> list string)
    (svgroot : nat) (svg_dir : string) (doc doc' : list Element) (pic : Svg2pdf.TeXPicture) :
  Svg2pdf.convert_svg_to_texpic format_float splitext path_join shutil_copy
    decode_escaped_string read_lines iterate svgroot svg_dir doc = Ok (pic, doc') ->
  (forall el e,
      doc !! el = Some e -> extracted e = false ->
      doc' !! el = Some e /\ Etree.getparent doc' el = Etree.getparent doc el)
  /\ (Etree.getparent doc svgroot = None ->
      (forall el,
          all_above (not_in extracted) (S el) doc el = true ->
          Etree.in_tree doc' svgroot el = Etree.in_tree doc svgroot el)
      /\ (Etree.wf_document doc ->
          forall el,
            all_above (not_in extracted) (S el) doc el = false ->
            Etree.in_tree doc' svgroot el = false)).
Proof.
  intros H. pose proof (convert_pruned _ _ _ _ _ _ _ _ _ _ _ _ H) as Hp. split.
  - intros el e E He.
    assert (E' : doc' !! el = Some e) by now apply (pruned_kept extracted doc doc' el e).
    split; [exact E' |]. unfold Etree.getparent. now rewrite E, E'.
  - intros Hroot. split.
    + intros el Hk. now apply (in_tree_kept extracted doc doc' Hp svgroot Hroot el).
    + intros Hwf el Hk.
      now apply (below_extracted_leave _ _ _ _ _ _ _ svgroot svg_dir doc doc' pic el H).
Qed.

Lemma unextracted_elements_stay_witness :
  exists pic doc',
    sample_convert sample_doc = Ok (pic, doc')
    /\ Etree.getparent doc' 7 = Some 0
    /\ Etree.in_tree doc' 0 7 = true
    /\ Etree.in_tree doc' 0 4 = false.
Proof.
  sample_run pic doc' E.
  exists pic, doc'. split; [exact E |].
  destruct (unextracted_elements_stay _ _ _ _ _ _ _ _ _ _ _ _ E) as [Hkeep Htree].
  destruct (Htree eq_refl) as [Hstay Hleave].
  split; [| split].
  - destruct (sample_doc !! 7) as [e |] eqn:E7; [| discriminate E7].
    destruct (Hkeep 7 e E7) as [_ ->]; [| reflexivity].
    injection E7 as <-. reflexivity.
  - rewrite Hstay; reflexivity.
  - apply Hleave; [apply wf_documentb_sound |]; reflexivity.
Defined.

(** ** The size of the page *)

Lemma for_each_preserves {A S : Type} (body : A -> S -> result S) (I : S -> Prop) :
  (forall x s s', body x s = Ok s' -> I s -> I s') ->
  forall l s s', for_each body l s = Ok s' -> I s -> I s'.
Proof.
  intros Hbody. induction l as [| x l IH]; intros s s' H Hs; cbn [for_each] in H.
  - now injection H as <-.
  - destruct (body x s) as [s1 | e] eqn:E; cbn [rbind] in H; [| discriminate].
    eapply IH; [exact H |]. eapply Hbody; eassumption.
Qed.

Lemma interpret_tspan_size (doc : list Element) (style : gmap string string) (tspan : nat)
    (texDoc texDoc' : Svg2latex.TeXPicture) :
  Svg2latex.interpret_tspan doc style tspan texDoc = Ok texDoc' ->
  Svg2latex.width texDoc' = Svg2latex.width texDoc
  /\ Svg2latex.height texDoc' = Svg2latex.height texDoc.
Proof.
  unfold Svg2latex.interpret_tspan. intros H. bind_inv H. now injection H as <-.
Qed.

Lemma interpret_svg_text_size (doc : list Element) (textEl : nat)
    (texDoc texDoc' : Svg2latex.TeXPicture) :
  Svg2latex.interpret_svg_text doc textEl texDoc = Ok texDoc' ->
  Svg2latex.width texDoc' = Svg2latex.width texDoc
  /\ Svg2latex.height texDoc' = Svg2latex.height texDoc.
Proof.
  unfold Svg2latex.interpret_svg_text. intros H.
  set (w := Svg2latex.width texDoc). set (h := Svg2latex.height texDoc).
  apply (for_each_preserves _
           (fun s => Svg2latex.width s = w /\ Svg2latex.height s = h)) in H; [exact H | | easy].
  intros x s s' Hx [Hw Hh]. apply interpret_tspan_size in Hx as [-> ->]. easy.
Qed.

Lemma process_svg_size (doc : list Element) (root : nat) (texDoc : Svg2latex.TeXPicture) :
  Svg2latex.process_svg doc root = Ok texDoc ->
  exists w h fw fh,
    Etree.attrib_of doc root !! "width" = Some w
    /\ float_of_string w = Ok fw
    /\ Etree.attrib_of doc root !! "height" = Some h
    /\ float_of_string h = Ok fh
    /\ Svg2latex.width texDoc = (fw * of_Z 72 / of_Z 90)%Qc
    /\ Svg2latex.height texDoc = (fh * of_Z 72 / of_Z 90)%Qc.
Proof.
  unfold Svg2latex.process_svg. intros H. bind_inv H.
  repeat match goal with
         | E : Etree.getitem _ _ = Ok _ |- _ => apply getitem_ok in E
         end.
  do 4 eexists. repeat (split; [eassumption |]).
  match goal with
  | |- Svg2latex.width _ = ?W /\ Svg2latex.height _ = ?T =>
      apply (for_each_preserves _
               (fun s => Svg2latex.width s = W /\ Svg2latex.height s = T)) in H;
      [exact H | | split; reflexivity]
  end.
  intros x s s' Hx [Hw Hh]. apply interpret_svg_text_size in Hx as [-> ->]. easy.
Qed.

Section PageSize.

Variable format_float : float -> string.
Variable splitext : string -> string * string.
Variable path_join : string -> string -> string.
Variable shutil_copy : string -> string -> result unit.
Variable decode_escaped_string : string -> result string.
Variable read_lines : string -> result (list string).
Variable iterate : gset string -> list string.

Lemma convert_size (svgroot : nat) (svg_dir : string) (doc doc' : list Element)
    (pic : Svg2pdf.TeXPicture) :
  Svg2pdf.convert_svg_to_texpic format_float splitext path_join shutil_copy
    decode_escaped_string read_lines iterate svgroot svg_dir doc = Ok (pic, doc') ->
  exists w h,
    Etree.attrib_of doc svgroot !! "width" = Some w
    /\ Svg2pdf.svg_parse_length w = Ok (Svg2pdf.width pic)
    /\ Etree.attrib_of doc svgroot !! "height" = Some h
    /\ Svg2pdf.svg_parse_length h = Ok (Svg2pdf.height pic).
Proof.
  intros H. apply convert_ok in H
    as (w & h & wv & hv & pic1 & doc1 & doc2 & pic3 & files & text
        & Hw & Hwv & Hh & Hhv & H1 & _ & H3 & ->).
  apply images_loop in H1 as [_ (new1 & (W1 & H1 & _) & _)].
  apply textext_loop in H3 as [_ (new3 & (W3 & H3 & _) & _)].
  simpl in *. exists w, h. rewrite W3, H3, W1, H1. auto.
Qed.

End PageSize.

(** C3 as it is stated fails for svg2pdf.py: the sample document declares
    the width 200, and its page is 200 wide, not 160. *)
Lemma svg2pdf_page_is_not_scaled : ~ page_is_scaled.
Proof.
  intros H. sample_run pic doc' E.
  specialize (H _ _ _ _ _ _ _ _ _ _ _ _ "200" (of_Z 200) E eq_refl).
  assert (Hf : float_of_string "200" = Ok (of_Z 200)) by eval_float.
  specialize (H Hf). revert H. apply feqb_neq. vm_compute. reflexivity.
Qed.

Lemma unitlength_scales (x : float) :
  (Svg2pdf.unitlength * x = x * of_Z 72 / of_Z 90)%Qc.
Proof.
  assert (E : Svg2pdf.unitlength = (of_Z 72 / of_Z 90)%Qc)
    by (apply feqb_eq; vm_compute; reflexivity).
  rewrite E. unfold Qcdiv. ring.
Qed.

(** C3, amended.  svg2latex.py's [process_svg] makes the page's width and
    height the declared numbers times 72 and divided by 90, the picture's
    unit being 1bp.  svg2pdf.py's [convert_svg_to_texpic] makes them the
    declared lengths as [svg_parse_length] resolves them, the declared number
    itself where there is no unit, the picture's unit being 0.8bp: the width
    times the unit is again the declared number times 72/90. *)
Theorem page_size
    (format_float : float -> string) (splitext : string -> string * string)
    (path_join : string -> string -> string) (shutil_copy : string -> string -> result unit)
    (decode_escaped_string : string -> result string)
    (read_lines : string -> result (list string)) (iterate : gset string -> list string)
    (svgroot : nat) (svg_dir : string) (doc : list Element) :
  (forall texDoc,
      Svg2latex.process_svg doc svgroot = Ok texDoc ->
      exists w h fw fh,
        Etree.attrib_of doc svgroot !! "width" = Some w
        /\ float_of_string w = Ok fw
        /\ Etree.attrib_of doc svgroot !! "height" = Some h
        /\ float_of_string h = Ok fh
        /\ Svg2latex.width texDoc = (fw * of_Z 72 / of_Z 90)%Qc
        /\ Svg2latex.height texDoc = (fh * of_Z 72 / of_Z 90)%Qc
        /\ (Svg2latex.unitlength * Svg2latex.width texDoc = fw * of_Z 72 / of_Z 90)%Qc
        /\ (Svg2latex.unitlength * Svg2latex.height texDoc = fh * of_Z 72 / of_Z 90)%Qc)
  /\ (forall pic doc',
         Svg2pdf.convert_svg_to_texpic format_float splitext path_join shutil_copy
           decode_escaped_string read_lines iterate svgroot svg_dir doc = Ok (pic, doc') ->
         exists w h,
           Etree.attrib_of doc svgroot !! "width" = Some w
           /\ Svg2pdf.svg_parse_length w = Ok (Svg2pdf.width pic)
           /\ Etree.attrib_of doc svgroot !! "height" = Some h
           /\ Svg2pdf.svg_parse_length h = Ok (Svg2pdf.height pic)
           /\ (forall value fw,
                  Svg2pdf.RX_LENGTH_match w = Some (value, None) ->
                  float_of_string value = Ok fw ->
                  Svg2pdf.width pic = fw
                  /\ (Svg2pdf.unitlength * Svg2pdf.width pic = fw * of_Z 72 / of_Z 90)%Qc)
           /\ (forall value fh,
                  Svg2pdf.RX_LENGTH_match h = Some (value, None) ->
                  float_of_string value = Ok fh ->
                  Svg2pdf.height pic = fh
                  /\ (Svg2pdf.unitlength * Svg2pdf.height pic = fh * of_Z 72 / of_Z 90)%Qc)).
Proof.
  split.
  - intros texDoc H.
    destruct (process_svg_size doc svgroot texDoc H)
      as (w & h & fw & fh & Hw & Hfw & Hh & Hfh & Hwidth & Hheight).
    exists w, h, fw, fh. repeat (split; [assumption |]).
    rewrite Hwidth, Hheight. unfold Svg2latex.unitlength. split; ring.
  - intros pic doc' H.
    destruct (convert_size _ _ _ _ _ _ _ _ _ _ _ _ H) as (w & h & Hw & Hwv & Hh & Hhv).
    exists w, h. repeat (split; [assumption |]).
    split; intros value f Hm Hf.
    + rewrite (svg_parse_length_without_unit w value f Hm Hf) in Hwv.
      apply Ok_inj in Hwv as <-. split; [reflexivity | apply unitlength_scales].
    + rewrite (svg_parse_length_without_unit h value f Hm Hf) in Hhv.
      apply Ok_inj in Hhv as <-. split; [reflexivity | apply unitlength_scales].
Qed.

Lemma page_size_witness :
  (exists texDoc, Svg2latex.process_svg sample_doc 0 = Ok texDoc
                  /\ Svg2latex.width texDoc = of_Z 160
                  /\ Svg2latex.height texDoc = of_Z 80)
  /\ (exists pic doc', sample_convert sample_doc = Ok (pic, doc')
                       /\ Svg2pdf.width pic = of_Z 200
                       /\ Svg2pdf.height pic = of_Z 100).
Proof.
  destruct (page_size sample_format sample_splitext sample_join sample_copy sample_decode
              sample_read sample_iterate 0 "dir" sample_doc) as [Hlatex Hpdf].
  split.
  - destruct (Svg2latex.process_svg sample_doc 0) as [texDoc | e] eqn:E;
      [| vm_compute in E; discriminate E].
    exists texDoc. split; [reflexivity |].
    destruct (Hlatex texDoc eq_refl)
      as (w & h & fw & fh & Hw & Hfw & Hh & Hfh & -> & -> & _).
    assert (w = "200") as -> by (vm_compute in Hw; congruence).
    assert (h = "100") as -> by (vm_compute in Hh; congruence).
    assert (Efw : float_of_string "200" = Ok (of_Z 200)) by eval_float.
    assert (Efh : float_of_string "100" = Ok (of_Z 100)) by eval_float.
    rewrite Efw in Hfw. rewrite Efh in Hfh.
    apply Ok_inj in Hfw, Hfh. subst fw fh.
    split; apply feqb_eq; vm_compute; reflexivity.
  - sample_run pic doc' E.
    exists pic, doc'. split; [exact E |].
    destruct (Hpdf pic doc' E) as (w & h & Hw & _ & Hh & _ & Hwv & Hhv).
    assert (w = "200") as -> by (vm_compute in Hw; congruence).
    assert (h = "100") as -> by (vm_compute in Hh; congruence).
    assert (Efw : float_of_string "200" = Ok (of_Z 200)) by eval_float.
    assert (Efh : float_of_string "100" = Ok (of_Z 100)) by eval_float.
    destruct (Hwv "200" (of_Z 200) eq_refl Efw) as [Hwidth _].
    destruct (Hhv "100" (of_Z 100) eq_refl Efh) as [Hheight _].
    split; assumption.
Defined.

(** ** The position of the text nodes *)

Section TextPosition.

Variable decode_escaped_string : string -> result string.
Variable read_lines : string -> result (list string).
Variable iterate : gset string -> list string.

Lemma extract_text_ok (svgroot : nat) (pic pic' : Svg2pdf.TeXPicture)
    (doc doc' : list Element) :
  Svg2pdf.extract_text_to_texpic decode_escaped_string read_lines iterate svgroot (pic, doc)
  = Ok (pic', doc') ->
  exists doc1 pic2 files text,
    for_each (Svg2pdf.drop_text pic) (Etree.xpath_all is_text doc svgroot) doc = Ok doc1
    /\ for_each (Svg2pdf.extract_textext decode_escaped_string)
         (Etree.xpath_all has_textext doc1 svgroot) (pic, doc1, ∅) = Ok (pic2, doc', files)
    /\ pic' = Svg2pdf.set_extra_preamble pic2 text.
Proof.
  unfold Svg2pdf.extract_text_to_texpic. intros H. bind_inv H.
  injection H as <- <-. do 4 eexists. repeat split; eassumption.
Qed.

End TextPosition.

Lemma sample_text_eq :
  Svg2pdf.extract_text_to_texpic sample_decode sample_read sample_iterate 0
    (sample_page, sample_doc) = sample_text_result.
Proof. vm_compute. reflexivity. Qed.

(** C9. Each iteration over a [textext] element appends one node whose
    transform is the element's accumulated transform and whose page position
    is the translation part [t] of that transform with the second coordinate
    counted from the page's height, [(t.x, height - t.y)]; so do all the nodes
    that [extract_text_to_texpic] appends; and two nodes whose transforms have
    the same translation part have the same position, whatever the linear
    parts are. *)
Theorem text_position_is_translation
    (decode_escaped_string : string -> result string)
    (read_lines : string -> result (list string)) (iterate : gset string -> list string) :
  (forall el pic doc files pic' doc' files',
      Svg2pdf.extract_textext decode_escaped_string el (pic, doc, files)
      = Ok (pic', doc', files') ->
      exists xf node,
        Svg2pdf.svg_find_accumulated_transform doc el = Ok xf
        /\ Svg2pdf.nodes pic' = Svg2pdf.nodes pic ++ [node]
        /\ Svg2pdf.xform node = xf
        /\ Svg2pdf.tex_pos node
           = (fst (Affine.t xf), (Svg2pdf.height pic - snd (Affine.t xf))%Qc))
  /\ (forall svgroot pic doc pic' doc',
         Svg2pdf.extract_text_to_texpic decode_escaped_string read_lines iterate svgroot
           (pic, doc) = Ok (pic', doc') ->
         exists new,
           Svg2pdf.nodes pic' = Svg2pdf.nodes pic ++ new
           /\ Svg2pdf.height pic' = Svg2pdf.height pic
           /\ Forall (at_translation (Svg2pdf.height pic)) new)
  /\ (forall page_height n1 n2,
         at_translation page_height n1 ->
         at_translation page_height n2 ->
         Affine.t (Svg2pdf.xform n1) = Affine.t (Svg2pdf.xform n2) ->
         Svg2pdf.tex_pos n1 = Svg2pdf.tex_pos n2).
Proof.
  split; [| split].
  - intros el pic doc files pic' doc' files' H.
    apply extract_textext_ok in H as (xf & node & Hxf & Hx & Hpos & -> & _).
    exists xf, node. auto.
  - intros svgroot pic doc pic' doc' H.
    apply extract_text_ok in H as (doc1 & pic2 & files & text & _ & H & ->).
    apply textext_loop in H as [_ (new & (_ & Hh & Hn) & _ & Hall)].
    exists new. auto.
  - unfold at_translation. intros page_height n1 n2 -> -> ->. reflexivity.
Qed.

Lemma text_position_is_translation_witness :
  exists pic' doc' node,
    Svg2pdf.extract_text_to_texpic sample_decode sample_read sample_iterate 0
      (sample_page, sample_doc) = Ok (pic', doc')
    /\ Svg2pdf.nodes pic' = [node]
    /\ Affine.m (Svg2pdf.xform node) = (0, 1, - (1), 0)%Qc
    /\ Svg2pdf.tex_pos node = (of_Z 17, of_Z 72).
Proof.
  pose proof sample_text_eq as E. unfold sample_text_result in E.
  match type of E with
  | _ = Ok (?p, ?d) => set (pic' := p) in *; set (doc' := d) in *
  end.
  destruct (text_position_is_translation sample_decode sample_read sample_iterate)
    as (_ & Hall & _).
  destruct (Hall 0 sample_page sample_doc pic' doc' E) as (new & Hn & _ & Hpos).
  destruct (Svg2pdf.nodes pic') as [| node [| ? ?]] eqn:En; try discriminate En.
  exists pic', doc', node. split; [exact E |]. split; [exact En |].
  simpl in Hn. subst new. apply Forall_inv in Hpos. unfold at_translation in Hpos.
  injection En as <-.
  split; [apply f_equal2; [apply f_equal2; [apply f_equal2 |] |]; apply feqb_eq; vm_compute; reflexivity |].
  rewrite Hpos. eval_pair.
Defined.

(** ** The attributes of an image element *)

Lemma ns_attrib_href : ns_attrib "xlink:href" = Ok href_key.
Proof. vm_compute. reflexivity. Qed.

Lemma getitem_some {V : Type} (d : gmap string V) (key : string) (v : V) :
  d !! key = Some v -> Etree.getitem d key = Ok v.
Proof. unfold Etree.getitem. now intros ->. Qed.

Lemma get_missing (d : gmap string string) (key default : string) :
  d !! key = None -> Etree.get d key default = default.
Proof. unfold Etree.get. now intros ->. Qed.

Lemma svg_parse_length_zero : Svg2pdf.svg_parse_length "0" = Ok 0%Qc.
Proof. eval_float. Qed.

Section ImageAttributes.

Variable format_float : float -> string.
Variable splitext : string -> string * string.
Variable path_join : string -> string -> string.
Variable shutil_copy : string -> string -> result unit.

Let extract_image := Svg2pdf.extract_image format_float splitext path_join shutil_copy.

Lemma extract_image_no_width (svg_dir : string) (el : nat) (pic : Svg2pdf.TeXPicture)
    (doc : list Element) :
  Etree.attrib_of doc el !! "width" = None ->
  extract_image svg_dir el (pic, doc) = Raise (KeyError "width").
Proof.
  intros H. unfold extract_image, Svg2pdf.extract_image.
  now rewrite (getitem_missing _ _ H).
Qed.

Lemma extract_image_no_height (svg_dir : string) (el : nat) (pic : Svg2pdf.TeXPicture)
    (doc : list Element) :
  Etree.attrib_of doc el !! "height" = None ->
  exists e, extract_image svg_dir el (pic, doc) = Raise e.
Proof.
  intros H. unfold extract_image, Svg2pdf.extract_image.
  destruct (Etree.getitem (Etree.attrib_of doc el) "width") as [w | e]; simpl; [| eauto].
  destruct (Svg2pdf.svg_parse_length w) as [wv | e]; simpl; [| eauto].
  rewrite (getitem_missing _ _ H). simpl. eauto.
Qed.

Lemma images_loop_fails (svg_dir : string) (el : nat) (l : list nat) :
  forall pic doc,
    In el l ->
    Etree.attrib_of doc el !! "width" = None \/ Etree.attrib_of doc el !! "height" = None ->
    exists e, for_each (extract_image svg_dir) l (pic, doc) = Raise e.
Proof.
  induction l as [| x l IH]; intros pic doc Hin Hmiss; [destruct Hin |].
  cbn [for_each].
  destruct (extract_image svg_dir x (pic, doc)) as [[pic1 doc1] | e] eqn:E;
    cbn [rbind]; [| eauto].
  destruct Hin as [-> | Hin].
  - destruct Hmiss as [Hm | Hm].
    + rewrite (extract_image_no_width svg_dir el pic doc Hm) in E. discriminate E.
    + destruct (extract_image_no_height svg_dir el pic doc Hm) as [e He].
      rewrite He in E. discriminate E.
  - apply IH; [exact Hin |].
    apply extract_image_ok in E
      as (? & ? & ? & ? & ? & ? & ? & ? & _ & _ & _ & _ & _ & _ & _ & _ & _ & _ & _ & Hr).
    apply remove_ok in Hr as [-> [p Hp]].
    assert (Hsame : Etree.attrib_of (alter Etree.unlink x doc) el = Etree.attrib_of doc el).
    { unfold Etree.getparent in Hp. destruct (doc !! x) as [ex |] eqn:Ex; [| discriminate].
      apply (pruned_attrib (fun _ => true) doc). now apply (pruned_alter _ doc x ex). }
    now rewrite Hsame.
Qed.

Lemma extract_image_succeeds (svg_dir : string) (el p : nat) (pic : Svg2pdf.TeXPicture)
    (doc : list Element) (w h path : string) (wv hv x y : float) (xf : AffineTransform) :
  Etree.attrib_of doc el !! "width" = Some w ->
  Svg2pdf.svg_parse_length w = Ok wv ->
  Etree.attrib_of doc el !! "height" = Some h ->
  Svg2pdf.svg_parse_length h = Ok hv ->
  Svg2pdf.svg_find_accumulated_transform doc el = Ok xf ->
  Svg2pdf.svg_parse_length (Etree.get (Etree.attrib_of doc el) "x" "0") = Ok x ->
  Svg2pdf.svg_parse_length (Etree.get (Etree.attrib_of doc el) "y" "0") = Ok y ->
  Etree.attrib_of doc el !! href_key = Some path ->
  shutil_copy (path_join svg_dir path) ("image" ++ "1" ++ snd (splitext path))%string
  = Ok tt ->
  Etree.getparent doc el = Some p ->
  exists node,
    extract_image svg_dir el (pic, doc)
    = Ok (Svg2pdf.append_node pic node, alter Etree.unlink el doc)
    /\ Svg2pdf.svg_pos node = Some (x, y)
    /\ Svg2pdf.tex_pos node
       = (fst (Affine.applyTo xf x y),
          (Svg2pdf.height pic - snd (Affine.applyTo xf x y) - hv)%Qc).
Proof.
  intros Hw Hwv Hh Hhv Hxf Hx Hy Hp Hc Hparent.
  unfold extract_image, Svg2pdf.extract_image.
  rewrite (getitem_some _ _ _ Hw). cbn [rbind]. rewrite Hwv. cbn [rbind].
  rewrite (getitem_some _ _ _ Hh). cbn [rbind]. rewrite Hhv. cbn [rbind].
  rewrite Hxf. cbn [rbind]. rewrite Hx. cbn [rbind]. rewrite Hy. cbn [rbind].
  destruct (Affine.applyTo xf x y) as [x' y'] eqn:Eapp.
  rewrite ns_attrib_href. cbn [rbind]. rewrite (getitem_some _ _ _ Hp). cbn [rbind].
  destruct (splitext path) as [base image_ext] eqn:Esplit.
  cbn [snd] in Hc. cbv zeta. rewrite Hc. cbn [rbind].
  unfold Etree.remove. rewrite Hparent. cbn [rbind].
  eexists. split; [reflexivity |]. simpl. auto.
Qed.

End ImageAttributes.

(** C10. In the loop over the image elements, a missing [x] or [y] is read
    as ["0"], which resolves to 0, and the iteration succeeds when the size,
    the transforms, the file reference and the copy are in order; a missing
    [width] raises [KeyError], a missing [height] raises too, and then the
    whole loop raises. *)
Theorem image_needs_size_not_position
    (format_float : float -> string) (splitext : string -> string * string)
    (path_join : string -> string -> string) (shutil_copy : string -> string -> result unit)
    (svg_dir : string) (pic : Svg2pdf.TeXPicture) (doc : list Element) (el : nat) :
  let a := Etree.attrib_of doc el in
  let extract_image := Svg2pdf.extract_image format_float splitext path_join shutil_copy in
  (a !! "x" = None -> Svg2pdf.svg_parse_length (Etree.get a "x" "0") = Ok 0%Qc)
  /\ (a !! "y" = None -> Svg2pdf.svg_parse_length (Etree.get a "y" "0") = Ok 0%Qc)
  /\ (forall p w h path wv hv x y xf,
         a !! "width" = Some w -> Svg2pdf.svg_parse_length w = Ok wv ->
         a !! "height" = Some h -> Svg2pdf.svg_parse_length h = Ok hv ->
         Svg2pdf.svg_find_accumulated_transform doc el = Ok xf ->
         Svg2pdf.svg_parse_length (Etree.get a "x" "0") = Ok x ->
         Svg2pdf.svg_parse_length (Etree.get a "y" "0") = Ok y ->
         a !! href_key = Some path ->
         shutil_copy (path_join svg_dir path) ("image" ++ "1" ++ snd (splitext path))%string
         = Ok tt ->
         Etree.getparent doc el = Some p ->
         exists node,
           extract_image svg_dir el (pic, doc)
           = Ok (Svg2pdf.append_node pic node, alter Etree.unlink el doc)
           /\ Svg2pdf.svg_pos node = Some (x, y)
           /\ Svg2pdf.tex_pos node
              = (fst (Affine.applyTo xf x y),
                 (Svg2pdf.height pic - snd (Affine.applyTo xf x y) - hv)%Qc))
  /\ (a !! "width" = None -> extract_image svg_dir el (pic, doc) = Raise (KeyError "width"))
  /\ (a !! "height" = None -> exists e, extract_image svg_dir el (pic, doc) = Raise e)
  /\ (forall svgroot,
         In el (Etree.xpath_all is_image doc svgroot) ->
         a !! "width" = None \/ a !! "height" = None ->
         exists e,
           Svg2pdf.extract_images_to_texpic format_float splitext path_join shutil_copy
             svgroot svg_dir (pic, doc) = Raise e).
Proof.
  intros a extract_image. subst a extract_image.
  split; [| split; [| split; [| split; [| split]]]].
  - intros H. rewrite (get_missing _ _ _ H). apply svg_parse_length_zero.
  - intros H. rewrite (get_missing _ _ _ H). apply svg_parse_length_zero.
  - intros p w h path wv hv x y xf. apply extract_image_succeeds.
  - apply extract_image_no_width.
  - apply extract_image_no_height.
  - intros svgroot Hin Hmiss. unfold Svg2pdf.extract_images_to_texpic.
    now apply images_loop_fails with (el := el).
Qed.

Lemma image_needs_size_not_position_witness :
  (exists node,
      Svg2pdf.extract_images_to_texpic sample_format sample_splitext sample_join
        sample_copy 0 "dir" (sample_page, image_without_position)
      = Ok (Svg2pdf.append_node sample_page node,
            alter Etree.unlink 1 image_without_position)
      /\ Svg2pdf.svg_pos node = Some (0, 0)%Qc)
  /\ (exists e,
         Svg2pdf.extract_images_to_texpic sample_format sample_splitext sample_join
           sample_copy 0 "dir" (sample_page, image_without_width)
         = Raise e).
Proof.
  split.
  - destruct (image_needs_size_not_position sample_format sample_splitext sample_join
                sample_copy "dir" sample_page image_without_position 1)
      as (Hx & Hy & Hok & _).
    destruct (Hok 0 "30" "40" "pic.png" (of_Z 30) (of_Z 40) 0%Qc 0%Qc Affine.identity)
      as (node & Hrun & Hpos & _).
    + reflexivity.
    + eval_float.
    + reflexivity.
    + eval_float.
    + eval_affine.
    + apply Hx. reflexivity.
    + apply Hy. reflexivity.
    + reflexivity.
    + reflexivity.
    + reflexivity.
    + exists node. split; [| exact Hpos].
      unfold Svg2pdf.extract_images_to_texpic.
      change (Etree.xpath_all is_image (snd (sample_page, image_without_position)) 0)
        with [1].
      cbn [for_each]. rewrite Hrun. reflexivity.
  - destruct (image_needs_size_not_position sample_format sample_splitext sample_join
                sample_copy "dir" sample_page image_without_width 1)
      as (_ & _ & _ & _ & _ & Hfail).
    apply (Hfail 0); [vm_compute; auto | left; reflexivity].
Defined.

(** ** One image and one annotation *)

Lemma xpath_all_pruned (P p : Element -> bool) (doc doc' : list Element) (root a : nat) :
  stable p ->
  pruned P doc doc' ->
  Etree.getparent doc root = None ->
  Etree.xpath_all p doc root = [a] ->
  all_above (not_in P) (S a) doc a = true ->
  Etree.xpath_all p doc' root = [a].
Proof.
  intros Hp Hpr Hroot Hx Ha. rewrite <- Hx. unfold Etree.xpath_all.
  rewrite (pruned_length P doc doc' Hpr). apply filter_ext_in. intros el _.
  rewrite (pruned_class P p doc doc' el Hp Hpr).
  destruct (match doc !! el with Some e => p e | None => false end) eqn:Ec;
    [| now rewrite !andb_false_r].
  rewrite !andb_true_r.
  destruct (Etree.in_tree doc root el) eqn:Et.
  - assert (Hin : In el (Etree.xpath_all p doc root)).
    { apply xpath_all_In. destruct (doc !! el) as [e |]; [eauto | discriminate]. }
    rewrite Hx in Hin. destruct Hin as [<- | []].
    rewrite <- Et. now apply (in_tree_kept P doc doc' Hpr root Hroot).
  - destruct (Etree.in_tree doc' root el) eqn:Et'; [| reflexivity].
    apply (in_tree_after P doc doc' Hpr root Hroot) in Et'. congruence.
Qed.

(** C5 as it is worded fails: in [annotation_in_image] the annotated element
    lies inside the image element, it leaves the tree with the image, and
    the page has two nodes. *)
Lemma annotation_in_image_gets_no_node : ~ three_nodes_in_order.
Proof.
  intros H.
  destruct (sample_convert annotation_in_image) as [[pic doc'] | e] eqn:E;
    [| vm_compute in E; discriminate E].
  destruct (H sample_format sample_splitext sample_join sample_copy sample_decode
              sample_read sample_iterate 0 "dir" annotation_in_image pic doc' 1 2)
    as (image_node & text_node & Hn & _); [reflexivity .. | exact E |].
  apply (f_equal (fun r => match r with
                           | Ok (p, _) => length (Svg2pdf.nodes p)
                           | Raise _ => 0
                           end)) in E.
  cbv beta iota in E. rewrite Hn in E. vm_compute in E. discriminate E.
Qed.

(** C5. Take a document whose root has no parent, with exactly one image
    element [i] and exactly one element [a] carrying [textext:text] in its
    tree.  If the conversion succeeds, neither element is in the tree of the
    root any more.  When [a] is neither inside nor itself an image or a plain
    [text] element, the page's nodes are, in this order, the image's node,
    the background node and the text's node, each with the accumulated
    transform of its element.  When [a] is inside or itself an image or a
    plain [text] element (the document being in document order), the page's
    nodes are the image's node and the background node only. *)
Theorem one_image_one_annotation
    (format_float : float -> string) (splitext : string -> string * string)
    (path_join : string -> string -> string) (shutil_copy : string -> string -> result unit)
    (decode_escaped_string : string -> result string)
    (read_lines : string -> result (list string)) (iterate : gset string -> list string)
    (svgroot : nat) (svg_dir : string) (doc doc' : list Element) (pic : Svg2pdf.TeXPicture)
    (i a : nat) :
  Etree.getparent doc svgroot = None ->
  Etree.xpath_all is_image doc svgroot = [i] ->
  Etree.xpath_all has_textext doc svgroot = [a] ->
  Svg2pdf.convert_svg_to_texpic format_float splitext path_join shutil_copy
    decode_escaped_string read_lines iterate svgroot svg_dir doc = Ok (pic, doc') ->
  Etree.in_tree doc' svgroot i = false
  /\ Etree.in_tree doc' svgroot a = false
  /\ (all_above (not_in image_or_text) (S a) doc a = true ->
      exists image_node text_node,
        Svg2pdf.nodes pic = [image_node; Svg2pdf.bgnode; text_node]
        /\ Svg2pdf.svg_find_accumulated_transform doc i = Ok (Svg2pdf.xform image_node)
        /\ (exists x y, Svg2pdf.svg_pos image_node = Some (x, y))
        /\ Svg2pdf.svg_find_accumulated_transform doc a = Ok (Svg2pdf.xform text_node)
        /\ at_translation (Svg2pdf.height pic) text_node)
  /\ (Etree.wf_document doc ->
      all_above (not_in image_or_text) (S a) doc a = false ->
      exists image_node,
        Svg2pdf.nodes pic = [image_node; Svg2pdf.bgnode]
        /\ Svg2pdf.svg_find_accumulated_transform doc i = Ok (Svg2pdf.xform image_node)
        /\ (exists x y, Svg2pdf.svg_pos image_node = Some (x, y))).
Proof.
  intros Hroot Hi Ha Hrun.
  assert (Hi_in : exists e, doc !! i = Some e /\ is_image e = true).
  { apply (xpath_all_class is_image doc svgroot). rewrite Hi. now left. }
  destruct Hi_in as (ei & Ei & Hei).
  assert (Ha_in : exists e, doc !! a = Some e /\ has_textext e = true).
  { apply (xpath_all_class has_textext doc svgroot). rewrite Ha. now left. }
  destruct Ha_in as (ea & Ea & Hea).
  split; [| split].
  { apply (extracted_leave _ _ _ _ _ _ _ svgroot svg_dir doc doc' pic i ei Hrun Hroot Ei).
    unfold extracted. now rewrite Hei. }
  { apply (extracted_leave _ _ _ _ _ _ _ svgroot svg_dir doc doc' pic a ea Hrun Hroot Ea).
    unfold extracted. rewrite Hea. apply orb_true_r. }
  apply convert_ok in Hrun
    as (w & h & wv & hv & pic1 & doc1 & doc2 & pic3 & files & text
        & _ & _ & _ & _ & H1 & H2 & H3 & ->).
  pose proof (for_each_removes snd _
                (extract_image_removes format_float splitext path_join shutil_copy svg_dir)
                _ _ _ H1) as P1.
  pose proof (for_each_removes (fun d => d) _ (drop_text_ok _) _ _ _ H2) as P2.
  simpl in P1, P2.
  (* the image *)
  rewrite Hi in H1. cbn [for_each] in H1.
  destruct (Svg2pdf.extract_image format_float splitext path_join shutil_copy svg_dir i
              (Svg2pdf.mkPicture wv hv [] "", doc)) as [[pic1' doc1'] | e] eqn:E1;
    cbn [rbind] in H1; [| discriminate].
  injection H1 as -> ->.
  apply extract_image_ok in E1
    as (? & ? & ? & hi & xfi & x & y & inode & _ & _ & _ & _ & Hxfi & _ & _ & _ & Hxi & Hsi
        & -> & Hri).
  apply remove_ok in Hri as [-> [pi Hpi]].
  (* the plain text elements *)
  apply text_loop in H2 as ->.
  set (doc1 := alter Etree.unlink i doc) in *.
  set (doc2 := unlink_all (Etree.xpath_all is_text doc1 svgroot) doc1) in *.
  assert (Hpr1 : pruned image_or_text doc doc1).
  { apply (pruned_weaken is_image); [| now apply (pruned_alter is_image doc i ei)].
    intros e He. unfold image_or_text. now rewrite He. }
  assert (Hpr12 : pruned image_or_text doc1 doc2).
  { apply (pruned_weaken is_text); [| apply pruned_xpath, stable_is_text].
    intros e He. unfold image_or_text. rewrite He. apply orb_true_r. }
  assert (Hpr2 : pruned image_or_text doc doc2).
  { apply (pruned_trans image_or_text doc doc1 doc2); [now intros e | assumption ..]. }
  split.
  - (* the annotation is found *)
    intros Hout.
    rewrite (xpath_all_pruned image_or_text has_textext doc doc2 svgroot a
               stable_has_textext Hpr2 Hroot Ha Hout) in H3.
    cbn [for_each] in H3.
    destruct (Svg2pdf.extract_textext decode_escaped_string a
                (Svg2pdf.append_node (Svg2pdf.append_node (Svg2pdf.mkPicture wv hv [] "") inode)
                   Svg2pdf.bgnode, doc2, ∅)) as [[[pic3' doc3'] files'] | e] eqn:E3;
      cbn [rbind] in H3; [| discriminate].
    injection H3 as -> -> ->.
    apply extract_textext_ok in E3 as (xfa & anode & Hxfa & Hxa & Hposa & -> & Hra).
    exists inode, anode. repeat split.
    + now rewrite Hxi.
    + eauto.
    + rewrite Hxa, <- Hxfa.
      unfold Svg2pdf.svg_find_accumulated_transform, accumulated_transform. symmetry.
      apply (walk_up_kept image_or_text doc doc2 Hpr2).
      now apply all_above_fewer.
    + unfold at_translation. now rewrite Hposa, Hxa.
  - (* the annotation has left the tree with the element above it *)
    intros Hwf Hin.
    assert (Hgone : Etree.in_tree doc2 svgroot a = false).
    { subst doc2 doc1. rewrite Hi in P1.
      pose proof (below_image_or_text_leave svgroot doc a) as Hb.
      rewrite Hi in Hb. apply Hb; assumption. }
    assert (Hnone : Etree.xpath_all has_textext doc2 svgroot = []).
    { destruct (Etree.xpath_all has_textext doc2 svgroot) as [| z l] eqn:El; [reflexivity |].
      exfalso.
      assert (Hz : In z (Etree.xpath_all has_textext doc2 svgroot)) by (rewrite El; now left).
      apply xpath_all_In in Hz as (ez & Ez & Hez & Tz).
      assert (Hza : In z (Etree.xpath_all has_textext doc svgroot)).
      { apply xpath_all_In.
        pose proof (pruned_class image_or_text has_textext doc doc2 z
                      stable_has_textext Hpr2) as Hc.
        rewrite Ez, Hez in Hc.
        destruct (doc !! z) as [e0 |]; [| discriminate Hc].
        exists e0. split; [reflexivity | split; [now symmetry |]].
        exact (in_tree_after image_or_text doc doc2 Hpr2 svgroot Hroot z Tz). }
      rewrite Ha in Hza. destruct Hza as [<- | []]. congruence. }
    rewrite Hnone in H3. cbn [for_each] in H3. injection H3 as <- _ _.
    exists inode. repeat split.
    + now rewrite Hxi.
    + eauto.
Qed.

Lemma one_image_one_annotation_witness :
  (exists pic doc' image_node text_node,
      sample_convert sample_doc = Ok (pic, doc')
      /\ Svg2pdf.nodes pic = [image_node; Svg2pdf.bgnode; text_node]
      /\ Etree.in_tree doc' 0 2 = false
      /\ Etree.in_tree doc' 0 3 = false)
  /\ (exists pic doc' image_node,
         sample_convert annotation_in_text = Ok (pic, doc')
         /\ Svg2pdf.nodes pic = [image_node; Svg2pdf.bgnode]
         /\ Etree.in_tree doc' 0 1 = false
         /\ Etree.in_tree doc' 0 3 = false).
Proof.
  split.
  - sample_run pic doc' E.
    destruct (one_image_one_annotation sample_format sample_splitext sample_join sample_copy
                sample_decode sample_read sample_iterate 0 "dir" sample_doc doc' pic 2 3)
      as (Hi & Ha & Hthree & _);
      [reflexivity | reflexivity | reflexivity | exact E |].
    destruct (Hthree eq_refl) as (image_node & text_node & Hn & _).
    exists pic, doc', image_node, text_node. auto.
  - destruct (sample_convert annotation_in_text) as [[pic doc'] | e] eqn:E;
      [| vm_compute in E; discriminate E].
    destruct (one_image_one_annotation sample_format sample_splitext sample_join sample_copy
                sample_decode sample_read sample_iterate 0 "dir" annotation_in_text doc' pic
                1 3)
      as (Hi & Ha & _ & Htwo);
      [reflexivity | reflexivity | reflexivity | exact E |].
    destruct (Htwo (wf_documentb_sound annotation_in_text eq_refl) eq_refl)
      as (image_node & Hn & _).
    exists pic, doc', image_node. auto.
Defined.

(** ** Separators in transform arguments *)

Lemma span_spec (p : ascii -> bool) (l : list ascii) :
  forall a b,
    span p l = (a, b) ->
    l = a ++ b
    /\ Forall (fun c => p c = true) a
    /\ match b with [] => True | c :: _ => p c = false end.
Proof.
  induction l as [| c l IH]; intros a b H; simpl in H.
  - injection H as <- <-. auto.
  - destruct (p c) eqn:Ec.
    + destruct (span p l) as [pre post]. injection H as <- <-.
      destruct (IH pre post eq_refl) as (-> & Hpre & Hpost). auto.
    + injection H as <- <-. auto.
Qed.

Lemma span_app (p : ascii -> bool) (a b : list ascii) :
  Forall (fun c => p c = true) a ->
  match b with [] => True | c :: _ => p c = false end ->
  span p (a ++ b) = (a, b).
Proof.
  intros Ha Hb. induction Ha as [| c a Hc Ha IH]; simpl.
  - destruct b as [| c b]; [reflexivity |]. simpl. now rewrite Hb.
  - now rewrite Hc, IH.
Qed.

(** A text without commas has no other variant than itself. *)
Lemma variant_without_comma (l l' : list ascii) :
  Forall2 separator_variant l l' ->
  Forall (fun c => c <> ","%char) l ->
  l' = l.
Proof.
  induction 1 as [| c c' l l' Hc Hl IH]; intros Hno; [reflexivity |].
  apply Forall_cons_1 in Hno as [Hc' Hno].
  destruct Hc as [-> | [-> _]]; [| contradiction].
  f_equal. now apply IH.
Qed.

Lemma class_without_comma (p : ascii -> bool) (l : list ascii) :
  p ","%char = false ->
  Forall (fun c => p c = true) l ->
  Forall (fun c => c <> ","%char) l.
Proof.
  intros Hp H. eapply Forall_impl; [exact H |]. intros c Hc ->. congruence.
Qed.

Lemma variant_args (l l' : list ascii) :
  Forall2 separator_variant l l' ->
  Forall (fun c => is_arg_svg2pdf c = true) l ->
  Forall (fun c => is_arg_svg2pdf c = true) l'.
Proof.
  induction 1 as [| c c' l l' Hc Hl IH]; intros Hargs; [constructor |].
  apply Forall_cons_1 in Hargs as [Hc' Hargs].
  constructor; [| now apply IH].
  destruct Hc as [-> | [-> Hs]]; [exact Hc' |].
  unfold is_arg_svg2pdf. rewrite Hs. now rewrite !orb_true_r.
Qed.

(** The shape of a text that [RX_TRANSFORM] matches. *)
Lemma match_transform_spec (is_arg : ascii -> bool) (l func args : list ascii) :
  match_transform is_arg l = Some (func, args) ->
  exists ws ws',
    l = ws ++ func ++ "("%char :: args ++ ")"%char :: ws'
    /\ Forall (fun c => is_space c = true) ws
    /\ Forall (fun c => is_word c = true) func
    /\ func <> []
    /\ Forall (fun c => is_arg c = true) args
    /\ Forall (fun c => is_space c = true) ws'.
Proof.
  unfold match_transform, lstrip. intros H.
  destruct (span is_space l) as [ws l0] eqn:E0. simpl in H.
  destruct (span is_word l0) as [[| f func'] [| c l1]] eqn:E1; try discriminate H.
  destruct (Ascii.eqb c "(") eqn:Ec; [| discriminate H]. apply Ascii.eqb_eq in Ec as ->.
  destruct (span is_arg l1) as [args' [| c' l2]] eqn:E2; [discriminate H |].
  destruct (Ascii.eqb c' ")") eqn:Ec'; [| discriminate H]. apply Ascii.eqb_eq in Ec' as ->.
  destruct (span is_space l2) as [ws' rest] eqn:E3. simpl in H.
  destruct rest; [| discriminate H]. injection H as <- <-.
  apply span_spec in E0 as (-> & Hws & _).
  apply span_spec in E1 as (-> & Hfunc & _).
  apply span_spec in E2 as (-> & Hargs & _).
  apply span_spec in E3 as (-> & Hws' & _).
  exists ws, ws'. rewrite app_nil_r. repeat split; auto.
Qed.

Lemma match_transform_complete (is_arg : ascii -> bool) (ws func args ws' : list ascii) :
  is_arg ")"%char = false ->
  Forall (fun c => is_space c = true) ws ->
  Forall (fun c => is_word c = true) func ->
  func <> [] ->
  Forall (fun c => is_arg c = true) args ->
  Forall (fun c => is_space c = true) ws' ->
  match_transform is_arg (ws ++ func ++ "("%char :: args ++ ")"%char :: ws')
  = Some (func, args).
Proof.
  intros Hclose Hws Hfunc Hne Hargs Hws'.
  unfold match_transform, lstrip.
  destruct func as [| f func]; [contradiction |].
  rewrite (span_app is_space ws); [| exact Hws |].
  2: { simpl. apply Forall_cons_1 in Hfunc as [Hf _].
       destruct (is_space f) eqn:Es; [| reflexivity].
       revert Hf Es. unfold is_word, is_space, is_digit, in_range.
       destruct (Ascii.eqb_spec f "_") as [-> | _]; [discriminate |].
       rewrite orb_false_r.
       repeat match goal with
              | |- context [(?a <=? ?b)%nat] => destruct (Nat.leb_spec a b)
              end; simpl; intros; try discriminate; lia. }
  cbn [snd].
  rewrite (span_app is_word (f :: func) ("("%char :: args ++ ")"%char :: ws'));
    [| exact Hfunc | reflexivity].
  change (Ascii.eqb "(" "(") with true. cbv iota beta.
  rewrite (span_app is_arg args (")"%char :: ws')); [| exact Hargs | exact Hclose].
  change (Ascii.eqb ")" ")") with true. cbv iota beta.
  rewrite <- (app_nil_r ws') at 1.
  rewrite (span_app is_space ws' []); [reflexivity | exact Hws' | exact I].
Qed.

Lemma split_runs_spaces (l l' : list ascii) :
  Forall2 same_up_to_space l l' ->
  forall cur, split_runs cur l = split_runs cur l'.
Proof.
  induction 1 as [| c c' l l' Hc Hl IH]; intros cur; [reflexivity |].
  simpl. destruct Hc as [-> | [Hs Hs']].
  - destruct (is_space c'); [destruct cur; now rewrite IH | apply IH].
  - rewrite Hs, Hs'. destruct cur; now rewrite IH.
Qed.

Lemma replace_comma_variant (l l' : list ascii) :
  Forall2 separator_variant l l' ->
  Forall2 same_up_to_space (replace_chars "," " " l) (replace_chars "," " " l').
Proof.
  induction 1 as [| c c' l l' Hc Hl IH]; simpl; constructor; try assumption.
  destruct Hc as [-> | [-> Hs]]; [now left |].
  right. destruct (Ascii.eqb_spec c' ",") as [-> | _]; [discriminate Hs |].
  split; [reflexivity | exact Hs].
Qed.

Lemma build_transform_attribute
    (scale : AffineTransform -> float -> float -> AffineTransform)
    (attribute attribute' func : string) (args : list float) (xf : AffineTransform) :
  build_transform scale attribute func args = Ok xf ->
  build_transform scale attribute' func args = Ok xf.
Proof.
  unfold build_transform.
  destruct (String.eqb func "matrix"); [auto |].
  destruct (String.eqb func "translate"); [auto |].
  destruct (String.eqb func "scale"); [auto | discriminate].
Qed.

Lemma match_transform_variant (l l' func args : list ascii) :
  Forall2 separator_variant l l' ->
  match_transform is_arg_svg2pdf l = Some (func, args) ->
  exists args',
    match_transform is_arg_svg2pdf l' = Some (func, args')
    /\ Forall2 separator_variant args args'.
Proof.
  intros Hv Hm.
  apply match_transform_spec in Hm as (ws & ws' & -> & Hws & Hfunc & Hne & Hargs & Hws').
  apply Forall2_app_inv_l in Hv as (ws1 & r1 & Hv1 & Hv & ->).
  apply Forall2_app_inv_l in Hv as (func1 & r2 & Hv2 & Hv & ->).
  apply Forall2_cons_inv_l in Hv as (c1 & r3 & Hc1 & Hv & ->).
  apply Forall2_app_inv_l in Hv as (args1 & r4 & Hv3 & Hv & ->).
  apply Forall2_cons_inv_l in Hv as (c2 & ws1' & Hc2 & Hv4 & ->).
  apply variant_without_comma in Hv1 as ->;
    [| now apply (class_without_comma is_space)].
  apply variant_without_comma in Hv2 as ->;
    [| now apply (class_without_comma is_word)].
  apply variant_without_comma in Hv4 as ->;
    [| now apply (class_without_comma is_space)].
  destruct Hc1 as [<- | [Hc1 _]]; [| discriminate Hc1].
  destruct Hc2 as [<- | [Hc2 _]]; [| discriminate Hc2].
  exists args1. split; [| exact Hv3].
  apply match_transform_complete; auto.
  now apply (variant_args args args1).
Qed.

(** X26. svg2pdf.py: a transform text that parses keeps its meaning when
    some of its commas are replaced by white space. *)
Lemma svg2pdf_separators (s s' : string) (xf : AffineTransform) :
  separators_varied s s' ->
  Svg2pdf.svg_parse_transform s = Ok xf ->
  Svg2pdf.svg_parse_transform s' = Ok xf.
Proof.
  unfold separators_varied, Svg2pdf.svg_parse_transform, Svg2pdf.RX_TRANSFORM,
    RX_TRANSFORM_match.
  intros Hv H.
  destruct (match_transform is_arg_svg2pdf (list_ascii_of_string s))
    as [[func args] |] eqn:Em; [| discriminate H].
  destruct (match_transform_variant _ _ func args Hv Em) as (args' & -> & Hargs).
  assert (Htok : Svg2pdf.argument_tokens (string_of_list_ascii args')
                 = Svg2pdf.argument_tokens (string_of_list_ascii args)).
  { unfold Svg2pdf.argument_tokens, split, replace.
    rewrite !list_ascii_of_string_of_list_ascii. f_equal. symmetry.
    apply split_runs_spaces. now apply replace_comma_variant. }
  rewrite Htok.
  destruct (rmap (fun x => float_of_string (strip x))
              (Svg2pdf.argument_tokens (string_of_list_ascii args))) as [floats | e];
    [| discriminate H].
  cbn [rbind] in *. now apply (build_transform_attribute _ s s').
Qed.

Example svg2pdf_separators_mixed :
  Svg2pdf.svg_parse_transform "matrix(1 0,0 1 , +2.5e1,-.5E-1)"
  = Ok (Affine.mk (of_Z 25, of_frac (-1) 20) (1, 0, 0, 1)%Qc)
  /\ Svg2pdf.svg_parse_transform "matrix(1,0,0,1,+2.5e1,-.5E-1)"
     = Ok (Affine.mk (of_Z 25, of_frac (-1) 20) (1, 0, 0, 1)%Qc).
Proof. split; eval_affine. Qed.

Example svg2pdf_separators_translate :
  Svg2pdf.svg_parse_transform ("translate(1" ++ String (ascii_of_nat 9) "2)")
  = Ok (Affine.mk (of_Z 1, of_Z 2) (1, 0, 0, 1)%Qc).
Proof.
  apply (svg2pdf_separators "translate(1,2)").
  - unfold separators_varied. simpl.
    repeat (constructor; [first [now left | right; split; reflexivity] |]).
    constructor.
  - eval_affine.
Defined.

(** C6. svg2latex.py's [parse_svg_transform]: ["translate(1,2)"] parses, the
    same call with white space for the comma raises [ValueError], and a
    call with an exponent or a plus sign does not match [RX_TRANSFORM] at all. *)
Theorem svg2latex_needs_commas :
  Svg2latex.parse_svg_transform "translate(1,2)"
  = Ok (Affine.mk (of_Z 1, of_Z 2) (1, 0, 0, 1)%Qc)
  /\ separators_varied "translate(1,2)" "translate(1 2)"
  /\ Svg2latex.parse_svg_transform "translate(1 2)" = Raise (ValueError "1 2")
  /\ Svg2latex.parse_svg_transform "translate(1e1,2)"
     = Raise (Exception "bad transform (translate(1e1,2))")
  /\ Svg2latex.parse_svg_transform "translate(+1,2)"
     = Raise (Exception "bad transform (translate(+1,2))")
  /\ Svg2pdf.svg_parse_transform "translate(1 2)"
     = Ok (Affine.mk (of_Z 1, of_Z 2) (1, 0, 0, 1)%Qc).
Proof.
  split; [eval_affine |]. split.
  { unfold separators_varied. simpl.
    repeat (constructor; [first [now left | right; split; reflexivity] |]).
    constructor. }
  split; [vm_compute; reflexivity |].
  split; [vm_compute; reflexivity |].
  split; [vm_compute; reflexivity | eval_affine].
Qed.

(** * Further properties *)

(** ** The transform algebra *)

Lemma affine_ext (e f a b c d e' f' a' b' c' d' : Qc) :
  e = e' -> f = f' -> a = a' -> b = b' -> c = c' -> d = d' ->
  Affine.mk (e, f) (a, b, c, d) = Affine.mk (e', f') (a', b', c', d').
Proof. now intros -> -> -> -> -> ->. Qed.

Lemma point_ext (x y x' y' : Qc) : x = x' -> y = y' -> (x, y) = (x', y').
Proof. now intros -> ->. Qed.

Ltac affine_ring :=
  unfold Affine.applyTo_point, Affine.applyTo, Affine.__mul__, Affine.translate,
    Affine.scale_svg2pdf, Affine.scale_svg2latex, Affine.matrix, Affine.identity;
  cbn; first [apply affine_ext | apply point_ext]; ring.

Lemma product_identity_r (A : AffineTransform) : A @* Affine.identity = A.
Proof. destruct A as [[a13 a23] [[[a11 a21] a12] a22]]. affine_ring. Qed.

(** X2. [AffineTransform()] is a unit of the product on both sides, and it
    is the transform that leaves every point where it is. *)
Theorem mul_identity (A : AffineTransform) :
  Affine.identity @* A = A
  /\ A @* Affine.identity = A
  /\ forall x y, Affine.applyTo Affine.identity x y = (x, y).
Proof.
  split; [apply identity_mul | split; [apply product_identity_r |]].
  intros x y. affine_ring.
Qed.

(** X3. [s.matrix(a,b,c,d,e,f)] multiplies [s] on the right by the transform
    with the matrix part [(a,b,c,d)] and the translation [(e,f)]: the method
    computes, operation by operation, what the product computes. *)
Theorem matrix_multiplies_on_the_right (s : AffineTransform) (a b c d e f : float) :
  Affine.matrix s a b c d e f = s @* Affine.mk (e, f) (a, b, c, d).
Proof. destruct s as [[se sf] [[[sa sb] sc] sd]]. reflexivity. Qed.

(** X4. [s.translate(tx,ty)] leaves the matrix part of [s] as it is.  On a
    new transform it gives the translation by [(tx,ty)], which sends [(x,y)]
    to [(tx + x, ty + y)]; a second translation by [(ux,uy)] gives the
    translation by [(ux + tx, uy + ty)]. *)
Theorem translate_shifts (s : AffineTransform) (tx ty ux uy : float) :
  Affine.m (Affine.translate s tx ty) = Affine.m s
  /\ Affine.translate Affine.identity tx ty = Affine.mk (tx, ty) (1, 0, 0, 1)%Qc
  /\ (forall x y,
         Affine.applyTo (Affine.translate Affine.identity tx ty) x y = (tx + x, ty + y))%Qc
  /\ Affine.translate (Affine.translate Affine.identity tx ty) ux uy
     = Affine.mk (ux + tx, uy + ty)%Qc (1, 0, 0, 1)%Qc.
Proof.
  destruct s as [[se sf] [[[sa sb] sc] sd]].
  split; [| split; [affine_ring | split; [intros x y; affine_ring | affine_ring]]].
  unfold Affine.translate, Affine.matrix; cbn.
  assert (E : forall u v : Qc, (u * 1 + v * 0 = u)%Qc /\ (u * 0 + v * 1 = v)%Qc)
    by (intros u v; split; ring).
  destruct (E sa sc) as [-> ->]. now destruct (E sb sd) as [-> ->].
Qed.

(** X5. svg2pdf.py's [s.scale(sx,sy)] leaves the translation part of [s] as
    it is.  On a new transform it gives the transform with the matrix part
    [(sx, 0, 0, sy)], which sends [(x,y)] to [(sx*x, sy*y)]; [sy] is [sx]
    when it is left out. *)
Theorem scale_svg2pdf_scales (s : AffineTransform) (sx sy : float) :
  Affine.t (Affine.scale_svg2pdf s sx (Some sy)) = Affine.t s
  /\ Affine.scale_svg2pdf Affine.identity sx (Some sy)
     = Affine.mk (0, 0)%Qc (sx, 0, 0, sy)%Qc
  /\ (forall x y,
         Affine.applyTo (Affine.scale_svg2pdf Affine.identity sx (Some sy)) x y
         = (sx * x, sy * y))%Qc
  /\ Affine.scale_svg2pdf s sx None = Affine.scale_svg2pdf s sx (Some sx).
Proof.
  destruct s as [[se sf] [[[sa sb] sc] sd]].
  split; [| split; [affine_ring | split; [intros x y; affine_ring | reflexivity]]].
  unfold Affine.scale_svg2pdf, Affine.matrix; cbn. apply point_ext; ring.
Qed.

(** X6. svg2latex.py's [s.scale(sx,sy)] passes [(sx, 0, sy, 0)] to [matrix]:
    on a new transform it gives the transform with that matrix part, which
    sends every point [(x,y)] to [(sx*x + sy*y, 0)], a point of the x axis;
    [sy] is [sx] when it is left out. *)
Theorem scale_svg2latex_flattens (s : AffineTransform) (sx sy : float) :
  Affine.scale_svg2latex Affine.identity sx (Some sy)
  = Affine.mk (0, 0)%Qc (sx, 0, sy, 0)%Qc
  /\ (forall x y,
         Affine.applyTo (Affine.scale_svg2latex Affine.identity sx (Some sy)) x y
         = (sx * x + sy * y, 0))%Qc
  /\ Affine.scale_svg2latex s sx None = Affine.scale_svg2latex s sx (Some sx).
Proof.
  split; [affine_ring | split; [intros x y; affine_ring | reflexivity]].
Qed.

(** ** The transform parsers *)

Lemma build_matrix (scale : AffineTransform -> float -> float -> AffineTransform)
    (attribute : string) (a b c d e f : float) :
  build_transform scale attribute "matrix" [a; b; c; d; e; f]
  = Ok (Affine.mk (e, f) (a, b, c, d)).
Proof. unfold build_transform. simpl. now rewrite matrix_identity. Qed.

Lemma build_translate (scale : AffineTransform -> float -> float -> AffineTransform)
    (attribute : string) (args : list float) (tx ty : float) :
  args = [tx; ty] \/ (args = [tx] /\ ty = 0%Qc) ->
  build_transform scale attribute "translate" args
  = Ok (Affine.mk (tx, ty) (1, 0, 0, 1)%Qc).
Proof.
  intros [-> | [-> ->]]; unfold build_transform; simpl;
    unfold Affine.translate; now rewrite matrix_identity.
Qed.

(** X7. svg2pdf.py's [svg_parse_transform] on a text that the pattern
    accepts and whose arguments convert: [matrix(a,b,c,d,e,f)] is the map
    [(x,y) -> (e + a*x + c*y, f + b*x + d*y)], [translate(tx,ty)] the map
    [(x,y) -> (tx + x, ty + y)], with [ty = 0] when it is left out, and
    [scale(sx,sy)] the map [(x,y) -> (sx*x, sy*y)], with [sy = sx] when it is
    left out. *)
Theorem svg_parse_transform_meaning (attribute func group2 : string) (args : list float) :
  Svg2pdf.RX_TRANSFORM attribute = Some (func, group2) ->
  rmap (fun x => float_of_string (strip x)) (Svg2pdf.argument_tokens group2) = Ok args ->
  (forall a b c d e f,
      func = "matrix" -> args = [a; b; c; d; e; f] ->
      exists xf, Svg2pdf.svg_parse_transform attribute = Ok xf
                 /\ forall x y,
                      Affine.applyTo xf x y = (e + a * x + c * y, f + b * x + d * y)%Qc)
  /\ (forall tx ty,
         func = "translate" -> args = [tx; ty] \/ (args = [tx] /\ ty = 0%Qc) ->
         exists xf, Svg2pdf.svg_parse_transform attribute = Ok xf
                    /\ forall x y, Affine.applyTo xf x y = (tx + x, ty + y)%Qc)
  /\ (forall sx sy,
         func = "scale" -> args = [sx; sy] \/ (args = [sx] /\ sy = sx) ->
         exists xf, Svg2pdf.svg_parse_transform attribute = Ok xf
                    /\ forall x y, Affine.applyTo xf x y = (sx * x, sy * y)%Qc).
Proof.
  intros Hm Ha. unfold Svg2pdf.svg_parse_transform. rewrite Hm, Ha. cbn [rbind].
  split; [| split].
  - intros a b c d e f -> ->. rewrite build_matrix. eexists. split; [reflexivity |].
    intros x y. unfold Affine.applyTo; simpl. apply point_ext; ring.
  - intros tx ty -> Hargs. rewrite (build_translate _ _ _ tx ty Hargs).
    eexists. split; [reflexivity |].
    intros x y. unfold Affine.applyTo; simpl. apply point_ext; ring.
  - intros sx sy -> Hargs. exists (Affine.mk (0, 0)%Qc (sx, 0, 0, sy)%Qc). split.
    + destruct Hargs as [-> | [-> ->]]; unfold build_transform; simpl;
        unfold Affine.scale_svg2pdf; now rewrite matrix_identity.
    + intros x y. unfold Affine.applyTo; simpl. apply point_ext; ring.
Qed.

Lemma svg_parse_transform_meaning_witness :
  exists xf, Svg2pdf.svg_parse_transform "matrix(1 2,3,4 5e0 +6)" = Ok xf
             /\ Affine.applyTo xf 1 1 = (of_Z 9, of_Z 12).
Proof.
  destruct (svg_parse_transform_meaning "matrix(1 2,3,4 5e0 +6)" "matrix" "1 2,3,4 5e0 +6"
              [of_Z 1; of_Z 2; of_Z 3; of_Z 4; of_Z 5; of_Z 6]) as [Hmat _].
  - reflexivity.
  - vm_compute. reflexivity.
  - destruct (Hmat (of_Z 1) (of_Z 2) (of_Z 3) (of_Z 4) (of_Z 5) (of_Z 6) eq_refl eq_refl)
      as (xf & Hp & Hx).
    exists xf. split; [exact Hp |]. rewrite Hx. eval_pair.
Defined.

(** X8. svg2latex.py's [parse_svg_transform] on a text that the pattern
    accepts and whose arguments, split at the commas, convert: [matrix] and
    [translate] mean what they mean in svg2pdf.py. *)
Theorem parse_svg_transform_meaning (attribute func group2 : string) (args : list float) :
  Svg2latex.RX_TRANSFORM attribute = Some (func, group2) ->
  rmap (fun x => float_of_string (strip x)) (Svg2latex.argument_tokens group2) = Ok args ->
  (forall a b c d e f,
      func = "matrix" -> args = [a; b; c; d; e; f] ->
      exists xf, Svg2latex.parse_svg_transform attribute = Ok xf
                 /\ forall x y,
                      Affine.applyTo xf x y = (e + a * x + c * y, f + b * x + d * y)%Qc)
  /\ (forall tx ty,
         func = "translate" -> args = [tx; ty] \/ (args = [tx] /\ ty = 0%Qc) ->
         exists xf, Svg2latex.parse_svg_transform attribute = Ok xf
                    /\ forall x y, Affine.applyTo xf x y = (tx + x, ty + y)%Qc).
Proof.
  intros Hm Ha. unfold Svg2latex.parse_svg_transform. rewrite Hm, Ha. cbn [rbind]. split.
  - intros a b c d e f -> ->. rewrite build_matrix. eexists. split; [reflexivity |].
    intros x y. unfold Affine.applyTo; simpl. apply point_ext; ring.
  - intros tx ty -> Hargs. rewrite (build_translate _ _ _ tx ty Hargs).
    eexists. split; [reflexivity |].
    intros x y. unfold Affine.applyTo; simpl. apply point_ext; ring.
Qed.

Lemma parse_svg_transform_meaning_witness :
  exists xf, Svg2latex.parse_svg_transform "translate( 7 )" = Ok xf
             /\ Affine.applyTo xf 1 1 = (of_Z 8, of_Z 1).
Proof.
  destruct (parse_svg_transform_meaning "translate( 7 )" "translate" " 7 " [of_Z 7])
    as [_ Htr].
  - reflexivity.
  - vm_compute. reflexivity.
  - destruct (Htr (of_Z 7) 0%Qc eq_refl (or_intror (conj eq_refl eq_refl)))
      as (xf & Hp & Hx).
    exists xf. split; [exact Hp |]. rewrite Hx. eval_pair.
Defined.

(** The refusals of [build_transform]. *)
Lemma build_refuses (scale : AffineTransform -> float -> float -> AffineTransform)
    (attribute func : string) (args : list float) :
  (func = "matrix" -> length args <> 6 ->
   build_transform scale attribute func args = Raise (Exception "bad matrix transform"))
  /\ (func = "translate" -> length args < 1 \/ length args > 2 ->
      build_transform scale attribute func args = Raise (Exception "bad translate transform"))
  /\ (func = "scale" -> length args < 1 \/ length args > 2 ->
      build_transform scale attribute func args = Raise (Exception "bad scale transform"))
  /\ (func <> "matrix" -> func <> "translate" -> func <> "scale" ->
      build_transform scale attribute func args
      = Raise (Exception ("unsupported transform attribute (" ++ attribute ++ ")"))).
Proof.
  unfold build_transform. repeat split.
  - intros -> H. simpl.
    destruct args as [| ? [| ? [| ? [| ? [| ? [| ? [| ? ?]]]]]]]; simpl in H;
      try reflexivity; lia.
  - intros -> H. simpl. destruct args as [| ? [| ? [| ? ?]]]; simpl in H; try reflexivity; lia.
  - intros -> H. simpl. destruct args as [| ? [| ? [| ? ?]]]; simpl in H; try reflexivity; lia.
  - intros H1 H2 H3.
    apply String.eqb_neq in H1, H2, H3. now rewrite H1, H2, H3.
Qed.

(** X9. Both parsers, on a text that the pattern accepts and whose
    arguments convert: [matrix] with other than six numbers, [translate] and
    [scale] with none or more than two, and every other function name are
    refused with the [Exception] that names the fault. *)
Theorem transform_refusals (attribute func group2 : string) (args : list float) :
  let refused (r : result AffineTransform) :=
    (func = "matrix" -> length args <> 6 -> r = Raise (Exception "bad matrix transform"))
    /\ (func = "translate" -> length args < 1 \/ length args > 2 ->
        r = Raise (Exception "bad translate transform"))
    /\ (func = "scale" -> length args < 1 \/ length args > 2 ->
        r = Raise (Exception "bad scale transform"))
    /\ (func <> "matrix" -> func <> "translate" -> func <> "scale" ->
        r = Raise (Exception ("unsupported transform attribute (" ++ attribute ++ ")"))) in
  (Svg2pdf.RX_TRANSFORM attribute = Some (func, group2) ->
   rmap (fun x => float_of_string (strip x)) (Svg2pdf.argument_tokens group2) = Ok args ->
   refused (Svg2pdf.svg_parse_transform attribute))
  /\ (Svg2latex.RX_TRANSFORM attribute = Some (func, group2) ->
      rmap (fun x => float_of_string (strip x)) (Svg2latex.argument_tokens group2) = Ok args ->
      refused (Svg2latex.parse_svg_transform attribute)).
Proof.
  intros refused. split; intros Hm Ha; unfold refused.
  - unfold Svg2pdf.svg_parse_transform. rewrite Hm, Ha. cbn [rbind]. apply build_refuses.
  - unfold Svg2latex.parse_svg_transform. rewrite Hm, Ha. cbn [rbind]. apply build_refuses.
Qed.

Lemma transform_refusals_witness :
  Svg2pdf.svg_parse_transform "skewX(30)"
  = Raise (Exception "unsupported transform attribute (skewX(30))")
  /\ Svg2latex.parse_svg_transform "matrix(1,2,3)" = Raise (Exception "bad matrix transform").
Proof.
  split.
  - destruct (transform_refusals "skewX(30)" "skewX" "30" [of_Z 30]) as [H _].
    destruct H as (_ & _ & _ & H); [reflexivity | vm_compute; reflexivity |].
    apply H; discriminate.
  - destruct (transform_refusals "matrix(1,2,3)" "matrix" "1,2,3" [of_Z 1; of_Z 2; of_Z 3])
      as [_ H].
    destruct H as (H & _); [reflexivity | vm_compute; reflexivity |].
    apply H; [reflexivity | simpl; lia].
Defined.

(** ** What [RX_TRANSFORM] accepts *)

(** X10. [RX_TRANSFORM] of either file matches a text exactly when the text
    is white space, a nonempty word, an opening parenthesis, characters of
    the file's argument class, a closing parenthesis and white space; the
    groups are the word and the characters between the parentheses. *)
Theorem RX_TRANSFORM_accepts (l func args : list ascii) :
  let shape (is_arg : ascii -> bool) :=
    exists ws ws',
      l = ws ++ func ++ "("%char :: args ++ ")"%char :: ws'
      /\ Forall (fun c => is_space c = true) ws
      /\ Forall (fun c => is_word c = true) func
      /\ func <> []
      /\ Forall (fun c => is_arg c = true) args
      /\ Forall (fun c => is_space c = true) ws' in
  (match_transform is_arg_svg2pdf l = Some (func, args) <-> shape is_arg_svg2pdf)
  /\ (match_transform is_arg_svg2latex l = Some (func, args) <-> shape is_arg_svg2latex).
Proof.
  intros shape. split; split.
  - apply match_transform_spec.
  - intros (ws & ws' & -> & ? & ? & ? & ? & ?). now apply match_transform_complete.
  - apply match_transform_spec.
  - intros (ws & ws' & -> & ? & ? & ? & ? & ?). now apply match_transform_complete.
Qed.

(** ** Lengths: the number always converts *)

(** Facts about single characters, by running through the 256 of them. *)
Ltac by_cases_on c :=
  destruct c as [[] [] [] [] [] [] [] []]; vm_compute; try discriminate; try tauto;
  repeat split; try reflexivity; try discriminate.

Lemma digit_is_plain (c : ascii) :
  is_digit c = true ->
  is_space c = false /\ Ascii.eqb c "+" = false /\ Ascii.eqb c "-" = false
  /\ Ascii.eqb c "." = false /\ Ascii.eqb c "_" = false /\ is_e c = false.
Proof. by_cases_on c. Qed.

Lemma e_is_plain (c : ascii) :
  is_e c = true ->
  is_space c = false /\ is_digit c = false /\ Ascii.eqb c "." = false
  /\ Ascii.eqb c "_" = false.
Proof. by_cases_on c. Qed.

Lemma sign_is_plain (c : ascii) :
  Ascii.eqb c "+" || Ascii.eqb c "-" = true ->
  is_space c = false /\ (c = "+"%char \/ c = "-"%char).
Proof. by_cases_on c. Qed.

Lemma dot_is_plain (c : ascii) :
  Ascii.eqb c "." = true ->
  c = "."%char.
Proof. intros H. now apply Ascii.eqb_eq. Qed.

Lemma scan_digits_run (ds rest : list ascii) :
  digits ds -> stops rest ->
  forall acc n, exists acc', scan_digits acc n (ds ++ rest) = (acc', n + length ds, rest).
Proof.
  intros Hds Hrest. induction Hds as [| d ds Hd _ IH]; intros acc n.
  - exists acc. rewrite Nat.add_0_r. destruct rest as [| c rest]; [reflexivity |].
    destruct Hrest as [H1 H2]. simpl. now rewrite H1, H2.
  - simpl. rewrite Hd.
    destruct (IH (10 * acc + digit_value d)%Z (S n)) as [acc' E].
    exists acc'. rewrite E. f_equal. f_equal. lia.
Qed.

Lemma exponent_stops (ex : list ascii) : exponent_shape ex -> stops ex.
Proof.
  intros [-> | (c & sg & d & ds & -> & He & _)]; [exact I |].
  apply e_is_plain in He as (_ & H1 & _ & H2). now split.
Qed.

Lemma scan_exponent_ok (ex : list ascii) :
  exponent_shape ex -> exists e, scan_exponent ex = Some e.
Proof.
  intros [-> | (c & sg & d & ds & -> & He & Hsg & Hds)]; [now exists 0%Z |].
  cbn [scan_exponent]. rewrite He.
  assert (Hd : is_digit d = true) by now inversion Hds.
  destruct (digit_is_plain d Hd) as (_ & Hp & Hm & _).
  assert (Hsign : exists neg, scan_sign (sg ++ d :: ds) = (neg, d :: ds)).
  { destruct Hsg as [-> | [-> | ->]]; simpl.
    - rewrite Hp, Hm. now exists false.
    - now exists false.
    - now exists true. }
  destruct Hsign as [neg ->].
  destruct (scan_digits_run (d :: ds) [] Hds I 0%Z 0%nat) as [e E].
  rewrite app_nil_r in E. rewrite E. simpl. now eexists.
Qed.

Lemma float_literal_ok (sg ds frac ex : list ascii) :
  sign_shape sg -> digits ds -> fraction_shape frac -> exponent_shape ex ->
  ds <> [] \/ (exists d more, frac = "."%char :: d :: more) ->
  exists v, float_literal (sg ++ ds ++ frac ++ ex) = Some v.
Proof.
  intros Hsg Hds Hfrac Hex Hne.
  pose proof (exponent_stops ex Hex) as Hstop.
  assert (Hfirst : match ds ++ frac ++ ex with
                   | [] => True
                   | c :: _ => Ascii.eqb c "+" = false /\ Ascii.eqb c "-" = false
                   end).
  { destruct ds as [| d ds].
    - destruct Hne as [Hne | (d & more & ->)]; [congruence |]. simpl. now split.
    - simpl. inversion Hds as [| ? ? Hd _]; subst.
      now destruct (digit_is_plain d Hd) as (_ & Hp & Hm & _). }
  assert (Hsign : exists neg, scan_sign (sg ++ ds ++ frac ++ ex) = (neg, ds ++ frac ++ ex)).
  { destruct Hsg as [-> | [-> | ->]]; simpl; [| now exists false | now exists true].
    exists false. destruct (ds ++ frac ++ ex) as [| c l]; [reflexivity |].
    destruct Hfirst as [Hp Hm]. simpl. now rewrite Hp, Hm. }
  destruct Hsign as [neg Hsign].
  unfold float_literal. rewrite Hsign.
  assert (Hstop' : stops (frac ++ ex)).
  { destruct Hfrac as [-> | (more & -> & _)]; [exact Hstop |]. simpl. now split. }
  destruct (scan_digits_run ds (frac ++ ex) Hds Hstop' 0%Z 0%nat) as [ip Eip].
  rewrite Eip. simpl (0 + length ds)%nat.
  destruct (scan_exponent_ok ex Hex) as [e Ee].
  destruct Hfrac as [-> | (more & -> & Hmore)].
  - (* no fraction *)
    simpl ([] ++ ex).
    assert (Hnodot :
      match ex with
      | c :: l1' => if Ascii.eqb c "." then scan_digits ip 0 l1' else (ip, 0%nat, ex)
      | [] => (ip, 0%nat, ex)
      end = (ip, 0%nat, ex)).
    { destruct Hex as [-> | (c & sg' & d & ds' & -> & He & _)]; [reflexivity |].
      apply e_is_plain in He as (_ & _ & Hdot & _). now rewrite Hdot. }
    rewrite Hnodot, Ee.
    destruct ds as [| d ds]; [destruct Hne as [? | (? & ? & ?)]; congruence |].
    simpl. now eexists.
  - cbn [app]. change (Ascii.eqb "." ".") with true. cbv iota.
    destruct (scan_digits_run more ex Hmore Hstop ip 0%nat) as [mant Em].
    rewrite Em, Ee. simpl (0 + length more)%nat.
    destruct (length ds + length more)%nat eqn:El; [| now eexists].
    exfalso. destruct Hne as [Hne | (d & more' & E)].
    + destruct ds; [congruence | simpl in El; lia].
    + injection E as ->. simpl in El. lia.
Qed.

Lemma plain_strip (l : list ascii) :
  Forall (fun c => is_space c = false) l -> strip_chars l = l.
Proof.
  intros H. unfold strip_chars.
  assert (Hl : forall l', Forall (fun c => is_space c = false) l' -> lstrip l' = l').
  { intros l' H'. unfold lstrip. destruct H' as [| c l' Hc _]; [reflexivity |].
    simpl. now rewrite Hc. }
  rewrite (Hl l H). rewrite Hl; [apply rev_involutive | now apply List.Forall_rev].
Qed.

Lemma take_sign_shape (l sg l1 : list ascii) :
  Svg2pdf.take_sign l = (sg, l1) -> sign_shape sg.
Proof.
  unfold Svg2pdf.take_sign, sign_shape. destruct l as [| c l]; [intros [= <- _]; now left |].
  destruct (Ascii.eqb c "+" || Ascii.eqb c "-") eqn:E; intros [= <- _]; [| now left].
  apply sign_is_plain in E as [_ [-> | ->]]; auto.
Qed.

Lemma span_digits (l a b : list ascii) : span is_digit l = (a, b) -> digits a.
Proof. intros H. now apply span_spec in H as (_ & H & _). Qed.

Lemma take_mantissa_shape (l mant l2 : list ascii) :
  Svg2pdf.take_mantissa l = Some (mant, l2) ->
  exists ds frac,
    mant = ds ++ frac /\ digits ds /\ fraction_shape frac
    /\ (ds <> [] \/ exists d more, frac = "."%char :: d :: more).
Proof.
  unfold Svg2pdf.take_mantissa.
  destruct (span is_digit l) as [[| d ds] l1] eqn:E.
  - destruct l as [| c [| d l1']]; try discriminate.
    destruct (Ascii.eqb c "." && is_digit d) eqn:Ec; [| discriminate].
    apply andb_prop in Ec as [Ec Hd]. apply dot_is_plain in Ec as ->.
    destruct (span is_digit l1') as [more l2'] eqn:Em. intros [= <- _].
    exists [], ("."%char :: d :: more). repeat split.
    + constructor.
    + right. exists (d :: more). split; [reflexivity |].
      constructor; [exact Hd | now apply span_digits in Em].
    + right. now exists d, more.
  - pose proof (span_digits _ _ _ E) as Hds.
    destruct l1 as [| c l1'].
    + simpl. intros [= <- _]. exists (d :: ds), []. rewrite !app_nil_r.
      repeat split; [exact Hds | now left | now left].
    + destruct (Ascii.eqb c ".") eqn:Ec.
      * apply dot_is_plain in Ec as ->.
        destruct (span is_digit l1') as [more l3] eqn:Em. intros [= <- _].
        exists (d :: ds), ("."%char :: more). repeat split.
        -- exact Hds.
        -- right. exists more. split; [reflexivity | now apply span_digits in Em].
        -- now left.
      * destruct (span is_digit (c :: l1')) as [more l3] eqn:Em. intros [= <- _].
        apply span_spec in E as (_ & _ & Hc). simpl in Em. rewrite Hc in Em.
        injection Em as <- _.
        exists (d :: ds), []. repeat split; [exact Hds | now left | now left].
Qed.

Lemma take_exponent_shape (l ex l3 : list ascii) :
  Svg2pdf.take_exponent l = (ex, l3) -> exponent_shape ex.
Proof.
  unfold Svg2pdf.take_exponent. destruct l as [| c l1]; [intros [= <- _]; now left |].
  destruct (is_e c) eqn:He; [| intros [= <- _]; now left].
  destruct (Svg2pdf.take_sign l1) as [sg l2] eqn:Es.
  destruct (span is_digit l2) as [[| d ds] l4] eqn:Ed; intros [= <- _]; [now left |].
  right. exists c, sg, d, ds. repeat split; [exact He | | now apply span_digits in Ed].
  now apply take_sign_shape in Es.
Qed.

(** The characters of a number are not white space. *)
Lemma shapes_are_plain (sg ds frac ex : list ascii) :
  sign_shape sg -> digits ds -> fraction_shape frac -> exponent_shape ex ->
  Forall (fun c => is_space c = false) (sg ++ ds ++ frac ++ ex).
Proof.
  intros Hsg Hds Hfrac Hex.
  assert (Hd : forall l, digits l -> Forall (fun c => is_space c = false) l).
  { intros l Hl. eapply Forall_impl; [exact Hl |]. intros c Hc.
    now apply digit_is_plain in Hc as [? _]. }
  assert (Hs : forall l, sign_shape l -> Forall (fun c => is_space c = false) l).
  { intros l [-> | [-> | ->]]; repeat constructor. }
  repeat apply Forall_app_2; auto.
  - destruct Hfrac as [-> | (more & -> & Hmore)]; [constructor |].
    constructor; [reflexivity | auto].
  - destruct Hex as [-> | (c & sg' & d & ds' & -> & He & Hsg' & Hds')]; [constructor |].
    constructor; [now apply e_is_plain in He as [? _] |].
    apply Forall_app_2; auto.
Qed.

(** The group [value] of a match always converts. *)
Lemma matched_value_converts (text value : string) (unit : option string) :
  Svg2pdf.RX_LENGTH_match text = Some (value, unit) ->
  exists raw, float_of_string value = Ok raw.
Proof.
  unfold Svg2pdf.RX_LENGTH_match.
  destruct (Svg2pdf.take_sign (lstrip (list_ascii_of_string text))) as [sg l1] eqn:Es.
  destruct (Svg2pdf.take_mantissa l1) as [[mant l2] |] eqn:Em; [| discriminate].
  destruct (Svg2pdf.take_exponent l2) as [ex l3] eqn:Ee. intros [= <- _].
  apply take_sign_shape in Es.
  apply take_mantissa_shape in Em as (ds & frac & -> & Hds & Hfrac & Hne).
  apply take_exponent_shape in Ee.
  unfold float_of_string. rewrite list_ascii_of_string_of_list_ascii.
  rewrite <- app_assoc.
  rewrite plain_strip by now apply shapes_are_plain.
  destruct (float_literal_ok sg ds frac ex Es Hds Hfrac Ee Hne) as [v ->].
  now exists v.
Qed.

(** X12. [svg_parse_length] never fails in [float]: the text that the
    pattern takes for the number always converts.  A text is refused as an
    invalid length, or for a unit that the table of scales does not have;
    with [apply_unit=False] only as an invalid length. *)
Theorem svg_parse_length_failures (text : string) (e : exn) :
  (Svg2pdf.svg_parse_length text = Raise e ->
   (e = Svg2pdf.invalid_length text /\ Svg2pdf.RX_LENGTH_match text = None)
   \/ exists value u,
        e = KeyError u
        /\ Svg2pdf.RX_LENGTH_match text = Some (value, Some u)
        /\ Svg2pdf.UNIT_SCALE_TO_USER_UNITS !! u = None)
  /\ (Svg2pdf.svg_parse_length_raw text = Raise e ->
      e = Svg2pdf.invalid_length text /\ Svg2pdf.RX_LENGTH_match text = None).
Proof.
  unfold Svg2pdf.svg_parse_length, Svg2pdf.svg_parse_length_raw.
  destruct (Svg2pdf.RX_LENGTH_match text) as [[value unit] |] eqn:Em.
  - destruct (matched_value_converts _ _ _ Em) as [raw ->]. cbn [rbind]. split.
    + destruct unit as [u |]; [| discriminate].
      destruct (Svg2pdf.UNIT_SCALE_TO_USER_UNITS !! u) eqn:Eu; [discriminate |].
      intros [= <-]. right. now exists value, u.
    + discriminate.
  - split; intros [= <-]; left + idtac; now split.
Qed.

Lemma svg_parse_length_failures_witness :
  Svg2pdf.svg_parse_length "1.5em" = Raise (KeyError "em")
  /\ exists value u,
       KeyError "em" = KeyError u
       /\ Svg2pdf.RX_LENGTH_match "1.5em" = Some (value, Some u)
       /\ Svg2pdf.UNIT_SCALE_TO_USER_UNITS !! u = None.
Proof.
  assert (H : Svg2pdf.svg_parse_length "1.5em" = Raise (KeyError "em"))
    by (vm_compute; reflexivity).
  split; [exact H |].
  destruct (svg_parse_length_failures "1.5em" (KeyError "em")) as [Hl _].
  destruct (Hl H) as [[E _] | Hr]; [discriminate E | exact Hr].
Defined.

(** ** Lengths: the units *)

Lemma unit_is_not_empty (l : list ascii) (u : list ascii) :
  Svg2pdf.take_unit l = Some u -> string_of_list_ascii u <> "".
Proof.
  unfold Svg2pdf.take_unit. destruct l as [| a [| b l]]; [discriminate | |].
  - destruct (Ascii.eqb a "%"); [intros [= <-]; discriminate | discriminate].
  - destruct (bool_decide _); [intros [= <-]; discriminate |].
    destruct (Ascii.eqb a "%"); [intros [= <-]; discriminate | discriminate].
Qed.

Lemma matched_unit_is_not_empty (text value u : string) :
  Svg2pdf.RX_LENGTH_match text = Some (value, Some u) -> u <> "".
Proof.
  unfold Svg2pdf.RX_LENGTH_match.
  destruct (Svg2pdf.take_sign _) as [sg l1].
  destruct (Svg2pdf.take_mantissa l1) as [[mant l2] |]; [| discriminate].
  destruct (Svg2pdf.take_exponent l2) as [ex l3].
  destruct (Svg2pdf.take_unit l3) as [w |] eqn:Eu; [| discriminate].
  intros [= _ <-]. now apply unit_is_not_empty in Eu.
Qed.

Lemma take_unit_shape (l w : list ascii) :
  Svg2pdf.take_unit l = Some w ->
  string_of_list_ascii w = "%"
  \/ exists a b,
       string_of_list_ascii w = String a (String b "")
       /\ String (Svg2pdf.lower a) (String (Svg2pdf.lower b) "") ∈ Svg2pdf.unit_words.
Proof.
  unfold Svg2pdf.take_unit. destruct l as [| a [| b l]]; [discriminate | |].
  - destruct (Ascii.eqb a "%") eqn:E; [| discriminate].
    apply Ascii.eqb_eq in E as ->. intros [= <-]. now left.
  - destruct (bool_decide _) eqn:Ew.
    + apply bool_decide_eq_true in Ew. intros [= <-]. right. now exists a, b.
    + destruct (Ascii.eqb a "%") eqn:E; [| discriminate].
      apply Ascii.eqb_eq in E as ->. intros [= <-]. now left.
Qed.

Lemma matched_unit_shape (text value u : string) :
  Svg2pdf.RX_LENGTH_match text = Some (value, Some u) ->
  u = "%"
  \/ exists a b,
       u = String a (String b "")
       /\ String (Svg2pdf.lower a) (String (Svg2pdf.lower b) "") ∈ Svg2pdf.unit_words.
Proof.
  unfold Svg2pdf.RX_LENGTH_match.
  destruct (Svg2pdf.take_sign _) as [sg l1].
  destruct (Svg2pdf.take_mantissa l1) as [[mant l2] |]; [| discriminate].
  destruct (Svg2pdf.take_exponent l2) as [ex l3].
  destruct (Svg2pdf.take_unit l3) as [w |] eqn:Eu; [| discriminate].
  intros [= _ <-]. now apply take_unit_shape in Eu.
Qed.

Lemma scale_of_known_unit (u : string) (scale : float) :
  Svg2pdf.UNIT_SCALE_TO_USER_UNITS !! u = Some scale -> u = "" \/ u ∈ known_units.
Proof.
  unfold Svg2pdf.UNIT_SCALE_TO_USER_UNITS. intros H.
  apply elem_of_list_to_map_2 in H. unfold known_units.
  repeat (apply elem_of_cons in H as [H | H];
          [injection H as -> _; first [now left | right; repeat constructor] |]).
  now apply elem_of_nil in H.
Qed.

Lemma known_unit_has_scale (u : string) :
  u ∈ known_units -> exists scale, Svg2pdf.UNIT_SCALE_TO_USER_UNITS !! u = Some scale.
Proof.
  unfold known_units. intros H.
  repeat (apply elem_of_cons in H as [-> | H]; [eexists; vm_compute; reflexivity |]).
  now apply elem_of_nil in H.
Qed.

(** X13. A length with a unit: the pattern takes [em], [ex], [px], [in],
    [cm], [mm], [pt] and [pc] in either case and [%], and the table is asked
    for the unit as it is written.  The lengths in [px], [in], [cm], [mm],
    [pt] and [pc], in lower case, resolve; every other unit raises
    [KeyError], upper case, [em], [ex] and [%] among them.  The table's
    entry for the empty unit is never used. *)
Theorem svg_parse_length_units (text value u : string) :
  Svg2pdf.RX_LENGTH_match text = Some (value, Some u) ->
  u <> ""
  /\ (u = "%"
      \/ exists a b,
           u = String a (String b "")
           /\ String (Svg2pdf.lower a) (String (Svg2pdf.lower b) "") ∈ Svg2pdf.unit_words)
  /\ (u ∈ known_units ->
      exists scale, Svg2pdf.UNIT_SCALE_TO_USER_UNITS !! u = Some scale
                    /\ Svg2pdf.svg_parse_length text = Ok scale)
  /\ (u ∉ known_units -> Svg2pdf.svg_parse_length text = Raise (KeyError u)).
Proof.
  intros Hm. pose proof (matched_unit_is_not_empty _ _ _ Hm) as Hne.
  destruct (matched_value_converts _ _ _ Hm) as [raw Hraw].
  unfold Svg2pdf.svg_parse_length. rewrite Hm, Hraw. cbn [rbind].
  split; [exact Hne | split; [exact (matched_unit_shape _ _ _ Hm) | split]].
  - intros Hu. destruct (known_unit_has_scale u Hu) as [scale ->]. now exists scale.
  - intros Hu. destruct (Svg2pdf.UNIT_SCALE_TO_USER_UNITS !! u) as [scale |] eqn:E;
      [| reflexivity].
    apply scale_of_known_unit in E as [E | E]; contradiction.
Qed.

Lemma svg_parse_length_units_witness :
  Svg2pdf.svg_parse_length "12PT" = Raise (KeyError "PT")
  /\ Svg2pdf.svg_parse_length "50%" = Raise (KeyError "%")
  /\ exists scale, Svg2pdf.svg_parse_length "12pt" = Ok scale.
Proof.
  split; [| split].
  - destruct (svg_parse_length_units "12PT" "12" "PT") as (_ & _ & _ & H); [reflexivity |].
    apply H. intros Hin.
    repeat (apply elem_of_cons in Hin as [Hin | Hin]; [discriminate |]).
    now apply elem_of_nil in Hin.
  - destruct (svg_parse_length_units "50%" "50" "%") as (_ & _ & _ & H); [reflexivity |].
    apply H. intros Hin.
    repeat (apply elem_of_cons in Hin as [Hin | Hin]; [discriminate |]).
    now apply elem_of_nil in Hin.
  - destruct (svg_parse_length_units "12pt" "12" "pt") as (_ & _ & H & _); [reflexivity |].
    destruct H as (scale & _ & H); [repeat constructor |].
    now exists scale.
Defined.

(** ** Style declarations *)

Lemma to_list_app (a b : string) :
  list_ascii_of_string (a ++ b) = list_ascii_of_string a ++ list_ascii_of_string b.
Proof. induction a as [| c a IH]; simpl; [reflexivity | now rewrite IH]. Qed.

Lemma split_at_app (sep : ascii) (a b : list ascii) :
  forall cur,
    split_at sep cur (a ++ sep :: b) = split_at sep cur a ++ split_at sep [] b.
Proof.
  induction a as [| c a IH]; intros cur; simpl.
  - now rewrite Ascii.eqb_refl.
  - destruct (Ascii.eqb c sep); simpl; now rewrite IH.
Qed.

Lemma declare_union (l : list (list ascii * bool * list ascii)) :
  forall st, fold_left declare l st = fold_left declare l ∅ ∪ st.
Proof.
  induction l as [| [[key found] value] l IH]; intros st; simpl.
  - now rewrite (left_id_L ∅ (∪)).
  - rewrite IH. rewrite (IH (<[_ := _]> ∅)).
    rewrite <- (assoc_L (∪)). f_equal.
    rewrite insert_union_singleton_l. rewrite insert_union_singleton_l.
    now rewrite (right_id_L ∅ (∪)).
Qed.

Lemma split_svg_style_fold (style : string) :
  Svg2latex.split_svg_style style = fold_left declare (declarations style) ∅
  /\ Svg2pdf.svg_split_style style = fold_left declare (declarations style) ∅.
Proof. split; reflexivity. Qed.

Lemma declarations_app (a b : string) :
  declarations (a ++ ";" ++ b) = declarations a ++ declarations b.
Proof.
  unfold declarations, split_on. rewrite to_list_app. simpl.
  rewrite split_at_app. now rewrite !map_app, List.filter_app, map_app.
Qed.

(** X14. Style texts, in both files: the declarations of [a;b] are those of
    [a] and those of [b], and where both declare a property the one of [b]
    counts. *)
Theorem split_style_joins (a b : string) :
  Svg2latex.split_svg_style (a ++ ";" ++ b)
  = Svg2latex.split_svg_style b ∪ Svg2latex.split_svg_style a
  /\ Svg2pdf.svg_split_style (a ++ ";" ++ b)
     = Svg2pdf.svg_split_style b ∪ Svg2pdf.svg_split_style a.
Proof.
  assert (H : fold_left declare (declarations (a ++ ";" ++ b)) ∅
              = fold_left declare (declarations b) ∅ ∪ fold_left declare (declarations a) ∅).
  { rewrite declarations_app, fold_left_app. apply declare_union. }
  split; exact H.
Qed.

(** ** Trimmed texts *)

Lemma lstrip_starts_plain (l : list ascii) : starts_plain (lstrip l).
Proof.
  unfold lstrip. destruct (span is_space l) as [a b] eqn:E.
  now apply span_spec in E as (_ & _ & H).
Qed.

Lemma lstrip_plain (l : list ascii) : starts_plain l -> lstrip l = l.
Proof.
  unfold lstrip. destruct l as [| c l]; [reflexivity |]. simpl. now intros ->.
Qed.

Lemma lstrip_suffix (l : list ascii) : exists pre, l = pre ++ lstrip l.
Proof.
  unfold lstrip. destruct (span is_space l) as [a b] eqn:E.
  apply span_spec in E as (-> & _). now exists a.
Qed.

Lemma strip_chars_trimmed (l : list ascii) :
  starts_plain (strip_chars l) /\ starts_plain (rev (strip_chars l)).
Proof.
  unfold strip_chars. rewrite rev_involutive. split; [| apply lstrip_starts_plain].
  pose proof (lstrip_starts_plain l) as H1.
  destruct (lstrip_suffix (rev (lstrip l))) as [pre E].
  apply (f_equal (@rev ascii)) in E. rewrite rev_involutive, rev_app_distr in E.
  destruct (rev (lstrip (rev (lstrip l)))) as [| c r]; [exact I |].
  rewrite E in H1. exact H1.
Qed.

Lemma strip_chars_idempotent (l : list ascii) : strip_chars (strip_chars l) = strip_chars l.
Proof.
  destruct (strip_chars_trimmed l) as [H1 H2].
  unfold strip_chars at 1. rewrite (lstrip_plain _ H1), (lstrip_plain _ H2).
  apply rev_involutive.
Qed.

Lemma strip_trimmed (l : list ascii) :
  strip (string_of_list_ascii (strip_chars l)) = string_of_list_ascii (strip_chars l).
Proof.
  unfold strip. now rewrite list_ascii_of_string_of_list_ascii, strip_chars_idempotent.
Qed.

Lemma declared_is_trimmed (l : list (list ascii * bool * list ascii)) :
  forall st k v,
    fold_left declare l st !! k = Some v ->
    st !! k = Some v \/ (strip k = k /\ strip v = v).
Proof.
  induction l as [| [[key found] value] l IH]; intros st k v H; simpl in H; [now left |].
  apply IH in H as [H | H]; [| now right].
  destruct (decide (string_of_list_ascii (strip_chars key) = k)) as [<- | Hk].
  - rewrite lookup_insert in H. right. 
    destruct (decide _) in H; [| congruence]. injection H as <-.
    split; apply strip_trimmed.
  - rewrite lookup_insert_ne in H by exact Hk. now left.
Qed.

(** X15. Style texts, in both files: the names and the values of the
    declarations are stored without white space around them. *)
Theorem split_style_trims (style k v : string) :
  (Svg2latex.split_svg_style style !! k = Some v -> strip k = k /\ strip v = v)
  /\ (Svg2pdf.svg_split_style style !! k = Some v -> strip k = k /\ strip v = v).
Proof.
  assert (H : fold_left declare (declarations style) ∅ !! k = Some v ->
              strip k = k /\ strip v = v).
  { intros H. apply declared_is_trimmed in H as [H | H]; [| exact H].
    now rewrite lookup_empty in H. }
  split; exact H.
Qed.

Lemma split_style_trims_witness :
  Svg2pdf.svg_split_style " fill : red ; stroke:blue " !! "fill" = Some "red"
  /\ strip "fill" = "fill" /\ strip "red" = "red".
Proof.
  assert (H : Svg2pdf.svg_split_style " fill : red ; stroke:blue " !! "fill" = Some "red")
    by (vm_compute; reflexivity).
  split; [exact H |].
  destruct (split_style_trims " fill : red ; stroke:blue " "fill" "red") as [_ Ht].
  exact (Ht H).
Defined.

(** ** Colours *)

Lemma hex_digit_is_plain (c : ascii) (v : Z) :
  hex_value c = Some v ->
  is_cspace c = false /\ Ascii.eqb c "+" = false /\ Ascii.eqb c "-" = false
  /\ Ascii.eqb c "_" = false /\ is_x c = false /\ (0 <= v <= 15)%Z.
Proof.
  intros H.
  destruct c as [[] [] [] [] [] [] [] []]; vm_compute in H; try discriminate H;
    injection H as <-; repeat split; try reflexivity; lia.
Qed.

(** Two hexadecimal digits are read as the number they write. *)
Lemma int_of_two_digits (a b : ascii) (va vb : Z) :
  hex_value a = Some va -> hex_value b = Some vb ->
  int_of_string16 (String a (String b "")) = Ok (16 * va + vb)%Z.
Proof.
  intros Ha Hb.
  destruct (hex_digit_is_plain a va Ha) as (Hs & Hp & Hm & Hu & _ & _).
  destruct (hex_digit_is_plain b vb Hb) as (_ & _ & _ & _ & Hx & _).
  unfold int_of_string16, int_literal16, skip_cspace. cbn [list_ascii_of_string span].
  rewrite Hs. cbn [snd scan_sign]. rewrite Hp, Hm, Hx, andb_false_r, Hu.
  cbn [scan_hex]. rewrite Ha, Hb. cbn [span snd]. do 2 f_equal. 
Qed.

Lemma int_of_string16_raises (text : string) (e : exn) :
  int_of_string16 text = Raise e -> e = ValueError text.
Proof.
  unfold int_of_string16. destruct (int_literal16 _); [discriminate | now intros [= <-]].
Qed.

(** X16. [svg_parse_color] on [#] and six hexadecimal digits, whatever
    follows them: the three components are the numbers that the pairs of
    digits write, each from 0 to 255. *)
Theorem svg_parse_color_reads_pairs
    (h1 h2 h3 h4 h5 h6 : ascii) (v1 v2 v3 v4 v5 v6 : Z) (rest : string) :
  hex_value h1 = Some v1 -> hex_value h2 = Some v2 -> hex_value h3 = Some v3 ->
  hex_value h4 = Some v4 -> hex_value h5 = Some v5 -> hex_value h6 = Some v6 ->
  Svg2pdf.svg_parse_color
    (String "#" (String h1 (String h2 (String h3 (String h4 (String h5 (String h6 rest)))))))
  = Returns (16 * v1 + v2, 16 * v3 + v4, 16 * v5 + v6)%Z
  /\ (0 <= 16 * v1 + v2 <= 255)%Z
  /\ (0 <= 16 * v3 + v4 <= 255)%Z
  /\ (0 <= 16 * v5 + v6 <= 255)%Z.
Proof.
  intros H1 H2 H3 H4 H5 H6. split.
  - unfold Svg2pdf.svg_parse_color. change (Ascii.eqb "#" "#") with true. cbv iota.
    cbn [substring].
    assert (Hrest : substring 0 0 rest = "") by now destruct rest.
    rewrite Hrest.
    rewrite (int_of_two_digits h1 h2 v1 v2 H1 H2), (int_of_two_digits h3 h4 v3 v4 H3 H4),
      (int_of_two_digits h5 h6 v5 v6 H5 H6).
    reflexivity.
  - apply hex_digit_is_plain in H1 as (_ & _ & _ & _ & _ & ?).
    apply hex_digit_is_plain in H2 as (_ & _ & _ & _ & _ & ?).
    apply hex_digit_is_plain in H3 as (_ & _ & _ & _ & _ & ?).
    apply hex_digit_is_plain in H4 as (_ & _ & _ & _ & _ & ?).
    apply hex_digit_is_plain in H5 as (_ & _ & _ & _ & _ & ?).
    apply hex_digit_is_plain in H6 as (_ & _ & _ & _ & _ & ?).
    lia.
Qed.

Lemma svg_parse_color_reads_pairs_witness :
  Svg2pdf.svg_parse_color "#1e90FF" = Returns (30, 144, 255)%Z.
Proof.
  pose proof (svg_parse_color_reads_pairs "1" "e" "9" "0" "F" "F" 1 14 9 0 15 15 ""
                eq_refl eq_refl eq_refl eq_refl eq_refl eq_refl) as [H _].
  exact H.
Defined.

(** X17. [svg_parse_color] refuses the empty text with [IndexError], a text
    that does not start with [#] with its [Exception], and [#] with fewer
    than five characters after it, the three-digit form among them, with
    [ValueError]. *)
Theorem svg_parse_color_refusals :
  Svg2pdf.svg_parse_color "" = Raises IndexError
  /\ (forall c rest,
         c <> "#"%char ->
         Svg2pdf.svg_parse_color (String c rest)
         = Raises (Other (Exception "only hash-code colors are supported!")))
  /\ (forall rest,
         String.length rest <= 4 ->
         exists text, Svg2pdf.svg_parse_color (String "#" rest)
                      = Raises (Other (ValueError text))).
Proof.
  split; [reflexivity | split].
  - intros c rest Hc. unfold Svg2pdf.svg_parse_color.
    apply Ascii.eqb_neq in Hc. now rewrite Hc.
  - intros rest Hlen. unfold Svg2pdf.svg_parse_color.
    change (Ascii.eqb "#" "#") with true. cbv iota.
    assert (Hb : substring 5 2 (String "#" rest) = "").
    { destruct rest as [| ? [| ? [| ? [| ? [| ? ?]]]]]; try reflexivity.
      simpl in Hlen. lia. }
    rewrite Hb.
    destruct (int_of_string16 (substring 1 2 (String "#" rest))) as [r | e] eqn:Er;
      [| apply int_of_string16_raises in Er as ->; now eexists].
    destruct (int_of_string16 (substring 3 2 (String "#" rest))) as [g | e] eqn:Eg;
      [| apply int_of_string16_raises in Eg as ->; now eexists].
    now exists "".
Qed.

Lemma svg_parse_color_refusals_witness :
  Svg2pdf.svg_parse_color "red"
  = Raises (Other (Exception "only hash-code colors are supported!"))
  /\ exists text, Svg2pdf.svg_parse_color "#abc" = Raises (Other (ValueError text)).
Proof.
  destruct svg_parse_color_refusals as (_ & Hhash & Hshort). split.
  - apply Hhash. discriminate.
  - apply (Hshort "abc"). simpl. lia.
Defined.

(** ** Qualified names *)

Lemma partition_chars_at (sep : ascii) (a b : list ascii) :
  Forall (fun c => c <> sep) a ->
  partition_chars sep (a ++ sep :: b) = (a, true, b)
  /\ partition_chars sep a = (a, false, []).
Proof.
  induction 1 as [| c a Hc _ [IH1 IH2]]; simpl.
  - now rewrite Ascii.eqb_refl.
  - apply Ascii.eqb_neq in Hc. now rewrite Hc, IH1, IH2.
Qed.

(** X18. [ns_attrib] on [prefix:local], the prefix without a colon: for a
    prefix of [SVG_NSS] the result is the namespace in braces and then the
    local name, colons in it included; every other prefix raises [KeyError]
    with the prefix.  A name without a colon is taken as a prefix with an
    empty local name. *)
Theorem ns_attrib_resolves (prefix local : string) :
  Forall (fun c => c <> ":"%char) (list_ascii_of_string prefix) ->
  ns_attrib (prefix ++ ":" ++ local)
  = match SVG_NSS !! prefix with
    | Some uri => Ok ("{" ++ uri ++ "}" ++ local)%string
    | None => Raise (KeyError prefix)
    end
  /\ ns_attrib prefix
     = match SVG_NSS !! prefix with
       | Some uri => Ok ("{" ++ uri ++ "}")%string
       | None => Raise (KeyError prefix)
       end.
Proof.
  intros H. unfold ns_attrib. rewrite to_list_app.
  change (list_ascii_of_string (":" ++ local))
    with (":"%char :: list_ascii_of_string local).
  destruct (partition_chars_at ":" _ (list_ascii_of_string local) H) as [-> ->].
  rewrite !string_of_list_ascii_of_string. unfold Etree.getitem.
  now destruct (SVG_NSS !! prefix).
Qed.

Lemma ns_attrib_resolves_witness :
  ns_attrib "sodipodi:role" = Ok "{http://sodipodi.sourceforge.net/DTD/sodipodi-0.dtd}role"
  /\ ns_attrib "svgx:g" = Raise (KeyError "svgx").
Proof.
  split.
  - destruct (ns_attrib_resolves "sodipodi" "role") as [H _].
    + repeat constructor; discriminate.
    + exact H.
  - destruct (ns_attrib_resolves "svgx" "g") as [H _].
    + repeat constructor; discriminate.
    + exact H.
Defined.

(** ** The extraction as a whole *)

(** X19. The nodes of a converted page are the image nodes, the background
    node and the text nodes, in this order: one image node for every image
    element of the tree, one text node for every annotated element that is
    in the tree once the images and the plain text elements are unlinked,
    each text node at the translation of its transform.  The tree returned
    is the given one with these three lists of elements unlinked in turn. *)
Theorem nodes_in_three_layers
    (format_float : float -> string) (splitext : string -> string * string)
    (path_join : string -> string -> string) (shutil_copy : string -> string -> result unit)
    (decode_escaped_string : string -> result string)
    (read_lines : string -> result (list string)) (iterate : gset string -> list string)
    (svgroot : nat) (svg_dir : string) (doc doc' : list Element) (pic : Svg2pdf.TeXPicture) :
  Svg2pdf.convert_svg_to_texpic format_float splitext path_join shutil_copy
    decode_escaped_string read_lines iterate svgroot svg_dir doc = Ok (pic, doc') ->
  let doc1 := unlink_all (Etree.xpath_all is_image doc svgroot) doc in
  let doc2 := unlink_all (Etree.xpath_all is_text doc1 svgroot) doc1 in
  exists images texts,
    Svg2pdf.nodes pic = images ++ [Svg2pdf.bgnode] ++ texts
    /\ length images = length (Etree.xpath_all is_image doc svgroot)
    /\ length texts = length (Etree.xpath_all has_textext doc2 svgroot)
    /\ Forall (at_translation (Svg2pdf.height pic)) texts
    /\ doc' = unlink_all (Etree.xpath_all has_textext doc2 svgroot) doc2.
Proof.
  intros H doc1 doc2.
  apply convert_ok in H
    as (w & h & wv & hv & pic1 & d1 & d2 & pic3 & files & text
        & _ & _ & _ & _ & Himg & Htxt & Htt & ->).
  apply images_loop in Himg as [E1 (images & (_ & Hh1 & Hn1) & Hl1)].
  fold doc1 in E1. subst d1.
  apply text_loop in Htxt. fold doc2 in Htxt. subst d2.
  apply textext_loop in Htt as [-> (texts & (_ & Hh3 & Hn3) & Hl3 & Hat)].
  exists images, texts. simpl in *.
  split; [| split; [exact Hl1 | split; [exact Hl3 | split; [| reflexivity]]]].
  - rewrite Hn3, Hn1. simpl. now rewrite <- app_assoc.
  - now rewrite Hh3.
Qed.

Lemma nodes_in_three_layers_witness :
  exists pic doc' image_node text_node,
    sample_convert sample_doc = Ok (pic, doc')
    /\ Svg2pdf.nodes pic = [image_node; Svg2pdf.bgnode; text_node]
    /\ at_translation (Svg2pdf.height pic) text_node.
Proof.
  sample_run pic doc' E.
  destruct (nodes_in_three_layers _ _ _ _ _ _ _ _ _ _ _ _ E)
    as (images & texts & Hn & Hi & Ht & Hat & _).
  assert (Hi' : length images = 1) by (rewrite Hi; vm_compute; reflexivity).
  assert (Ht' : length texts = 1) by (rewrite Ht; vm_compute; reflexivity).
  clear Hi Ht.
  destruct images as [| image_node [| ? ?]]; try discriminate Hi'.
  destruct texts as [| text_node [| ? ?]]; try discriminate Ht'.
  exists pic, doc', image_node, text_node.
  split; [exact E | split; [exact Hn | now inversion Hat]].
Defined.

Lemma in_tree_root (doc : list Element) (root : nat) : Etree.in_tree doc root root = true.
Proof. unfold Etree.in_tree. now apply bool_decide_eq_true. Qed.

Section Rerun.

Variable format_float : float -> string.
Variable splitext : string -> string * string.
Variable path_join : string -> string -> string.
Variable shutil_copy : string -> string -> result unit.
Variable decode_escaped_string : string -> result string.
Variable read_lines : string -> result (list string).
Variable iterate : gset string -> list string.

Let convert_svg_to_texpic :=
  Svg2pdf.convert_svg_to_texpic format_float splitext path_join shutil_copy
    decode_escaped_string read_lines iterate.

(** After a conversion the tree has no element of an extracted class. *)
Lemma none_left (p : Element -> bool) (svgroot : nat) (svg_dir : string)
    (doc doc' : list Element) (pic : Svg2pdf.TeXPicture) :
  convert_svg_to_texpic svgroot svg_dir doc = Ok (pic, doc') ->
  Etree.getparent doc svgroot = None ->
  (forall e, p e = true -> extracted e = true) ->
  Etree.xpath_all p doc' svgroot = [].
Proof.
  intros H Hroot Hp.
  destruct (Etree.xpath_all p doc' svgroot) as [| x l] eqn:E; [reflexivity |].
  exfalso.
  assert (Hx : In x (Etree.xpath_all p doc' svgroot)) by (rewrite E; now left).
  apply xpath_all_In in Hx as (e' & Ex & Hpe & Hin).
  pose proof (convert_pruned _ _ _ _ _ _ _ _ _ _ _ _ H) as Hpr.
  pose proof (pruned_class extracted extracted doc doc' x stable_extracted Hpr) as Hc.
  rewrite Ex in Hc. rewrite (Hp e' Hpe) in Hc.
  destruct (doc !! x) as [e |] eqn:Ed; [| discriminate Hc].
  symmetry in Hc.
  rewrite (extracted_leave _ _ _ _ _ _ _ svgroot svg_dir doc doc' pic x e H Hroot Ed Hc) in Hin.
  discriminate Hin.
Qed.

End Rerun.

(** X20. A converted tree has nothing left to extract: no image element, no
    plain text element and no annotated element is in the tree of the root.
    Converting it a second time gives a page of the same size with the
    background node alone and leaves the tree as it is (the loop over an
    empty set of preamble files does nothing). *)
Theorem conversion_leaves_nothing_to_extract
    (format_float : float -> string) (splitext : string -> string * string)
    (path_join : string -> string -> string) (shutil_copy : string -> string -> result unit)
    (decode_escaped_string : string -> result string)
    (read_lines : string -> result (list string)) (iterate : gset string -> list string)
    (svgroot : nat) (svg_dir : string) (doc doc' : list Element) (pic : Svg2pdf.TeXPicture) :
  Svg2pdf.convert_svg_to_texpic format_float splitext path_join shutil_copy
    decode_escaped_string read_lines iterate svgroot svg_dir doc = Ok (pic, doc') ->
  Etree.getparent doc svgroot = None ->
  Etree.xpath_all is_image doc' svgroot = []
  /\ Etree.xpath_all is_text doc' svgroot = []
  /\ Etree.xpath_all has_textext doc' svgroot = []
  /\ (iterate ∅ = [] ->
      forall svg_dir',
        Svg2pdf.convert_svg_to_texpic format_float splitext path_join shutil_copy
          decode_escaped_string read_lines iterate svgroot svg_dir' doc'
        = Ok (Svg2pdf.mkPicture (Svg2pdf.width pic) (Svg2pdf.height pic) [Svg2pdf.bgnode] "",
              doc')).
Proof.
  intros H Hroot.
  assert (Hi : Etree.xpath_all is_image doc' svgroot = []).
  { apply (none_left _ _ _ _ _ _ _ is_image svgroot svg_dir doc doc' pic H Hroot).
    intros e He. unfold extracted. now rewrite He. }
  assert (Ht : Etree.xpath_all is_text doc' svgroot = []).
  { apply (none_left _ _ _ _ _ _ _ is_text svgroot svg_dir doc doc' pic H Hroot).
    intros e He. unfold extracted. rewrite He. now rewrite orb_true_r. }
  assert (Ha : Etree.xpath_all has_textext doc' svgroot = []).
  { apply (none_left _ _ _ _ _ _ _ has_textext svgroot svg_dir doc doc' pic H Hroot).
    intros e He. unfold extracted. rewrite He. now rewrite orb_true_r. }
  split; [exact Hi | split; [exact Ht | split; [exact Ha |]]].
  intros Hempty svg_dir'.
  pose proof (convert_pruned _ _ _ _ _ _ _ _ _ _ _ _ H) as Hpr.
  destruct (convert_size _ _ _ _ _ _ _ _ _ _ _ _ H) as (w & h & Hw & Hwv & Hh & Hhv).
  unfold Svg2pdf.convert_svg_to_texpic.
  rewrite (pruned_attrib extracted doc doc' svgroot Hpr).
  rewrite (getitem_some _ _ _ Hw), (getitem_some _ _ _ Hh). cbn [rbind].
  rewrite Hwv, Hhv. cbn [rbind].
  unfold Svg2pdf.extract_images_to_texpic. cbn [snd]. rewrite Hi. cbn [for_each rbind].
  unfold Svg2pdf.extract_text_to_texpic. rewrite Ht. cbn [for_each rbind].
  rewrite Ha. cbn [for_each rbind]. rewrite Hempty. reflexivity.
Qed.

Lemma conversion_leaves_nothing_to_extract_witness :
  exists pic doc',
    sample_convert sample_doc = Ok (pic, doc')
    /\ Etree.xpath_all has_textext doc' 0 = []
    /\ sample_convert doc' = Ok (Svg2pdf.mkPicture (of_Z 200) (of_Z 100) [Svg2pdf.bgnode] "", doc').
Proof.
  sample_run pic doc' E.
  destruct (conversion_leaves_nothing_to_extract _ _ _ _ _ _ _ _ _ _ _ _ E eq_refl)
    as (_ & _ & Ha & Hagain).
  exists pic, doc'. split; [exact E | split; [exact Ha |]].
  exact (Hagain eq_refl "dir").
Defined.

(** X21. A conversion changes nothing of an element but its parent link:
    the tree returned has the same elements at the same places, each with
    its tag, its attributes and its text, and with the parent it had or with
    none. *)
Theorem conversion_keeps_elements
    (format_float : float -> string) (splitext : string -> string * string)
    (path_join : string -> string -> string) (shutil_copy : string -> string -> result unit)
    (decode_escaped_string : string -> result string)
    (read_lines : string -> result (list string)) (iterate : gset string -> list string)
    (svgroot : nat) (svg_dir : string) (doc doc' : list Element) (pic : Svg2pdf.TeXPicture) :
  Svg2pdf.convert_svg_to_texpic format_float splitext path_join shutil_copy
    decode_escaped_string read_lines iterate svgroot svg_dir doc = Ok (pic, doc') ->
  length doc' = length doc
  /\ forall el,
       Etree.tag <$> doc' !! el = Etree.tag <$> doc !! el
       /\ Etree.attrib_of doc' el = Etree.attrib_of doc el
       /\ Etree.text_of doc' el = Etree.text_of doc el
       /\ (Etree.getparent doc' el = Etree.getparent doc el
           \/ Etree.getparent doc' el = None).
Proof.
  intros H. destruct (convert_pruned _ _ _ _ _ _ _ _ _ _ _ _ H) as [Hlen Hel].
  split; [exact Hlen |]. intros el.
  unfold Etree.attrib_of, Etree.text_of, Etree.getparent.
  destruct (Hel el) as [-> | (e & -> & _ & ->)]; [now auto |].
  simpl. auto.
Qed.

Lemma conversion_keeps_elements_witness :
  exists pic doc',
    sample_convert sample_doc = Ok (pic, doc')
    /\ length doc' = 8
    /\ Etree.attrib_of doc' 2 = Etree.attrib_of sample_doc 2
    /\ Etree.getparent doc' 2 = None.
Proof.
  sample_run pic doc' E.
  destruct (conversion_keeps_elements _ _ _ _ _ _ _ _ _ _ _ _ E) as [Hlen Hel].
  destruct (Hel 2) as (_ & Ha & _ & _).
  exists pic, doc'. split; [exact E | split; [exact Hlen | split; [exact Ha | reflexivity]]].
Defined.

(** X22. The root of the tree cannot be extracted: when the root element is
    an image, a plain text element or an annotated element, the conversion
    raises an exception (at the latest when the root is to be removed from
    its parent, which it does not have). *)
Theorem root_is_not_extractable
    (format_float : float -> string) (splitext : string -> string * string)
    (path_join : string -> string -> string) (shutil_copy : string -> string -> result unit)
    (decode_escaped_string : string -> result string)
    (read_lines : string -> result (list string)) (iterate : gset string -> list string)
    (svgroot : nat) (svg_dir : string) (doc : list Element) (e : Element) :
  Etree.getparent doc svgroot = None ->
  doc !! svgroot = Some e ->
  extracted e = true ->
  exists err,
    Svg2pdf.convert_svg_to_texpic format_float splitext path_join shutil_copy
      decode_escaped_string read_lines iterate svgroot svg_dir doc = Raise err.
Proof.
  intros Hroot He Hx.
  destruct (Svg2pdf.convert_svg_to_texpic format_float splitext path_join shutil_copy
              decode_escaped_string read_lines iterate svgroot svg_dir doc)
    as [[pic doc'] | err] eqn:H; [| now exists err].
  pose proof (extracted_leave _ _ _ _ _ _ _ svgroot svg_dir doc doc' pic svgroot e
                H Hroot He Hx) as Hout.
  rewrite in_tree_root in Hout. discriminate Hout.
Qed.

Lemma root_is_not_extractable_witness :
  exists err, sample_convert annotated_root = Raise err.
Proof.
  destruct (root_is_not_extractable sample_format sample_splitext sample_join sample_copy
              sample_decode sample_read sample_iterate 0 "dir" annotated_root
              (svg_element "svg"
                 [("width", "200"); ("height", "100"); (clark NS_TEXTEXT "text", "$x$");
                  (clark NS_TEXTEXT "preamble", "pre.tex")] None))
    as [err Herr]; [reflexivity | reflexivity | reflexivity |].
  exists err. exact Herr.
Defined.

(** ** The image files *)

Lemma attrib_of_unlink (doc : list Element) (y el : nat) :
  Etree.attrib_of (alter Etree.unlink y doc) el = Etree.attrib_of doc el.
Proof.
  unfold Etree.attrib_of. destruct (decide (y = el)) as [-> | Hne].
  - rewrite list_lookup_alter_eq. now destruct (doc !! el).
  - rewrite list_lookup_alter_ne; [reflexivity | congruence].
Qed.

Lemma attrib_of_unlink_all (l : list nat) :
  forall doc el, Etree.attrib_of (unlink_all l doc) el = Etree.attrib_of doc el.
Proof.
  induction l as [| y l IH]; intros doc el; simpl; [reflexivity |].
  now rewrite IH, attrib_of_unlink.
Qed.

Section ImageFiles.

Variable format_float : float -> string.
Variable splitext : string -> string * string.
Variable path_join : string -> string -> string.
Variable shutil_copy : string -> string -> result unit.

Let extract_image := Svg2pdf.extract_image format_float splitext path_join shutil_copy.

Lemma extract_image_file (svg_dir : string) (el : nat) (pic pic' : Svg2pdf.TeXPicture)
    (doc doc' : list Element) :
  extract_image svg_dir el (pic, doc) = Ok (pic', doc') ->
  exists node,
    image_file format_float splitext path_join shutil_copy svg_dir doc el node
    /\ pic' = Svg2pdf.append_node pic node
    /\ doc' = alter Etree.unlink el doc.
Proof.
  unfold extract_image, Svg2pdf.extract_image. intros H.
  rewrite ns_attrib_href in H. cbn [rbind] in H.
  bind_inv H.
  injection H as <- <-.
  repeat match goal with
         | E : Etree.getitem _ _ = Ok _ |- _ => apply getitem_ok in E
         | E : Etree.remove _ _ = Ok _ |- _ => apply remove_ok in E as [-> _]
         | u : unit |- _ => destruct u
         end.
  eexists (Svg2pdf.mkNode _ _ _ _). split; [| split; reflexivity].
  unfold image_file.
  do 5 eexists. repeat split; try eassumption.
  - match goal with E : splitext _ = _ |- _ => now rewrite E end.
  - simpl. match goal with E : splitext _ = _ |- _ => now rewrite E end.
Qed.

Lemma image_files_loop (svg_dir : string) (l : list nat) :
  forall pic doc pic' doc',
    for_each (extract_image svg_dir) l (pic, doc) = Ok (pic', doc') ->
    exists new,
      Svg2pdf.nodes pic' = Svg2pdf.nodes pic ++ new
      /\ Forall2 (image_file format_float splitext path_join shutil_copy svg_dir doc) l new.
Proof.
  induction l as [| el l IH]; intros pic doc pic' doc' H; cbn [for_each] in H.
  - injection H as <- <-. exists []. split; [now rewrite app_nil_r | constructor].
  - destruct (extract_image svg_dir el (pic, doc)) as [[pic1 doc1] | e] eqn:E;
      cbn [rbind] in H; [| discriminate].
    apply extract_image_file in E as (node & Hnode & -> & ->).
    apply IH in H as (new & Hn & Hall).
    exists (node :: new). split.
    + rewrite Hn. simpl. now rewrite <- app_assoc.
    + constructor; [exact Hnode |].
      eapply Forall2_impl; [exact Hall |].
      intros x n. unfold image_file.
      now rewrite attrib_of_unlink.
Qed.

End ImageFiles.

(** X23. Every image element gets one node, in document order: the node
    includes the graphic at the element's width and height divided by 90,
    in inches, and the file named by [xlink:href] has been copied to
    [image1] and the file's extension.  The name does not depend on the
    place of the element among the images: [image_id] is never advanced, so
    two images with the same extension are copied to the same file. *)
Theorem images_are_copied_to_image1
    (format_float : float -> string) (splitext : string -> string * string)
    (path_join : string -> string -> string) (shutil_copy : string -> string -> result unit)
    (svgroot : nat) (svg_dir : string) (pic pic' : Svg2pdf.TeXPicture)
    (doc doc' : list Element) :
  Svg2pdf.extract_images_to_texpic format_float splitext path_join shutil_copy
    svgroot svg_dir (pic, doc) = Ok (pic', doc') ->
  exists new,
    Svg2pdf.nodes pic' = Svg2pdf.nodes pic ++ new
    /\ Forall2 (image_file format_float splitext path_join shutil_copy svg_dir doc)
         (Etree.xpath_all is_image doc svgroot) new.
Proof.
  unfold Svg2pdf.extract_images_to_texpic. cbn [snd]. apply image_files_loop.
Qed.

Lemma images_are_copied_to_image1_witness :
  exists pic' doc' n1 n2,
    Svg2pdf.extract_images_to_texpic sample_format splitext_at_dot sample_join sample_copy
      0 "dir" (sample_page, two_images) = Ok (pic', doc')
    /\ Svg2pdf.nodes pic' = [n1; n2]
    /\ Svg2pdf.texcode n1 = "\includegraphics[width=?in,height=?in]{image1.png}"
    /\ Svg2pdf.texcode n2 = "\includegraphics[width=?in,height=?in]{image1.png}".
Proof.
  destruct (Svg2pdf.extract_images_to_texpic sample_format splitext_at_dot sample_join
              sample_copy 0 "dir" (sample_page, two_images)) as [[pic' doc'] | e] eqn:E;
    [| vm_compute in E; discriminate E].
  destruct (images_are_copied_to_image1 _ _ _ _ _ _ _ _ _ _ E) as (new & Hn & Hall).
  change (Etree.xpath_all is_image two_images 0) with [1; 2] in Hall.
  inversion Hall as [| ? n1 ? l1 H1 Hall1]; subst.
  inversion Hall1 as [| ? n2 ? l2 H2 Hall2]; subst.
  inversion Hall2; subst.
  exists pic', doc', n1, n2.
  split; [reflexivity | split; [exact Hn |]].
  destruct H1 as (w1 & h1 & wv1 & hv1 & p1 & _ & _ & _ & _ & Hp1 & _ & ->).
  destruct H2 as (w2 & h2 & wv2 & hv2 & p2 & _ & _ & _ & _ & Hp2 & _ & ->).
  injection Hp1 as <-. injection Hp2 as <-. split; reflexivity.
Defined.

(** ** The preamble *)

Lemma ns_attrib_preamble : ns_attrib "textext:preamble" = Ok preamble_key.
Proof. reflexivity. Qed.

Lemma ns_attrib_text : ns_attrib "textext:text" = Ok (clark NS_TEXTEXT "text").
Proof. reflexivity. Qed.

Section Preamble.

Variable decode_escaped_string : string -> result string.
Variable read_lines : string -> result (list string).
Variable iterate : gset string -> list string.

Lemma extract_textext_files (el : nat) (pic pic' : Svg2pdf.TeXPicture)
    (doc doc' : list Element) (files files' : gset string) :
  Svg2pdf.extract_textext decode_escaped_string el (pic, doc, files)
  = Ok (pic', doc', files') ->
  exists raw f,
    Etree.attrib_of doc el !! preamble_key = Some raw
    /\ decode_escaped_string raw = Ok f
    /\ files' = {[ f ]} ∪ files
    /\ doc' = alter Etree.unlink el doc.
Proof.
  unfold Svg2pdf.extract_textext. intros H.
  rewrite ns_attrib_text, ns_attrib_preamble in H. cbn [rbind] in H.
  bind_inv H. injection H as <- <- <-.
  repeat match goal with
         | E : Etree.getitem _ _ = Ok _ |- _ => apply getitem_ok in E
         | E : Etree.remove _ _ = Ok _ |- _ => apply remove_ok in E as [-> _]
         end.
  do 2 eexists. repeat split; eassumption.
Qed.

Lemma preamble_files_loop (l : list nat) :
  forall pic doc files pic' doc' files',
    for_each (Svg2pdf.extract_textext decode_escaped_string) l (pic, doc, files)
    = Ok (pic', doc', files') ->
    forall f, f ∈ files' <-> f ∈ files \/ preamble_of decode_escaped_string doc l f.
Proof.
  induction l as [| el l IH]; intros pic doc files pic' doc' files' H f; cbn [for_each] in H.
  - injection H as <- <- <-. split; [now left |].
    intros [Hf | (el & raw & [] & _)]. exact Hf.
  - destruct (Svg2pdf.extract_textext decode_escaped_string el (pic, doc, files))
      as [[[pic1 doc1] files1] | e] eqn:E; cbn [rbind] in H; [| discriminate].
    apply extract_textext_files in E as (raw & f0 & Hraw & Hdec & -> & ->).
    rewrite (IH _ _ _ _ _ _ H f). rewrite elem_of_union, elem_of_singleton. split.
    + intros [[-> | Hf] | (x & raw' & Hin & Hr & Hd)].
      * right. exists el, raw. split; [now left | now split].
      * now left.
      * right. exists x, raw'. rewrite attrib_of_unlink in Hr.
        split; [now right | now split].
    + intros [Hf | (x & raw' & [<- | Hin] & Hr & Hd)].
      * left. now right.
      * left. left. rewrite Hraw in Hr. injection Hr as <-. congruence.
      * right. exists x, raw'. rewrite attrib_of_unlink. now split.
Qed.

End Preamble.

(** X24. The extra preamble of a page is the text of the preamble files,
    read in the order in which the set of their names is gone through.  A
    name is in the set exactly if it is the decoded [textext:preamble]
    attribute of an annotated element of the tree as it is when the plain
    text elements are unlinked: the preamble depends on which files are
    named, not on how many annotations name each. *)
Theorem preamble_is_read_from_the_set
    (decode_escaped_string : string -> result string)
    (read_lines : string -> result (list string)) (iterate : gset string -> list string)
    (svgroot : nat) (pic pic' : Svg2pdf.TeXPicture) (doc doc' : list Element) :
  Svg2pdf.extract_text_to_texpic decode_escaped_string read_lines iterate svgroot (pic, doc)
  = Ok (pic', doc') ->
  let doc1 := unlink_all (Etree.xpath_all is_text doc svgroot) doc in
  exists files lines,
    (forall f,
        f ∈ files
        <-> preamble_of decode_escaped_string doc (Etree.xpath_all has_textext doc1 svgroot) f)
    /\ rmap read_lines (iterate files) = Ok lines
    /\ Svg2pdf.extra_preamble pic' = String.concat "" (List.concat lines).
Proof.
  intros H doc1. unfold Svg2pdf.extract_text_to_texpic in H.
  destruct (for_each (Svg2pdf.drop_text pic) (Etree.xpath_all is_text doc svgroot) doc)
    as [d1 | e] eqn:E1; cbn [rbind] in H; [| discriminate].
  apply text_loop in E1. fold doc1 in E1. subst d1.
  destruct (for_each (Svg2pdf.extract_textext decode_escaped_string)
              (Etree.xpath_all has_textext doc1 svgroot) (pic, doc1, ∅))
    as [[[pic2 doc2] files] | e] eqn:E2; cbn [rbind] in H; [| discriminate].
  destruct (rmap read_lines (iterate files)) as [lines | e] eqn:E3; cbn [rbind] in H;
    [| discriminate].
  injection H as <- <-.
  exists files, lines. split; [| split; [exact E3 | reflexivity]].
  intros f. rewrite (preamble_files_loop _ _ _ _ _ _ _ _ E2 f). split.
  - intros [Hf | (el & raw & Hin & Hr & Hd)]; [now apply elem_of_empty in Hf |].
    exists el, raw. unfold doc1 in Hr. rewrite attrib_of_unlink_all in Hr. now split.
  - intros (el & raw & Hin & Hr & Hd). right.
    exists el, raw. unfold doc1. rewrite attrib_of_unlink_all. now split.
Qed.

Lemma preamble_is_read_from_the_set_witness :
  exists pic' doc' files lines,
    Svg2pdf.extract_text_to_texpic sample_decode sample_read sample_iterate 0
      (sample_page, sample_doc) = Ok (pic', doc')
    /\ rmap sample_read (sample_iterate files) = Ok lines
    /\ Svg2pdf.extra_preamble pic' = String.concat "" (List.concat lines).
Proof.
  pose proof sample_text_eq as E. unfold sample_text_result in E.
  match type of E with
  | _ = Ok (?p, ?d) => set (pic' := p) in *; set (doc' := d) in *
  end.
  destruct (preamble_is_read_from_the_set _ _ _ _ _ _ _ _ E)
    as (files & lines & _ & Hl & Hp).
  exists pic', doc', files, lines. split; [exact E | split; [exact Hl | exact Hp]].
Defined.

(** ** The labels of svg2latex.py *)

Lemma interpret_tspan_ok (doc : list Element) (style : gmap string string) (tspan : nat)
    (texDoc texDoc' : Svg2latex.TeXPicture) :
  Svg2latex.interpret_tspan doc style tspan texDoc = Ok texDoc' ->
  exists label,
    label_of doc (Svg2latex.height texDoc) tspan label
    /\ texDoc' = Svg2latex.add_label texDoc label.
Proof.
  unfold Svg2latex.interpret_tspan. intros H. bind_inv H. injection H as <-.
  repeat match goal with
         | E : Etree.getitem _ _ = Ok _ |- _ => apply getitem_ok in E
         end.
  eexists. split; [| reflexivity].
  unfold label_of. do 5 eexists. repeat split; eassumption.
Qed.

Lemma tspans_loop (doc : list Element) (style : gmap string string) (l : list nat) :
  forall texDoc texDoc',
    for_each (Svg2latex.interpret_tspan doc style) l texDoc = Ok texDoc' ->
    exists new,
      labelled texDoc texDoc' new
      /\ Forall2 (label_of doc (Svg2latex.height texDoc)) l new.
Proof.
  induction l as [| el l IH]; intros texDoc texDoc' H; cbn [for_each] in H.
  - injection H as <-. exists []. split; [| constructor].
    unfold labelled. now rewrite app_nil_r.
  - destruct (Svg2latex.interpret_tspan doc style el texDoc) as [t1 | e] eqn:E;
      cbn [rbind] in H; [| discriminate].
    apply interpret_tspan_ok in E as (label & Hlabel & ->).
    apply IH in H as (new & (Hn & Hh & Hb) & Hall).
    exists (label :: new). split.
    + unfold labelled. rewrite Hn, Hh, Hb. simpl. now rewrite <- app_assoc.
    + constructor; [exact Hlabel | exact Hall].
Qed.

Lemma texts_loop (doc : list Element) (l : list nat) :
  forall texDoc texDoc',
    for_each (Svg2latex.interpret_svg_text doc) l texDoc = Ok texDoc' ->
    exists new,
      labelled texDoc texDoc' new
      /\ Forall2 (label_of doc (Svg2latex.height texDoc))
           (flat_map (Etree.xpath_children is_tspan doc) l) new.
Proof.
  induction l as [| el l IH]; intros texDoc texDoc' H; cbn [for_each] in H.
  - injection H as <-. exists []. split; [| constructor].
    unfold labelled. now rewrite app_nil_r.
  - destruct (Svg2latex.interpret_svg_text doc el texDoc) as [t1 | e] eqn:E;
      cbn [rbind] in H; [| discriminate].
    unfold Svg2latex.interpret_svg_text in E.
    apply tspans_loop in E as (new1 & (Hn1 & Hh1 & Hb1) & Hall1).
    apply IH in H as (new2 & (Hn2 & Hh2 & Hb2) & Hall2).
    exists (new1 ++ new2). split.
    + unfold labelled. rewrite Hn2, Hn1, Hh2, Hh1, Hb2, Hb1. now rewrite <- app_assoc.
    + simpl. apply Forall2_app; [exact Hall1 |]. now rewrite <- Hh1.
Qed.

(** X25. svg2latex.py: the labels of a page are, in document order, one for
    every [tspan] child of every [text] element of the tree.  The label
    carries the text of the [tspan] and stands where the accumulated
    transform sends the [tspan]'s [x] and [y], the second coordinate
    counted from the top of the page; the page has no background graphic
    yet. *)
Theorem process_svg_labels (doc : list Element) (root : nat) (texDoc : Svg2latex.TeXPicture) :
  Svg2latex.process_svg doc root = Ok texDoc ->
  Forall2 (label_of doc (Svg2latex.height texDoc))
    (flat_map (Etree.xpath_children is_tspan doc) (Etree.xpath_all is_text doc root))
    (Svg2latex.labels texDoc)
  /\ Svg2latex.backgroundGraphic texDoc = None.
Proof.
  unfold Svg2latex.process_svg. intros H. bind_inv H.
  apply texts_loop in H as (new & (Hn & Hh & Hb) & Hall).
  simpl in Hn, Hh, Hb. rewrite Hn, Hh, Hb. now split.
Qed.

Lemma process_svg_labels_witness :
  exists texDoc label,
    Svg2latex.process_svg sample_doc 0 = Ok texDoc
    /\ Svg2latex.labels texDoc = [label]
    /\ label_of sample_doc (Svg2latex.height texDoc) 6 label.
Proof.
  destruct (Svg2latex.process_svg sample_doc 0) as [texDoc | e] eqn:E;
    [| vm_compute in E; discriminate E].
  destruct (process_svg_labels sample_doc 0 texDoc E) as [Hall _].
  change (flat_map (Etree.xpath_children is_tspan sample_doc)
            (Etree.xpath_all is_text sample_doc 0)) with [6] in Hall.
  inversion Hall as [| ? label ? l Hl Hnil Ea El]; subst. inversion Hnil; subst.
  exists texDoc, label. split; [reflexivity | split; [congruence | exact Hl]].
Defined.

(** ** Lengths: what is around them *)

Lemma lstrip_spaces (ws l : list ascii) :
  Forall (fun c => is_space c = true) ws -> lstrip (ws ++ l) = lstrip l.
Proof.
  unfold lstrip. induction 1 as [| c ws Hc _ IH]; [reflexivity |].
  simpl. rewrite Hc. now destruct (span is_space (ws ++ l)).
Qed.

(** A scan that stops inside a text stops at the same place when the text
    goes on. *)
Lemma span_more (p : ascii -> bool) (l a b r : list ascii) :
  span p l = (a, b) -> b <> [] -> span p (l ++ r) = (a, b ++ r).
Proof.
  intros H Hb. apply span_spec in H as (-> & Ha & Hh).
  rewrite <- app_assoc. apply span_app; [exact Ha |].
  destruct b as [| c b]; [congruence | exact Hh].
Qed.

Lemma span_none (p : ascii -> bool) (l b : list ascii) :
  span p l = ([], b) -> b = l.
Proof. intros H. now apply span_spec in H as (-> & _). Qed.

Lemma take_sign_more (l r sg l1 : list ascii) :
  Svg2pdf.take_sign l = (sg, l1) -> l <> [] -> Svg2pdf.take_sign (l ++ r) = (sg, l1 ++ r).
Proof.
  unfold Svg2pdf.take_sign. destruct l as [| c l]; [congruence |]. simpl.
  destruct (Ascii.eqb c "+" || Ascii.eqb c "-"); now intros [= <- <-].
Qed.

Lemma take_mantissa_more (l r mant l2 : list ascii) :
  Svg2pdf.take_mantissa l = Some (mant, l2) -> l2 <> [] ->
  Svg2pdf.take_mantissa (l ++ r) = Some (mant, l2 ++ r).
Proof.
  unfold Svg2pdf.take_mantissa.
  destruct (span is_digit l) as [[| d ds] l1] eqn:E.
  - apply span_none in E as ->.
    destruct l as [| c [| d l1']]; try discriminate.
    destruct (Ascii.eqb c "." && is_digit d) eqn:Ec; [| discriminate].
    destruct (span is_digit l1') as [more l2'] eqn:Em. intros [= <- <-] Hne.
    apply andb_prop in Ec as [Ec Hd].
    assert (Hc : is_digit c = false) by (apply Ascii.eqb_eq in Ec as ->; reflexivity).
    cbn [app span]. rewrite Hc, Ec, Hd. cbn [andb].
    now rewrite (span_more _ _ _ _ r Em Hne).
  - destruct l1 as [| c l1'].
    + simpl. intros [= _ <-]. congruence.
    + rewrite (span_more _ _ _ _ r E) by discriminate. cbn [app].
      destruct (Ascii.eqb c ".").
      * destruct (span is_digit l1') as [more l3] eqn:Em. intros [= <- <-] Hne.
        now rewrite (span_more _ _ _ _ r Em Hne).
      * destruct (span is_digit (c :: l1')) as [more l3] eqn:Em. intros [= <- <-] Hne.
        change (c :: l1' ++ r) with ((c :: l1') ++ r).
        now rewrite (span_more _ _ _ _ r Em Hne).
Qed.

Lemma take_unit_more (l r u : list ascii) :
  Svg2pdf.take_unit l = Some u -> Svg2pdf.take_unit (l ++ r) = Some u.
Proof.
  unfold Svg2pdf.take_unit. destruct l as [| a [| b l]]; [discriminate | | exact id].
  destruct (Ascii.eqb a "%") eqn:Ea; [| discriminate]. intros [= <-].
  apply Ascii.eqb_eq in Ea as ->. destruct r as [| b r]; [reflexivity |].
  cbn [app]. destruct (bool_decide _) eqn:Ew; [| reflexivity].
  apply bool_decide_eq_true in Ew. exfalso. unfold Svg2pdf.unit_words in Ew.
  repeat (apply elem_of_cons in Ew as [Ew | Ew]; [discriminate Ew |]).
  now apply elem_of_nil in Ew.
Qed.

Lemma take_exponent_more (l r ex l3 u : list ascii) :
  Svg2pdf.take_exponent l = (ex, l3) -> Svg2pdf.take_unit l3 = Some u ->
  Svg2pdf.take_exponent (l ++ r) = (ex, l3 ++ r).
Proof.
  unfold Svg2pdf.take_exponent. destruct l as [| c l1]; [intros [= <- <-]; discriminate |].
  cbn [app]. destruct (is_e c) eqn:He; [| now intros [= <- <-]].
  destruct (Svg2pdf.take_sign l1) as [sg l2] eqn:Es.
  destruct (span is_digit l2) as [[| d ds] l4] eqn:Ed; intros [= <- <-] Hu.
  - (* no digits: the exponent matches nothing, the unit starts at [c] *)
    pose proof (span_none _ _ _ Ed) as El. subst l4.
    assert (Hl2 : l2 <> []).
    { intros ->. unfold Svg2pdf.take_sign in Es. unfold Svg2pdf.take_unit in Hu.
      destruct l1 as [| s [| ? ?]].
      - destruct (Ascii.eqb c "%") eqn:Ec; [| discriminate].
        apply Ascii.eqb_eq in Ec as ->. vm_compute in He. discriminate He.
      - destruct (Ascii.eqb s "+" || Ascii.eqb s "-") eqn:Eq; [| discriminate Es].
        apply sign_is_plain in Eq as [_ [-> | ->]].
        + destruct (bool_decide _) eqn:Ew.
          * apply bool_decide_eq_true in Ew. unfold Svg2pdf.unit_words in Ew.
            repeat (apply elem_of_cons in Ew as [Ew | Ew]; [discriminate Ew |]).
            now apply elem_of_nil in Ew.
          * destruct (Ascii.eqb c "%") eqn:Ec; [| discriminate].
            apply Ascii.eqb_eq in Ec as ->. vm_compute in He. discriminate He.
        + destruct (bool_decide _) eqn:Ew.
          * apply bool_decide_eq_true in Ew. unfold Svg2pdf.unit_words in Ew.
            repeat (apply elem_of_cons in Ew as [Ew | Ew]; [discriminate Ew |]).
            now apply elem_of_nil in Ew.
          * destruct (Ascii.eqb c "%") eqn:Ec; [| discriminate].
            apply Ascii.eqb_eq in Ec as ->. vm_compute in He. discriminate He.
      - destruct (Ascii.eqb s "+" || Ascii.eqb s "-"); discriminate Es. }
    assert (Hl1 : l1 <> []) by (intros ->; now injection Es as _ <-).
    rewrite (take_sign_more _ r _ _ Es Hl1).
    destruct l2 as [| x l2]; [congruence |].
    cbn [app span]. simpl in Ed. destruct (is_digit x); [| reflexivity].
    now destruct (span is_digit l2).
  - assert (Hl4 : l4 <> []) by (intros ->; discriminate Hu).
    assert (Hl1 : l1 <> []).
    { intros ->. injection Es as _ <-. discriminate Ed. }
    rewrite (take_sign_more _ r _ _ Es Hl1).
    now rewrite (span_more _ _ _ _ r Ed Hl4).
Qed.

Lemma matched_unit_stays (l r : list ascii) :
  forall sg l1 mant l2 ex l3 u,
    Svg2pdf.take_sign (lstrip l) = (sg, l1) ->
    Svg2pdf.take_mantissa l1 = Some (mant, l2) ->
    Svg2pdf.take_exponent l2 = (ex, l3) ->
    Svg2pdf.take_unit l3 = Some u ->
    Svg2pdf.take_sign (lstrip (l ++ r)) = (sg, l1 ++ r)
    /\ Svg2pdf.take_mantissa (l1 ++ r) = Some (mant, l2 ++ r)
    /\ Svg2pdf.take_exponent (l2 ++ r) = (ex, l3 ++ r)
    /\ Svg2pdf.take_unit (l3 ++ r) = Some u.
Proof.
  intros sg l1 mant l2 ex l3 u Hs Hm He Hu.
  assert (Hl2 : l2 <> []).
  { intros ->. injection He as _ <-. discriminate Hu. }
  assert (Hl0 : lstrip l <> []).
  { intros E. rewrite E in Hs. injection Hs as _ <-. discriminate Hm. }
  assert (Hstrip : lstrip (l ++ r) = lstrip l ++ r).
  { unfold lstrip in *. destruct (span is_space l) as [a b] eqn:E.
    now rewrite (span_more _ _ _ _ r E Hl0). }
  rewrite Hstrip.
  repeat split.
  - now apply take_sign_more.
  - now apply take_mantissa_more.
  - now apply (take_exponent_more _ _ _ _ u).
  - now apply take_unit_more.
Qed.

(** X27. [RX_LENGTH] is not anchored at the end and starts with white
    space: white space before a length changes nothing, and what follows
    the unit of a length is ignored, so that the longer text resolves (or
    raises [KeyError]) exactly as the length does. *)
Theorem length_affixes_are_ignored :
  (forall ws text,
      Forall (fun c => is_space c = true) (list_ascii_of_string ws) ->
      Svg2pdf.RX_LENGTH_match (ws ++ text) = Svg2pdf.RX_LENGTH_match text)
  /\ (forall text value u rest,
         Svg2pdf.RX_LENGTH_match text = Some (value, Some u) ->
         Svg2pdf.RX_LENGTH_match (text ++ rest) = Some (value, Some u)
         /\ Svg2pdf.svg_parse_length (text ++ rest) = Svg2pdf.svg_parse_length text).
Proof.
  split.
  - intros ws text Hws. unfold Svg2pdf.RX_LENGTH_match.
    now rewrite to_list_app, (lstrip_spaces _ _ Hws).
  - intros text value u rest Hm.
    assert (Hm' : Svg2pdf.RX_LENGTH_match (text ++ rest) = Some (value, Some u)).
    { revert Hm. unfold Svg2pdf.RX_LENGTH_match. rewrite to_list_app.
      destruct (Svg2pdf.take_sign (lstrip (list_ascii_of_string text))) as [sg l1] eqn:Es.
      destruct (Svg2pdf.take_mantissa l1) as [[mant l2] |] eqn:Ema; [| discriminate].
      destruct (Svg2pdf.take_exponent l2) as [ex l3] eqn:Ee.
      destruct (Svg2pdf.take_unit l3) as [w |] eqn:Eu; [| discriminate].
      intros [= <- <-].
      destruct (matched_unit_stays _ (list_ascii_of_string rest) _ _ _ _ _ _ _
                  Es Ema Ee Eu) as (-> & -> & -> & ->).
      reflexivity. }
    split; [exact Hm' |]. unfold Svg2pdf.svg_parse_length. now rewrite Hm, Hm'.
Qed.

Lemma length_affixes_are_ignored_witness :
  Svg2pdf.svg_parse_length "12pt and more" = Svg2pdf.svg_parse_length "12pt".
Proof.
  destruct length_affixes_are_ignored as [_ H].
  destruct (H "12pt" "12" "pt" " and more") as [_ E]; [reflexivity | exact E].
Defined.

(** ** Calls without arguments *)

Lemma split_runs_blank (l : list ascii) :
  Forall (fun c => is_space c = true) l -> split_runs [] l = [].
Proof. induction 1 as [| c l Hc _ IH]; simpl; [reflexivity | now rewrite Hc]. Qed.

Lemma split_at_whole (sep : ascii) (l : list ascii) :
  Forall (fun c => c <> sep) l -> forall cur, split_at sep cur l = [rev cur ++ l].
Proof.
  induction 1 as [| c l Hc _ IH]; intros cur; simpl; [now rewrite app_nil_r |].
  apply Ascii.eqb_neq in Hc. rewrite Hc, IH. simpl. now rewrite <- app_assoc.
Qed.

Lemma lstrip_blank (l : list ascii) :
  Forall (fun c => is_space c = true) l -> lstrip l = [].
Proof.
  unfold lstrip. induction 1 as [| c l Hc _ IH]; simpl; [reflexivity |].
  rewrite Hc. now destruct (span is_space l).
Qed.

Lemma blank_replaced (l : list ascii) :
  Forall (fun c => is_space c = true) l ->
  Forall (fun c => is_space c = true) (replace_chars "," " " l).
Proof.
  unfold replace_chars. induction 1 as [| c l Hc _ IH]; simpl; constructor; auto.
  now destruct (Ascii.eqb c ",").
Qed.

(** X28. A call with nothing or white space between the parentheses.
    svg2pdf.py splits the arguments at white space, finds no number and
    refuses the call with the [Exception] of the function, or as
    unsupported; svg2latex.py splits at the commas, finds one empty text
    and raises [ValueError] in [float], whatever the function name is. *)
Theorem calls_without_arguments (func ws : list ascii) :
  Forall (fun c => is_word c = true) func ->
  func <> [] ->
  Forall (fun c => is_space c = true) ws ->
  let name := string_of_list_ascii func in
  let attribute := string_of_list_ascii (func ++ "("%char :: ws ++ [")"%char]) in
  (name = "matrix" ->
   Svg2pdf.svg_parse_transform attribute = Raise (Exception "bad matrix transform"))
  /\ (name = "translate" ->
      Svg2pdf.svg_parse_transform attribute = Raise (Exception "bad translate transform"))
  /\ (name = "scale" ->
      Svg2pdf.svg_parse_transform attribute = Raise (Exception "bad scale transform"))
  /\ (name <> "matrix" -> name <> "translate" -> name <> "scale" ->
      Svg2pdf.svg_parse_transform attribute
      = Raise (Exception ("unsupported transform attribute (" ++ attribute ++ ")")))
  /\ Svg2latex.parse_svg_transform attribute = Raise (ValueError "").
Proof.
  intros Hfunc Hne Hws name attribute.
  assert (Hpdf : Forall (fun c => is_arg_svg2pdf c = true) ws).
  { eapply Forall_impl; [exact Hws |]. intros c Hc. unfold is_arg_svg2pdf.
    rewrite Hc. now rewrite !orb_true_r. }
  assert (Hlatex : Forall (fun c => is_arg_svg2latex c = true) ws).
  { eapply Forall_impl; [exact Hws |]. intros c Hc. unfold is_arg_svg2latex.
    rewrite Hc. now rewrite !orb_true_r. }
  assert (Hcomma : Forall (fun c => c <> ","%char) ws).
  { eapply Forall_impl; [exact Hws |]. intros c Hc ->. discriminate Hc. }
  assert (E1 : Svg2pdf.svg_parse_transform attribute
               = build_transform (fun s sx sy => Affine.scale_svg2pdf s sx (Some sy))
                   attribute name []).
  { unfold Svg2pdf.svg_parse_transform, Svg2pdf.RX_TRANSFORM, RX_TRANSFORM_match, attribute.
    rewrite list_ascii_of_string_of_list_ascii.
    pose proof (match_transform_complete is_arg_svg2pdf [] func ws [] eq_refl
                  (List.Forall_nil _) Hfunc Hne Hpdf (List.Forall_nil _)) as Hmatch.
    cbn [app] in Hmatch. rewrite Hmatch.
    unfold Svg2pdf.argument_tokens, split, replace.
    rewrite !list_ascii_of_string_of_list_ascii.
    now rewrite (split_runs_blank _ (blank_replaced _ Hws)). }
  rewrite E1.
  destruct (build_refuses (fun s sx sy => Affine.scale_svg2pdf s sx (Some sy))
              attribute name []) as (Hm & Ht & Hs & Hu).
  split; [intros E; apply Hm; [exact E | discriminate] |].
  split; [intros E; apply Ht; [exact E | left; simpl; lia] |].
  split; [intros E; apply Hs; [exact E | left; simpl; lia] |].
  split; [exact Hu |].
  unfold Svg2latex.parse_svg_transform, Svg2latex.RX_TRANSFORM, RX_TRANSFORM_match,
    attribute.
  rewrite list_ascii_of_string_of_list_ascii.
  pose proof (match_transform_complete is_arg_svg2latex [] func ws [] eq_refl
                (List.Forall_nil _) Hfunc Hne Hlatex (List.Forall_nil _)) as Hmatch.
  cbn [app] in Hmatch. rewrite Hmatch.
  unfold Svg2latex.argument_tokens, split_on.
  rewrite list_ascii_of_string_of_list_ascii.
  rewrite (split_at_whole _ _ Hcomma). cbn [rev app map rmap].
  unfold strip. rewrite list_ascii_of_string_of_list_ascii.
  unfold strip_chars. rewrite (lstrip_blank _ Hws). reflexivity.
Qed.

Lemma calls_without_arguments_witness :
  Svg2pdf.svg_parse_transform "translate( )" = Raise (Exception "bad translate transform")
  /\ Svg2latex.parse_svg_transform "translate( )" = Raise (ValueError "").
Proof.
  destruct (calls_without_arguments (list_ascii_of_string "translate") [" "%char])
    as (_ & H1 & _ & _ & H2).
  - repeat constructor.
  - discriminate.
  - repeat constructor.
  - split; [exact (H1 eq_refl) | exact H2].
Defined.

(** ** Rotations *)

(** X29. [s.rotate_degrees(angle, cx, cy)] on a new transform, whatever the
    sine [sin] and the cosine [cos] of the angle are: the matrix part of the
    result is [(cos, sin, -sin, cos)]; with the centre [(0,0)], which the
    method treats apart, the translation is [(0,0)], and with every other
    centre it is
    [(cos*(-cx) + (-sin)*(-cy) + cx, sin*(-cx) + cos*(-cy) + cy)]. *)
Theorem rotate_degrees_of_identity (sin_degrees cos_degrees : float -> float)
    (angle cx cy : float) :
  let sin := sin_degrees angle in
  let cos := cos_degrees angle in
  let r := Affine.rotate_degrees sin_degrees cos_degrees Affine.identity angle cx cy in
  Affine.m r = (cos, sin, - sin, cos)%Qc
  /\ (cx = 0%Qc -> cy = 0%Qc -> Affine.t r = (0, 0)%Qc)
  /\ (cx <> 0%Qc \/ cy <> 0%Qc ->
      Affine.t r = (cos * - cx + - sin * - cy + cx, sin * - cx + cos * - cy + cy)%Qc).
Proof.
  intros sin cos r. subst r. unfold Affine.rotate_degrees. fold sin cos.
  assert (Hm : forall a b c d : Qc, a = cos -> b = sin -> c = (- sin)%Qc -> d = cos ->
                                    (a, b, c, d) = (cos, sin, (- sin)%Qc, cos))
    by (now intros a b c d -> -> -> ->).
  destruct (Qc_eq_dec cx 0%Qc) as [Ex | Hx]; [destruct (Qc_eq_dec cy 0%Qc) as [Ey | Hy] |].
  - split; [| split].
    + unfold Affine.matrix, Affine.identity; cbn. apply Hm; ring.
    + intros _ _. unfold Affine.matrix, Affine.identity; cbn. apply point_ext; ring.
    + intros [H | H]; contradiction.
  - split; [| split].
    + unfold Affine.translate, Affine.matrix, Affine.identity; cbn. apply Hm; ring.
    + intros _ H. contradiction.
    + intros _. unfold Affine.translate, Affine.matrix, Affine.identity; cbn.
      apply point_ext; ring.
  - split; [| split].
    + unfold Affine.translate, Affine.matrix, Affine.identity; cbn. apply Hm; ring.
    + intros H. contradiction.
    + intros _. unfold Affine.translate, Affine.matrix, Affine.identity; cbn.
      apply point_ext; ring.
Qed.

Lemma rotate_degrees_of_identity_witness :
  let quarter := Affine.rotate_degrees (fun _ => 1%Qc) (fun _ => 0%Qc) Affine.identity
                   (of_Z 90) (of_Z 2) (of_Z 3) in
  Affine.m quarter = (0, 1, - (1), 0)%Qc
  /\ Affine.t quarter = (0 * - of_Z 2 + - (1) * - of_Z 3 + of_Z 2,
                         1 * - of_Z 2 + 0 * - of_Z 3 + of_Z 3)%Qc.
Proof.
  intros quarter.
  destruct (rotate_degrees_of_identity (fun _ => 1%Qc) (fun _ => 0%Qc)
              (of_Z 90) (of_Z 2) (of_Z 3)) as (Hm & _ & Ht).
  split; [exact Hm |]. apply Ht. left. discriminate.
Defined.
